(** * simple-jsx-ssg: a shallow embedding of [index.tsx]

    The development follows the library file: JavaScript strings and
    insertion-ordered [Map]s, [ParsedArgs], the Node path helpers and file
    system calls the generator relies on, and [SiteGenerator] itself
    (registration, the serve-mode request handler and the build).  The
    source file starts with an earlier draft of the class; the module that
    follows it (with static mappings, [build] and [ParsedArgs]) is the one
    embedded here, and of the draft the request handler, for comparison.

    Conventions.
    - A JavaScript string is a [string]: the sequence of bytes of its UTF-8
      encoding.  Every index computation of the source (prefix and suffix
      stripping, search for an ASCII character) is carried out on that
      sequence; [toLowerCase] maps the ASCII letters.
    - Numbers that index strings are [Z], as [indexOf] answers [-1].
    - A [Map] is an association list in insertion order with unique keys.
    - Asynchronous calls are sequential in the source (every promise is
      awaited at once), so [await] is function application in a state and
      error monad over the world (file system and console).
    - [path] and [fs] are Node's, [Bun.write] and [Bun.file] are Bun's; they
      are modelled after their documented behaviour on a POSIX system.
      [react-dom] is not modelled: an element stands for what it renders to.
    - A renderer is a function of no argument that answers a result or
      throws; it reads and changes nothing of the world. *)

From Stdlib Require Import String Ascii List ZArith Lia Bool Arith.
Import ListNotations.
Local Open Scope list_scope.
Local Open Scope string_scope.

(* ================================================================== *)
(** * JavaScript strings *)
(* ================================================================== *)

Fixpoint drop (n : nat) (s : string) : string :=
  match n, s with
  | O, _ => s
  | S _, EmptyString => EmptyString
  | S n', String _ s' => drop n' s'
  end.

Fixpoint take (n : nat) (s : string) : string :=
  match n, s with
  | O, _ => EmptyString
  | S _, EmptyString => EmptyString
  | S n', String c s' => String c (take n' s')
  end.

(** [s.length] *)
Definition strlen (s : string) : Z := Z.of_nat (String.length s).

(** An index argument is clamped to [0 .. s.length]. *)
Definition clamp (s : string) (i : Z) : nat :=
  Z.to_nat (Z.min (Z.max i 0) (strlen s)).

(** [s.substring(start, stop)]; [stop = None] is the one-argument call.
    Both ends are clamped and swapped when out of order. *)
Definition substring (s : string) (start : Z) (stop : option Z) : string :=
  let a := clamp s start in
  let b := match stop with Some e => clamp s e | None => String.length s end in
  take (Nat.max a b - Nat.min a b) (drop (Nat.min a b) s).

(** [s.startsWith(p)] *)
Fixpoint startsWith (s p : string) {struct p} : bool :=
  match p, s with
  | EmptyString, _ => true
  | String _ _, EmptyString => false
  | String c p', String d s' => Ascii.eqb d c && startsWith s' p'
  end.

(** [s.endsWith(p)]: the last [p.length] characters of [s] are [p]. *)
Definition endsWith (s p : string) : bool :=
  (String.length p <=? String.length s)%nat
  && String.eqb (drop (String.length s - String.length p) s) p.

Fixpoint indexOf_scan (s pat : string) (k : nat) : option nat :=
  if startsWith s pat then Some k
  else match s with
       | EmptyString => None
       | String _ s' => indexOf_scan s' pat (S k)
       end.

(** [s.indexOf(pat, position)]: the least index at or after [position]
    where [pat] occurs, [-1] when there is none. *)
Definition indexOf (s pat : string) (position : Z) : Z :=
  let p := clamp s position in
  match indexOf_scan (drop p s) pat p with
  | Some k => Z.of_nat k
  | None => (-1)%Z
  end.

Definition lower_ascii (c : ascii) : ascii :=
  let n := nat_of_ascii c in
  if ((65 <=? n) && (n <=? 90))%nat then ascii_of_nat (n + 32) else c.

(** [s.toLowerCase()] *)
Fixpoint toLowerCase (s : string) : string :=
  match s with
  | EmptyString => EmptyString
  | String c s' => String (lower_ascii c) (toLowerCase s')
  end.

(** [xs.includes(x)] on an array of strings. *)
Definition includes (xs : list string) (x : string) : bool :=
  existsb (String.eqb x) xs.

(* ================================================================== *)
(** * JavaScript [Map]: insertion-ordered, one entry per key *)
(* ================================================================== *)

(** Keys are compared by value (strings) or structurally (locations). *)
Class Key (K : Type) := { keqb : K -> K -> bool }.

Class KeyLaws (K : Type) {KK : Key K} := {
  keqb_eq : forall a b : K, keqb a b = true <-> a = b
}.
Arguments KeyLaws K {KK}.

#[export] Instance string_Key : Key string := {| keqb := String.eqb |}.

Module JsMap.
Section Ops.
Context {K V : Type} `{Key K}.

Fixpoint get (m : list (K * V)) (k : K) : option V :=
  match m with
  | [] => None
  | (k', v) :: m' => if keqb k' k then Some v else get m' k
  end.

(** [m.set(k, v)]: an existing key keeps its place and takes the new
    value; a new key goes last. *)
Fixpoint set (m : list (K * V)) (k : K) (v : V) : list (K * V) :=
  match m with
  | [] => [(k, v)]
  | (k', v') :: m' =>
      if keqb k' k then (k', v) :: m' else (k', v') :: set m' k v
  end.

Definition has (m : list (K * V)) (k : K) : bool :=
  match get m k with Some _ => true | None => false end.

Definition keys (m : list (K * V)) : list K := map fst m.
End Ops.
End JsMap.

(* ================================================================== *)
(** * ParsedArgs *)
(* ================================================================== *)

(** [options] maps a name to [Some v] (given as [--name=v]) or [None]
    (given as [--name]); JavaScript's [undefined] is the outer [None] of
    [getOption]. *)
Record ParsedArgs := {
  options : list (string * option string);
  args : list string
}.

(** The key and value of one [--] token. *)
Definition split_option (arg : string) : string * option string :=
  let eqIdx := indexOf arg "=" 0 in
  if (eqIdx =? -1)%Z
  then (substring arg 2 None, None)
  else (substring arg 2 (Some eqIdx), Some (substring arg (eqIdx + 1) None)).

(** One turn of the loop of [ParsedArgs.parse]. *)
Definition parse_step (acc : list string * list (string * option string))
    (arg : string) : list string * list (string * option string) :=
  let (argsRes, optionsRes) := acc in
  if startsWith arg "--"
  then let (key, value) := split_option arg in
       (argsRes, JsMap.set optionsRes key value)
  else ((argsRes ++ [arg])%list, optionsRes).

Definition parse (rawArgs : list string) (sliceFirstTwo : bool) : ParsedArgs :=
  let args := if sliceFirstTwo then skipn 2 rawArgs else rawArgs in
  let (argsRes, optionsRes) := fold_left parse_step args ([], []) in
  {| options := optionsRes; args := argsRes |}.

(** The tokens [parse] goes through. *)
Definition tokens_of (rawArgs : list string) (sliceFirstTwo : bool) :=
  if sliceFirstTwo then skipn 2 rawArgs else rawArgs.

Definition getOption (p : ParsedArgs) (arg : string) : option (option string) :=
  JsMap.get (options p) arg.

Definition getOptionOr (p : ParsedArgs) (arg defaultVal : string) : string :=
  match getOption p arg with
  | Some (Some v) => v
  | _ => defaultVal
  end.

Definition isOptionTrue (p : ParsedArgs) (arg : string)
    (useNoValueAsTrue : bool) (trueValues : list string)
    (trueValuesCaseSensitive : bool) : bool :=
  match JsMap.get (options p) arg with
  | None => false
  | Some None => useNoValueAsTrue
  | Some (Some val) =>
      if trueValuesCaseSensitive then includes trueValues val
      else let valLower := toLowerCase val in
           existsb (fun trueVal => String.eqb valLower (toLowerCase trueVal))
                   trueValues
  end.

(** The default arguments of [isOptionTrue]. *)
Definition default_trueValues : list string := ["true"; "yes"; "y"; "1"].

Definition isOptionTrue_default (p : ParsedArgs) (arg : string) : bool :=
  isOptionTrue p arg true default_trueValues false.

(* ================================================================== *)
(** * Node's [path] module (POSIX flavour): [join], [normalize], [dirname] *)
(* ================================================================== *)

Definition slash : ascii := "/"%char.
Definition dot : ascii := "."%char.

(** The segments of a path: the pieces between slashes, empty ones included. *)
Fixpoint split_slash (s : string) : list string :=
  match s with
  | EmptyString => [EmptyString]
  | String c s' =>
      if Ascii.eqb c slash then EmptyString :: split_slash s'
      else match split_slash s' with
           | h :: t => String c h :: t
           | [] => [String c EmptyString]
           end
  end.

(** One segment of [normalizeString]; the segments kept so far are a stack,
    last segment first.  Empty and [.] segments vanish, [..] removes the last
    kept segment and, when nothing can be removed, is kept only in a relative
    path ([allowAboveRoot]). *)
Definition norm_step (allowAboveRoot : bool) (stack : list string)
    (seg : string) : list string :=
  if (seg =? "") || (seg =? ".") then stack
  else if seg =? ".." then
    match stack with
    | top :: rest =>
        if top =? ".." then (if allowAboveRoot then seg :: stack else stack)
        else rest
    | [] => if allowAboveRoot then [seg] else []
    end
  else seg :: stack.

Definition norm_segs (allowAboveRoot : bool) (segs : list string) : list string :=
  rev (fold_left (norm_step allowAboveRoot) segs []).

Definition isAbsolute (path : string) : bool := startsWith path "/".

(** [path.normalize] *)
Definition normalize (path : string) : string :=
  if path =? "" then "."
  else
    let trailingSeparator := endsWith path "/" in
    let p := String.concat "/" (norm_segs (negb (isAbsolute path)) (split_slash path)) in
    if p =? "" then
      (if isAbsolute path then "/" else if trailingSeparator then "./" else ".")
    else
      (if isAbsolute path then "/" else "")
      ++ p ++ (if trailingSeparator then "/" else "").

(** [path.join(a, b)]: the non-empty arguments, joined by a slash, normalized. *)
Definition joinPaths (a b : string) : string :=
  if a =? "" then (if b =? "" then "." else normalize b)
  else if b =? "" then normalize a
  else normalize (a ++ "/" ++ b).

(** The scan of [dirname], from the last character down to index 1:
    trailing slashes are skipped, then the last segment; the answer is the
    index of the slash before it. [r] holds the characters still to scan,
    last one first. *)
Fixpoint dirname_end (r : list ascii) (matchedSlash : bool) : option nat :=
  match r with
  | [] => None
  | c :: r' =>
      if Ascii.eqb c slash
      then (if matchedSlash then dirname_end r' true
            else Some (S (List.length r')))
      else dirname_end r' false
  end.

(** [path.posix.dirname] *)
Definition dirname (path : string) : string :=
  if path =? "" then "."
  else
    let hasRoot := isAbsolute path in
    match dirname_end (rev (list_ascii_of_string (drop 1 path))) true with
    | None => if hasRoot then "/" else "."
    | Some e => if hasRoot && (e =? 1)%nat then "//" else take e path
    end.

(* ================================================================== *)
(** * The world: a file system and the console *)
(* ================================================================== *)

(** Raw bytes ([Uint8Array]): a byte string. *)
Definition Uint8Array := string.

(** A finite byte stream: its chunks in order. *)
Definition ReadableStream := list Uint8Array.

Inductive node :=
| File (content : Uint8Array)
| Directory.

(** A location: whether the path is absolute, and its normalized segments
    (relative paths start at the working directory). *)
Definition loc : Type := bool * list string.

Definition locate (path : string) : loc :=
  (isAbsolute path, norm_segs (negb (isAbsolute path)) (split_slash path)).

Fixpoint segs_eqb (a b : list string) : bool :=
  match a, b with
  | [], [] => true
  | x :: a', y :: b' => (x =? y) && segs_eqb a' b'
  | _, _ => false
  end.

Definition loc_eqb (a b : loc) : bool :=
  Bool.eqb (fst a) (fst b) && segs_eqb (snd a) (snd b).

#[export] Instance loc_Key : Key loc := {| keqb := loc_eqb |}.

Definition filesystem := list (loc * node).

Record world := {
  fs : filesystem;
  console : list string
}.

Inductive errno := ENOENT | ENOTDIR | EEXIST | EISDIR.

(** What is thrown: an error of a file system call, an [Error] made by the
    library with its message, or the engine's [TypeError] for an operation
    on a value that does not admit it (its message is the engine's). *)
Inductive exn :=
| SystemError (code : errno)
| JsError (message : string)
| TypeError.

(** How a call ends: with a value, with an exception, or, for the copy loop
    only, with its fuel used up.  The world reached is kept in all three. *)
Inductive outcome (A : Type) :=
| Ok (a : A) (w : world)
| Throw (e : exn) (w : world)
| OutOfFuel (w : world).
Arguments Ok {A} a w.
Arguments Throw {A} e w.
Arguments OutOfFuel {A} w.

Definition M (A : Type) := world -> outcome A.

Definition ret {A} (a : A) : M A := fun w => Ok a w.
Definition throw {A} (e : exn) : M A := fun w => Throw e w.
Definition out_of_fuel {A} : M A := fun w => OutOfFuel w.

Definition bind {A B} (m : M A) (k : A -> M B) : M B :=
  fun w => match m w with
           | Ok a w' => k a w'
           | Throw e w' => Throw e w'
           | OutOfFuel w' => OutOfFuel w'
           end.

(** [try { m } catch (err) { handler err }] *)
Definition catch {A} (m : M A) (handler : exn -> M A) : M A :=
  fun w => match m w with
           | Throw e w' => handler e w'
           | r => r
           end.

Notation "x <- m ;; k" := (bind m (fun x => k))
  (at level 61, m at next level, right associativity).
Notation "m ;;; k" := (bind m (fun _ => k))
  (at level 61, right associativity).

(** [for (const x of xs) { body x }] *)
Fixpoint for_of {A} (xs : list A) (body : A -> M unit) : M unit :=
  match xs with
  | [] => ret tt
  | x :: xs' => body x ;;; for_of xs' body
  end.

Definition world_of {A} (r : outcome A) : world :=
  match r with Ok _ w | Throw _ w | OutOfFuel w => w end.

Definition console_log (line : string) : M unit :=
  fun w => Ok tt {| fs := fs w; console := (console w ++ [line])%list |}.

(** ** File system calls ([fs/promises] and [Bun]) *)

(** The working directory and the root always exist. *)
Definition fs_lookup (f : filesystem) (l : loc) : option node :=
  match snd l with
  | [] => Some Directory
  | _ => JsMap.get f l
  end.

Fixpoint inits {A} (l : list A) : list (list A) :=
  match l with
  | [] => [[]]
  | x :: l' => [] :: map (cons x) (inits l')
  end.

(** The directories above a location, outermost first. *)
Definition ancestors (l : loc) : list loc :=
  map (fun segs => (fst l, segs)) (removelast (inits (snd l))).

Definition isFile (n : node) : bool :=
  match n with File _ => true | Directory => false end.
Definition isDirectory (n : node) : bool :=
  match n with File _ => false | Directory => true end.

(** Why a lookup failed: a file on the way is [ENOTDIR], else [ENOENT]. *)
Definition missing (f : filesystem) (l : loc) : errno :=
  if existsb (fun a => match fs_lookup f a with
                       | Some (File _) => true
                       | _ => false
                       end) (ancestors l)
  then ENOTDIR else ENOENT.

Definition with_fs {A} (k : filesystem -> A + errno) : M A :=
  fun w => match k (fs w) with
           | inl a => Ok a w
           | inr e => Throw (SystemError e) w
           end.

Definition update_fs (k : filesystem -> filesystem + errno) : M unit :=
  fun w => match k (fs w) with
           | inl f => Ok tt {| fs := f; console := console w |}
           | inr e => Throw (SystemError e) w
           end.

(** What a path leads to.  The empty path leads nowhere, and a path with a
    trailing slash must lead to a directory. *)
Definition lookup_path (f : filesystem) (path : string) : node + errno :=
  if path =? "" then inr ENOENT
  else match fs_lookup f (locate path) with
       | Some (File c) => if endsWith path "/" then inr ENOTDIR else inl (File c)
       | Some Directory => inl Directory
       | None => inr (missing f (locate path))
       end.

(** [stat(path)] *)
Definition stat (path : string) : M node :=
  with_fs (fun f => lookup_path f path).

(** [exists(path)] *)
Definition exists_ (path : string) : M bool :=
  with_fs (fun f =>
    match lookup_path f path with
    | inl _ => inl true
    | inr _ => inl false
    end).

Fixpoint strip_prefix (p l : list string) : option (list string) :=
  match p, l with
  | [], _ => Some l
  | _ :: _, [] => None
  | x :: p', y :: l' => if x =? y then strip_prefix p' l' else None
  end.

(** The name of [k] inside directory [d], when [k] is an entry of [d]. *)
Definition child_name (d k : loc) : option string :=
  if Bool.eqb (fst d) (fst k) then
    match strip_prefix (snd d) (snd k) with
    | Some [name] => Some name
    | _ => None
    end
  else None.

(** [k] is [d] or lies below it. *)
Definition is_under (d k : loc) : bool :=
  Bool.eqb (fst d) (fst k)
  && match strip_prefix (snd d) (snd k) with Some _ => true | None => false end.

Fixpoint entries (f : filesystem) (d : loc) : list string :=
  match f with
  | [] => []
  | (k, _) :: f' =>
      match child_name d k with
      | Some name => name :: entries f' d
      | None => entries f' d
      end
  end.

(** [readdir(path)] *)
Definition readdir (path : string) : M (list string) :=
  with_fs (fun f =>
    match lookup_path f path with
    | inl Directory => inl (entries f (locate path))
    | inl (File _) => inr ENOTDIR
    | inr e => inr e
    end).

(** [rm(path, { recursive: true, force: true })] *)
Definition rm (path : string) : M unit :=
  update_fs (fun f =>
    if path =? "" then inl f
    else inl (filter (fun kv => negb (is_under (locate path) (fst kv))) f)).

(** Create the listed directories in turn; [last] is the error when the
    final one is a file, a file before it is [ENOTDIR]. *)
Fixpoint mkdirs (f : filesystem) (ls : list loc) (last : errno)
    : filesystem + errno :=
  match ls with
  | [] => inl f
  | l :: ls' =>
      match fs_lookup f l with
      | Some Directory => mkdirs f ls' last
      | Some (File _) => inr (match ls' with [] => last | _ => ENOTDIR end)
      | None => mkdirs (JsMap.set f l Directory) ls' last
      end
  end.

(** [mkdir(path, { recursive: true })] *)
Definition mkdir_recursive (path : string) : M unit :=
  update_fs (fun f =>
    if path =? "" then inr ENOENT
    else mkdirs f (ancestors (locate path) ++ [locate path])%list EEXIST).

Definition parent (l : loc) : loc := (fst l, removelast (snd l)).

(** [mkdir(path)] *)
Definition mkdir (path : string) : M unit :=
  update_fs (fun f =>
    if path =? "" then inr ENOENT
    else match fs_lookup f (locate path) with
         | Some _ => inr EEXIST
         | None =>
             match fs_lookup f (parent (locate path)) with
             | Some Directory => inl (JsMap.set f (locate path) Directory)
             | Some (File _) => inr ENOTDIR
             | None => inr (missing f (locate path))
             end
         end).

(** Reading [Bun.file(path)]. *)
Definition readFile (path : string) : M Uint8Array :=
  with_fs (fun f =>
    match lookup_path f path with
    | inl (File c) => inl c
    | inl Directory => inr EISDIR
    | inr e => inr e
    end).

(** [Bun.write(path, data)]: the file is created or replaced; missing
    directories above it are created.  A path with a trailing slash names
    a directory and cannot be written. *)
Definition writeFile (path : string) (data : Uint8Array) : M unit :=
  update_fs (fun f =>
    if path =? "" then inr ENOENT
    else if endsWith path "/" then inr EISDIR
    else match fs_lookup f (locate path) with
         | Some Directory => inr EISDIR
         | _ =>
             match mkdirs f (ancestors (locate path)) ENOTDIR with
             | inl f' => inl (JsMap.set f' (locate path) (File data))
             | inr e => inr e
             end
         end).

(* ================================================================== *)
(** * [TextDecoder('utf-8').decode] *)
(* ================================================================== *)

(** A decoded string is again held as UTF-8, so decoding copies every
    well-formed sequence and puts U+FFFD (bytes EF BF BD) for every
    ill-formed one, as the WHATWG decoder does; a call starts afresh (no
    [stream] option is passed) and drops one leading byte order mark. *)

Definition byte (n : nat) : ascii := ascii_of_nat n.

Definition replacement : string :=
  String (byte 239) (String (byte 191) (String (byte 189) EmptyString)).

Inductive lead :=
| Single
| Lead (needed lower upper : nat)
| Invalid.

(** The first byte of a sequence: how many bytes follow, and the range of
    the next one. *)
Definition classify (b : nat) : lead :=
  (if b <=? 127 then Single
   else if (194 <=? b) && (b <=? 223) then Lead 1 128 191
   else if (224 <=? b) && (b <=? 239) then
     Lead 2 (if b =? 224 then 160 else 128) (if b =? 237 then 159 else 191)
   else if (240 <=? b) && (b <=? 244) then
     Lead 3 (if b =? 240 then 144 else 128) (if b =? 244 then 143 else 191)
   else Invalid)%nat.

(** [st] is the sequence in progress: bytes still needed, the range of the
    next byte, and the bytes read so far. *)
Fixpoint utf8_run (bytes : Uint8Array)
    (st : option (nat * nat * nat * string)) : string :=
  match bytes with
  | EmptyString => match st with None => "" | Some _ => replacement end
  | String b rest =>
      let start :=
        match classify (nat_of_ascii b) with
        | Single => String b (utf8_run rest None)
        | Lead n lo hi => utf8_run rest (Some (n, lo, hi, String b ""))
        | Invalid => replacement ++ utf8_run rest None
        end in
      match st with
      | None => start
      | Some (n, lo, hi, seen) =>
          if ((lo <=? nat_of_ascii b) && (nat_of_ascii b <=? hi))%nat then
            match n with
            | S (S n') => utf8_run rest (Some (S n', 128, 191, seen ++ String b ""))
            | _ => seen ++ String b (utf8_run rest None)
            end
          else replacement ++ start
      end
  end.

Definition is_bom (b1 b2 b3 : ascii) : bool :=
  ((nat_of_ascii b1 =? 239) && (nat_of_ascii b2 =? 187)
   && (nat_of_ascii b3 =? 191))%nat.

Definition decode (chunk : Uint8Array) : string :=
  match chunk with
  | String b1 (String b2 (String b3 rest)) =>
      if is_bom b1 b2 b3 then utf8_run rest None else utf8_run chunk None
  | _ => utf8_run chunk None
  end.

(* ================================================================== *)
(** * Render results and renderers *)
(* ================================================================== *)

(** React is outside the library: an element stands for the chunks that
    [renderToReadableStream] yields for it. *)
Record JSXElement := { markup : ReadableStream }.

Definition renderToReadableStream (element : JSXElement) : ReadableStream :=
  markup element.

(** [for await (const part of stream) res += streamDecoder.decode(part)] *)
Fixpoint decode_chunks (stream : ReadableStream) : string :=
  match stream with
  | [] => ""
  | part :: rest => decode part ++ decode_chunks rest
  end.

Definition renderToString (element : JSXElement) : string :=
  decode_chunks (renderToReadableStream element).

(** What a renderer hands back at run time (the declared type is not
    checked when the code runs).  [RNull] is [null]; [ROther] is any other
    value of another shape: a number, [undefined], an object that lacks one
    of the keys of an element. *)
Inductive RenderResult :=
| RString (s : string)
| RUint8Array (b : Uint8Array)
| RStream (stream : ReadableStream)
| RJsx (element : JSXElement)
| RNull
| ROther.

(** A renderer takes no argument; it answers a result or throws. *)
Definition Renderer := unit -> RenderResult + exn.

Definition call (r : Renderer) : M RenderResult :=
  fun w => match r tt with
           | inl v => Ok v w
           | inr e => Throw e w
           end.

(** The promise of a call that answers or throws, awaited. *)
Definition settle {A} (r : A + exn) : M A :=
  fun w => match r with
           | inl a => Ok a w
           | inr e => Throw e w
           end.

(** [typeof obj === 'object' && 'type' in obj && 'props' in obj &&
    'key' in obj]: [null] is of type [object], and [in] throws on it. *)
Definition isObjectJsxElement (obj : RenderResult) : bool + exn :=
  match obj with
  | RJsx _ => inl true
  | RNull => inr TypeError
  | _ => inl false
  end.

(** The default export of a module: a function, or an object whose
    [default] property is the result. *)
Inductive ModuleDefault :=
| DefaultFunction (f : Renderer)
| DefaultObject (default : RenderResult).

(** A body given to [new Response]: a render result that is not an element,
    or a file on disk ([Bun.file]). *)
Inductive ResponseBody :=
| BString (s : string)
| BUint8Array (b : Uint8Array)
| BStream (stream : ReadableStream)
| BOther
| BunFile (path : string).

Record Response := {
  status : Z;
  body : ResponseBody
}.

(** An element is rendered to its stream; any other value is handed on as
    it is.  The test for an element comes first, and throws on [null]. *)
Definition toResponseBody (renderResult : RenderResult) : ResponseBody + exn :=
  match isObjectJsxElement renderResult with
  | inr e => inr e
  | inl _ =>
      inl match renderResult with
          | RJsx element => BStream (renderToReadableStream element)
          | RString s => BString s
          | RUint8Array b => BUint8Array b
          | RStream stream => BStream stream
          | RNull | ROther => BOther
          end
  end.

(* ================================================================== *)
(** * SiteGenerator *)
(* ================================================================== *)

Record SiteGenerator := {
  routes : list (string * Renderer);
  staticMappings : list (string * string);
  indexFilename : string;
  notFoundFilename : string
}.

Definition new_SiteGenerator : SiteGenerator :=
  {| routes := [];
     staticMappings := [];
     indexFilename := "index.html";
     notFoundFilename := "404.html" |}.

Definition with_routes (g : SiteGenerator) (rs : list (string * Renderer)) :=
  {| routes := rs;
     staticMappings := staticMappings g;
     indexFilename := indexFilename g;
     notFoundFilename := notFoundFilename g |}.

Definition setIndexFilename (g : SiteGenerator) (filename : string) :=
  {| routes := routes g;
     staticMappings := staticMappings g;
     indexFilename := filename;
     notFoundFilename := notFoundFilename g |}.

Definition setNotFoundFilename (g : SiteGenerator) (filename : string) :=
  {| routes := routes g;
     staticMappings := staticMappings g;
     indexFilename := indexFilename g;
     notFoundFilename := filename |}.

Section Registration.
(** [import(modulePath)]: the default export of the module found there. *)
Variable dynamic_import : string -> ModuleDefault + exn.

Definition moduleRenderer (modulePath : string) : Renderer :=
  fun _ =>
    match dynamic_import modulePath with
    | inl (DefaultFunction f) => f tt
    | inl (DefaultObject d) => inl d
    | inr e => inr e
    end.

(** A renderer argument is a function or a module path. *)
Definition as_renderer (renderer : Renderer + string) : Renderer :=
  match renderer with
  | inl r => r
  | inr modulePath => moduleRenderer modulePath
  end.

Definition setRoute (g : SiteGenerator) (route : string)
    (renderer : Renderer + string) : SiteGenerator :=
  with_routes g (JsMap.set (routes g) route (as_renderer renderer)).

Definition setNotFound (g : SiteGenerator)
    (renderer : Renderer + string) : SiteGenerator :=
  let route := "/" ++ notFoundFilename g in
  with_routes g (JsMap.set (routes g) route (as_renderer renderer)).
End Registration.

(** How a call on the generator ends: it returns (the generator is then
    as the call left it), or it throws; the generator reached is kept in
    both cases. *)
Inductive called :=
| Returned (g : SiteGenerator)
| Threw (e : exn) (g : SiteGenerator).

(** The double quote character, for the messages of [mapStatic]. *)
Definition dquote : string := String (ascii_of_nat 34) EmptyString.

Definition mapStatic (g : SiteGenerator) (route directory : string) : called :=
  if negb (startsWith route "/") then
    Threw (JsError ("Static routes must begin with an initial slash (using "
                    ++ dquote ++ "/ is valid for root)")) g
  else if negb (endsWith route "/") then
    Threw (JsError ("Static routes must end with a trailing slash (using "
                    ++ dquote ++ "/" ++ dquote ++ " is valid for root)")) g
  else
    Returned {| routes := routes g;
                staticMappings := JsMap.set (staticMappings g) route directory;
                indexFilename := indexFilename g;
                notFoundFilename := notFoundFilename g |}.

(** ** The request handler *)

(** [req.url.substring(req.url.indexOf('/', 8))]: the URL from the first
    slash after the scheme. *)
Definition request_path (url : string) : string :=
  substring url (indexOf url "/" 8) None.

(** The routes tried for a path, in order. *)
Definition route_candidates (g : SiteGenerator) (path : string) : list string :=
  path :: (path ++ "/")
  :: (if endsWith path ("/" ++ indexFilename g)
      then [substring path 0 (Some (strlen path - strlen (indexFilename g))%Z)]
      else []).

(** The loop over the candidates: the first registered one wins. *)
Fixpoint find_renderer (rs : list (string * Renderer))
    (candidates : list string) : option Renderer :=
  match candidates with
  | [] => None
  | route :: rest =>
      match JsMap.get rs route with
      | Some renderer => Some renderer
      | None => find_renderer rs rest
      end
  end.

Definition resolve (g : SiteGenerator) (path : string) : option Renderer :=
  find_renderer (routes g) (route_candidates g path).

Definition starts_two_dots (s : string) : bool :=
  match s with
  | String c (String d _) => Ascii.eqb c dot && Ascii.eqb d dot
  | _ => false
  end.

Definition starts_dot (s : string) : bool :=
  match s with
  | String c _ => Ascii.eqb c dot
  | EmptyString => false
  end.

(** [s.replace(/\/\.{2,}/g, '')]: one pass from the left; a slash followed
    by two dots or more is deleted together with all the dots after it.
    [skipping] holds while the dots of a match are being passed over. *)
Fixpoint replace_slash_dots_from (skipping : bool) (s : string) : string :=
  match s with
  | EmptyString => EmptyString
  | String c s' =>
      if skipping && Ascii.eqb c dot then replace_slash_dots_from true s'
      else if Ascii.eqb c slash && starts_two_dots s'
      then replace_slash_dots_from true s'
      else String c (replace_slash_dots_from false s')
  end.

Definition replace_slash_dots (s : string) : string :=
  replace_slash_dots_from false s.

(** "Basic path sanitization" of the part of the path after the prefix. *)
Definition sanitize (route path : string) : string :=
  let dirPath := substring path (strlen route) None in
  let dirPath := if startsWith dirPath "/" then dirPath else "/" ++ dirPath in
  replace_slash_dots dirPath.

Definition is_ENOENT (err : exn) : bool :=
  match err with SystemError ENOENT => true | _ => false end.

(** The loop over the static mappings; [None] when it ends without an
    answer. *)
Fixpoint serve_static (mappings : list (string * string)) (path : string)
    : M (option Response) :=
  match mappings with
  | [] => ret None
  | (route, staticDir) :: rest =>
      if startsWith path route then
        let filePath := joinPaths staticDir (sanitize route path) in
        found <- catch
                   (fileInfo <- stat filePath ;;
                    if negb (isFile fileInfo) then ret None
                    else ret (Some {| status := 200; body := BunFile filePath |}))
                   (fun err => if is_ENOENT err then ret None else throw err) ;;
        match found with
        | Some response => ret (Some response)
        | None => serve_static rest path
        end
      else serve_static rest path
  end.

Definition no_route_message : string :=
  "No route was found, and no 404 page was found either".

Definition reqHandler (g : SiteGenerator) (url : string) : M Response :=
  let path := request_path url in
  match resolve g path with
  | None =>
      found <- serve_static (staticMappings g) path ;;
      match found with
      | Some response => ret response
      | None =>
          match JsMap.get (routes g) ("/" ++ notFoundFilename g) with
          | None => ret {| status := 404; body := BString no_route_message |}
          | Some notFoundRenderer =>
              result <- call notFoundRenderer ;;
              body <- settle (toResponseBody result) ;;
              ret {| status := 404; body := body |}
          end
      end
  | Some renderer =>
      result <- call renderer ;;
      body <- settle (toResponseBody result) ;;
      ret {| status := 200; body := body |}
  end.

(** ** copyRecursive *)

(** [Bun.write(target, Bun.file(source))]: the target is opened for
    writing, and so emptied, before the source is read; a file written onto
    itself is left empty. *)
Definition writeFileFrom (target source : string) : M unit :=
  data <- readFile source ;;
  writeFile target
    (if loc_eqb (locate source) (locate target) then "" else data).

(** One child of the directory being listed: a directory is created in the
    target and queued, a file is copied. *)
Definition copy_child (source target path : string) (paths : list string)
    (file : string) : M (list string) :=
  let childPath := joinPaths path file in
  let realPath := joinPaths source childPath in
  let targetPath := joinPaths target childPath in
  info <- stat realPath ;;
  if isDirectory info then
    mkdir targetPath ;;; ret (paths ++ [childPath])%list
  else
    writeFileFrom targetPath realPath ;;; ret paths.

Fixpoint copy_children (source target path : string) (files : list string)
    (paths : list string) : M (list string) :=
  match files with
  | [] => ret paths
  | file :: rest =>
      paths' <- copy_child source target path paths file ;;
      copy_children source target path rest paths'
  end.

(** [while (paths.length > 0)]: one unit of fuel per directory listed. *)
Fixpoint copy_loop (fuel : nat) (source target : string) (paths : list string)
    : M unit :=
  match paths with
  | [] => ret tt
  | path :: rest =>
      match fuel with
      | O => out_of_fuel
      | S fuel' =>
          files <- readdir (joinPaths source path) ;;
          paths' <- copy_children source target path files rest ;;
          copy_loop fuel' source target paths'
      end
  end.

Definition copyRecursive (fuel : nat) (source target : string) : M unit :=
  info <- stat source ;;
  if negb (isDirectory info) then
    writeFileFrom target source
  else
    targetStat <- catch (info' <- stat target ;; ret (Some info'))
                    (fun err => if is_ENOENT err
                                then mkdir_recursive target ;;; ret None
                                else throw err) ;;
    match targetStat with
    | Some info' =>
        if negb (isDirectory info') then
          throw (JsError ("Cannot copy from source " ++ source
                          ++ " to non-directory target " ++ target))
        else copy_loop fuel source target [""]
    | None => copy_loop fuel source target [""]
    end.

(** ** build *)

Definition invalid_render_message : string :=
  "Invalid render result. Must be one of the following types: string, Uint8Array, ReadableStream, or JSX.Element.".

(** The value [res] written for a render result: text or bytes. *)
Definition render_data (render : RenderResult) : M (string + Uint8Array) :=
  match render with
  | RString s => ret (inl s)
  | _ =>
      isElement <- settle (isObjectJsxElement render) ;;
      match render with
      | RJsx element => ret (inl (renderToString element))
      | RStream stream => ret (inl (decode_chunks stream))
      | RUint8Array b => ret (inr b)
      | _ => throw (JsError invalid_render_message)
      end
  end.

(** The bytes [Bun.write] puts on disk for [res]: a string goes out in
    UTF-8, which is how it is held. *)
Definition data_bytes (res : string + Uint8Array) : Uint8Array :=
  match res with
  | inl s => s
  | inr b => b
  end.

Definition out_file (g : SiteGenerator) (outDir route : string) : string :=
  let outFile := joinPaths outDir route in
  if endsWith outFile "/" then outFile ++ indexFilename g else outFile.

Definition prepare_out_dir (outDir : string) (clearOutDir : bool) : M unit :=
  outDirExists <- exists_ outDir ;;
  if outDirExists then
    if clearOutDir then
      files <- readdir outDir ;;
      for_of files (fun file => rm (joinPaths outDir file))
    else ret tt
  else mkdir_recursive outDir.

(** The three messages of [build]. *)
Definition mapping_line (mapping : string * string) : string :=
  "Mapping " ++ snd mapping ++ " to " ++ fst mapping ++ "...".

Definition rendering_line (g : SiteGenerator) (outDir : string)
    (entry : string * Renderer) : string :=
  "Rendering " ++ out_file g outDir (fst entry) ++ "...".

Definition done_line (outDir : string) : string :=
  "Done. Rendered site is available in '" ++ outDir ++ "'.".

Definition copy_static (fuel : nat) (outDir : string)
    (mapping : string * string) : M unit :=
  let (route, staticDir) := mapping in
  let copyDir := joinPaths outDir route in
  console_log (mapping_line (route, staticDir)) ;;;
  copyRecursive fuel staticDir copyDir.

Definition render_route (g : SiteGenerator) (outDir : string)
    (entry : string * Renderer) : M unit :=
  let (route, renderer) := entry in
  render <- call renderer ;;
  res <- render_data render ;;
  let outFile := out_file g outDir route in
  console_log (rendering_line g outDir (route, renderer)) ;;;
  mkdir_recursive (dirname outFile) ;;;
  writeFile outFile (data_bytes res).

Definition build (fuel : nat) (g : SiteGenerator) (outDir : string)
    (clearOutDir : bool) : M unit :=
  prepare_out_dir outDir clearOutDir ;;;
  for_of (staticMappings g) (copy_static fuel outDir) ;;;
  for_of (routes g) (render_route g outDir) ;;;
  console_log (done_line outDir).

(* ================================================================== *)
(** * Vocabulary of the statements *)
(* ================================================================== *)

Fixpoint has_slash (s : string) : bool :=
  match s with
  | EmptyString => false
  | String c s' => Ascii.eqb c slash || has_slash s'
  end.

(** [n] dots. *)
Fixpoint dots (n : nat) : string :=
  match n with
  | O => EmptyString
  | S n' => String dot (dots n')
  end.

(** The pattern of the traversal guard occurs in [s]: a slash directly
    followed by two dots. *)
Fixpoint contains_slash_dots (s : string) : bool :=
  match s with
  | EmptyString => false
  | String c s' =>
      (Ascii.eqb c slash && starts_two_dots s') || contains_slash_dots s'
  end.

(** Every byte is below 128. *)
Fixpoint all_ascii (s : string) : bool :=
  match s with
  | EmptyString => true
  | String c s' => (nat_of_ascii c <=? 127)%nat && all_ascii s'
  end.

(** A call that writes nothing on the console, however it ends. *)
Definition quiet {A} (m : M A) : Prop :=
  forall w, console (world_of (m w)) = console w.

Definition is_ok {A} (r : outcome A) : bool :=
  match r with Ok _ _ => true | _ => false end.

(** A segment that normalization keeps as a name. *)
Definition plain (seg : string) : Prop :=
  seg <> "" /\ seg <> "." /\ seg <> "..".

(** The kept segments, last first: names above a run of [..], the run
    being empty in an absolute path. *)
Definition normal_stack (allowAboveRoot : bool) (stack : list string) : Prop :=
  exists names ups,
    stack = (names ++ ups)%list
    /\ Forall plain names
    /\ Forall (fun seg => seg = "..") ups
    /\ (allowAboveRoot = false -> ups = []).

(** A step that writes one line, between two quiet parts: either it fails
    before the line, or the line is the one thing written. *)
Definition writes_line (m : M unit) (line : string) : Prop :=
  forall w,
    (console (world_of (m w)) = console w /\ is_ok (m w) = false)
    \/ console (world_of (m w)) = (console w ++ [line])%list.

(** [file] denotes a location inside (or equal to) the one [dir] denotes:
    both paths are absolute or both relative, and the normalized segments
    of [file] are those of [dir] followed by names only, so that no step
    of the way from [dir] to [file] goes up. *)
Definition lexically_within (dir file : string) : Prop :=
  fst (locate file) = fst (locate dir)
  /\ exists rest,
       snd (locate file) = (snd (locate dir) ++ rest)%list
       /\ Forall plain rest.

(* ================================================================== *)
(** * Sample sites *)
(* ================================================================== *)

(** A renderer that answers a fixed text. *)
Definition page (text : string) : Renderer := fun _ => inl (RString text).

(** No module can be imported. *)
Definition no_modules : string -> ModuleDefault + exn :=
  fun _ => inr (JsError "Cannot find module").

Definition empty_world : world := {| fs := []; console := [] |}.

(** A static directory with an index file, mapped at the root, and a page
    at the root. *)
Definition overlay_site : SiteGenerator :=
  {| routes := [("/", page "PAGE")];
     staticMappings := [("/", "static")];
     indexFilename := "index.html";
     notFoundFilename := "404.html" |}.

Definition overlay_world : world :=
  {| fs := [((false, ["static"]), Directory);
            ((false, ["static"; "index.html"]), File "STATIC")];
     console := [] |}.

(** The same static directory with a style sheet beside the index file. *)
Definition styled_world : world :=
  {| fs := [((false, ["static"]), Directory);
            ((false, ["static"; "index.html"]), File "STATIC");
            ((false, ["static"; "style.css"]), File "CSS")];
     console := [] |}.

(** Two pages, one of them in a sub-directory. *)
Definition two_pages : SiteGenerator :=
  {| routes := [("/", page "A"); ("/sub/", page "B")];
     staticMappings := [];
     indexFilename := "index.html";
     notFoundFilename := "404.html" |}.

(** The two bytes of U+00E9 in UTF-8 (C3 A9), one per chunk. *)
Definition split_e_acute : ReadableStream :=
  [String (byte 195) ""; String (byte 169) ""].

(** The bytes of a stream, chunk after chunk. *)
Definition stream_bytes (stream : ReadableStream) : Uint8Array :=
  String.concat "" stream.

Definition streamed_site (stream : ReadableStream) : SiteGenerator :=
  {| routes := [("/", fun _ => inl (RStream stream))];
     staticMappings := [];
     indexFilename := "index.html";
     notFoundFilename := "404.html" |}.

(** A page whose renderer answers a value of no recognized type, followed
    by an ordinary page. *)
Definition unrecognized_site : SiteGenerator :=
  {| routes := [("/", fun _ => inl ROther); ("/b", page "B")];
     staticMappings := [];
     indexFilename := "index.html";
     notFoundFilename := "404.html" |}.

(* ================================================================== *)
(** * The rest of the library *)
(* ================================================================== *)

(** ** The draft of the class *)

(** The request handler of the draft at the head of the source file: the
    same candidates and the same fallback, no static mappings. *)
Definition reqHandler_draft (g : SiteGenerator) (url : string) : M Response :=
  let path := request_path url in
  match resolve g path with
  | None =>
      match JsMap.get (routes g) ("/" ++ notFoundFilename g) with
      | None => ret {| status := 404; body := BString no_route_message |}
      | Some notFoundRenderer =>
          result <- call notFoundRenderer ;;
          body <- settle (toResponseBody result) ;;
          ret {| status := 404; body := body |}
      end
  | Some renderer =>
      result <- call renderer ;;
      body <- settle (toResponseBody result) ;;
      ret {| status := 200; body := body |}
  end.

(** ** ParsedArgs: numeric options *)

(** A Number: a literal of the source, or the answer of [parseInt] or
    [parseFloat] on a string, which is left as the call it is. *)
Inductive number :=
| Literal (z : Z)
| ParseInt (val : string) (radix : Z)
| ParseFloat (val : string).

(** [undefined] is the outer [None], [null] the inner one. *)
Definition getOptionInt (p : ParsedArgs) (arg : string) (radix : Z)
    : option (option number) :=
  match JsMap.get (options p) arg with
  | Some (Some val) => Some (Some (ParseInt val radix))
  | Some None => Some None
  | None => None
  end.

Definition getOptionIntOr {T} (p : ParsedArgs) (arg : string)
    (defaultValue : T) (radix : Z) : number + T :=
  match JsMap.get (options p) arg with
  | Some (Some val) => inl (ParseInt val radix)
  | _ => inr defaultValue
  end.

Definition getOptionFloat (p : ParsedArgs) (arg : string)
    : option (option number) :=
  match JsMap.get (options p) arg with
  | Some (Some val) => Some (Some (ParseFloat val))
  | Some None => Some None
  | None => None
  end.

Definition getOptionFloatOr {T} (p : ParsedArgs) (arg : string)
    (defaultValue : T) : number + T :=
  match JsMap.get (options p) arg with
  | Some (Some val) => inl (ParseFloat val)
  | _ => inr defaultValue
  end.

(** ** The command line *)

Definition tab : string := String (ascii_of_nat 9) EmptyString.
Definition newline : string := String (ascii_of_nat 10) EmptyString.

(** [getHelpString(scriptName)]: the template, trimmed. *)
Definition getHelpString (scriptName : string) : string :=
  String.concat newline
    [ "Usage: " ++ scriptName ++ " <command> [options]";
      "";
      "Options:";
      tab ++ "build - Builds the site into a directory";
      tab ++ tab ++ "--out=<dir> - The directory to build the site into (defaults to "
        ++ dquote ++ "dist" ++ dquote ++ ")";
      tab ++ tab ++ "--clear-out=<true|false> - Whether to delete the contents of the output directory before building (defaults to true)";
      "";
      tab ++ "serve - Starts a local development webserver for the site";
      tab ++ tab ++ "--host=<host> - The hostname to run on (defaults to "
        ++ dquote ++ "127.0.0.1" ++ dquote ++ ")";
      tab ++ tab ++ "--port=<port> - The port to run on (defaults to 3000)";
      "";
      tab ++ "help - Prints this message" ].

(** What goes to the terminal besides [console.log]. *)
Inductive terminal_event :=
| Cleared
| Warned (line : string)
| Errored (line : string).

(** How a call of [cli] leaves the process: exited with a code, listening
    (the server started by [serve] keeps the process alive), or with the
    promise of [cli] rejected. *)
Inductive process_end :=
| Exited (code : Z) (terminal : list terminal_event) (w : world)
| Listening (port : number) (hostname : string)
    (terminal : list terminal_event) (w : world)
| Rejected (e : exn) (terminal : list terminal_event) (w : world)
| Starved (w : world).

Definition serve_warnings : list terminal_event :=
  [ Cleared;
    Warned "Warning: This is not a production webserver, it is meant for debugging only.";
    Warned ("Warning: For a production deployment, use the " ++ dquote ++ "build"
            ++ dquote ++ " command and place the built files in a directory accessible to your webserver");
    Warned ("Note: You can enable hot code reloading by using Bun's " ++ dquote
            ++ "--hot" ++ dquote ++ " option.") ].

Section CommandLine.
(** The text of a Number in a template string. *)
Variable number_text : number -> string.
(** [Bun.serve] on a port and a host name: the error it throws, if any
    (a port that is no port, an address in use). *)
Variable Bun_serve : number -> string -> option exn.

(** [serve(port, hostname, silent)]: the listener is started by [Bun.serve]
    with [reqHandler] as its handler; the one thing left in the world is
    the line on the console. *)
Definition serve (g : SiteGenerator) (port : number) (hostname : string)
    (silent : bool) : M unit :=
  match Bun_serve port hostname with
  | Some e => throw e
  | None =>
      if negb silent
      then console_log ("Listening on " ++ hostname ++ ":" ++ number_text port)
      else ret tt
  end.

Definition port_of (p : number + Z) : number :=
  match p with
  | inl n => n
  | inr z => Literal z
  end.

(** [cli(parsedArgs)]; [scriptName] is [basename(process.argv[1])]. *)
Definition cli (fuel : nat) (g : SiteGenerator) (scriptName : string)
    (parsedArgs : ParsedArgs) (w : world) : process_end :=
  if includes (args parsedArgs) "build" then
    let outDir := getOptionOr parsedArgs "out" "dist" in
    let clearOutDir := isOptionTrue parsedArgs "clear-out" true
                         default_trueValues false in
    match build fuel g outDir clearOutDir w with
    | Ok _ w' => Exited 0 [] w'
    | Throw e w' => Rejected e [] w'
    | OutOfFuel w' => Starved w'
    end
  else if includes (args parsedArgs) "serve" then
    let host := getOptionOr parsedArgs "host" "127.0.0.1" in
    let port := port_of (getOptionIntOr parsedArgs "port" 3000%Z 10) in
    match serve g port host false w with
    | Ok _ w' => Listening port host serve_warnings w'
    | Throw e w' => Rejected e serve_warnings w'
    | OutOfFuel w' => Starved w'
    end
  else Exited 1 [Errored (getHelpString scriptName)] w.
End CommandLine.

(* ================================================================== *)
(** * More vocabulary *)
(* ================================================================== *)

(** Nothing is removed from [w] to [w']: every location that holds a node
    still holds one of the same kind. *)
Definition nothing_removed (w w' : world) : Prop :=
  forall L n,
    fs_lookup (fs w) L = Some n ->
    exists n', fs_lookup (fs w') L = Some n'
               /\ isDirectory n' = isDirectory n.

(** A generator set up by the registration calls alone. *)
Inductive configured : SiteGenerator -> Prop :=
| configured_new : configured new_SiteGenerator
| configured_index g filename :
    configured g -> configured (setIndexFilename g filename)
| configured_notFoundFilename g filename :
    configured g -> configured (setNotFoundFilename g filename)
| configured_route imp g route renderer :
    configured g -> configured (setRoute imp g route renderer)
| configured_notFound imp g renderer :
    configured g -> configured (setNotFound imp g renderer)
| configured_static g route directory g' :
    configured g -> mapStatic g route directory = Returned g' ->
    configured g'.

(** The end of a request answered by a renderer with a given status: its
    normalized output (a string, a byte array and a stream as they are, an
    element as the stream it renders to), or its error; on [null] the test
    for an element throws. *)
Definition rendered_response (status : Z) (answer : RenderResult + exn)
    (w : world) : outcome Response :=
  match answer with
  | inl (RString s) => Ok {| status := status; body := BString s |} w
  | inl (RUint8Array b) => Ok {| status := status; body := BUint8Array b |} w
  | inl (RStream stream) => Ok {| status := status; body := BStream stream |} w
  | inl (RJsx element) =>
      Ok {| status := status;
            body := BStream (renderToReadableStream element) |} w
  | inl ROther => Ok {| status := status; body := BOther |} w
  | inl RNull => Throw TypeError w
  | inr e => Throw e w
  end.

(** The world a call of [cli] leaves. *)
Definition end_world (p : process_end) : world :=
  match p with
  | Exited _ _ w | Listening _ _ _ w | Rejected _ _ w | Starved w => w
  end.

(** A call that removes nothing, however it ends. *)
Definition removes_nothing {A} (m : M A) : Prop :=
  forall w, nothing_removed w (world_of (m w)).

(** The name of a directory entry: a plain segment without a slash. *)
Definition entry_name (name : string) : Prop :=
  plain name /\ has_slash name = false.

(** A call ends well with [P], or with an error of the file system; it
    does not run out of fuel. *)
Definition clean_end {A} (P : A -> world -> Prop) (r : outcome A) : Prop :=
  match r with
  | Ok a w' => P a w'
  | Throw e _ => exists code, e = SystemError code
  | OutOfFuel _ => False
  end.

(** The files listed in [source] when a copy starts (in world [w0]) hold in
    [w] the content they had. *)
Definition originals_kept (source : string) (w0 w : world) : Prop :=
  forall name c,
    In name (entries (fs w0) (locate source)) ->
    fs_lookup (fs w0) (locate (joinPaths source name)) = Some (File c) ->
    fs_lookup (fs w) (locate (joinPaths source name)) = Some (File c).

(** The files named in [done] have their copy in [target]. *)
Definition copied (source target : string) (done : list string)
    (w0 w : world) : Prop :=
  forall name c,
    In name done ->
    fs_lookup (fs w0) (locate (joinPaths source name)) = Some (File c) ->
    fs_lookup (fs w) (locate (joinPaths target name)) = Some (File c).

(** The UTF-8 byte order mark (EF BB BF). *)
Definition byte_order_mark : string :=
  String (byte 239) (String (byte 187) (String (byte 191) EmptyString)).

(* ================================================================== *)
(** * More sample sites *)
(* ================================================================== *)

(** Two static directories, the second mapped at the root, and no page. *)
Definition assets_site : SiteGenerator :=
  {| routes := [];
     staticMappings := [("/assets/", "assets"); ("/", "public")];
     indexFilename := "index.html";
     notFoundFilename := "404.html" |}.

Definition assets_world : world :=
  {| fs := [((false, ["assets"]), Directory);
            ((false, ["assets"; "logo.png"]), File "PNG");
            ((false, ["public"]), Directory);
            ((false, ["public"; "robots.txt"]), File "TXT");
            ((false, ["public"; "assets"]), Directory);
            ((false, ["public"; "assets"; "logo.png"]), File "OTHER");
            ((false, ["public"; "assets"; "extra.css"]), File "CSS")];
     console := [] |}.

(** An output directory left by an earlier build, with a file no page
    writes any more. *)
Definition rebuilt_world : world :=
  {| fs := [((false, ["dist"]), Directory);
            ((false, ["dist"; "index.html"]), File "OLD");
            ((false, ["dist"; "old.html"]), File "STALE")];
     console := [] |}.

(** The static directory of [assets_site] next to an output directory
    that an earlier copy has filled. *)
Definition recopied_world : world :=
  {| fs := (fs assets_world
            ++ [((false, ["dist"]), Directory);
                ((false, ["dist"; "robots.txt"]), File "TXT");
                ((false, ["dist"; "assets"]), Directory)])%list;
     console := [] |}.

(* ================================================================== *)
(** * Strings: basic facts *)
(* ================================================================== *)

Lemma app_empty_r (s : string) : s ++ "" = s.
Proof. induction s; simpl; congruence. Qed.

Lemma app_assoc_s (a b c : string) : (a ++ b) ++ c = a ++ b ++ c.
Proof. induction a; simpl; congruence. Qed.

Lemma length_app (a b : string) :
  String.length (a ++ b) = String.length a + String.length b.
Proof. induction a; simpl; congruence. Qed.

Lemma drop_app (p t : string) : drop (String.length p) (p ++ t) = t.
Proof. induction p; simpl; auto. Qed.

Lemma take_app (p t : string) : take (String.length p) (p ++ t) = p.
Proof. induction p; simpl; congruence. Qed.

Lemma take_all (s : string) : take (String.length s) s = s.
Proof. induction s; simpl; congruence. Qed.

Lemma drop_0 (s : string) : drop 0 s = s.
Proof. destruct s; reflexivity. Qed.

Lemma startsWith_app (p t : string) : startsWith (p ++ t) p = true.
Proof.
  induction p as [|c p IH]; simpl; [reflexivity|].
  now rewrite Ascii.eqb_refl.
Qed.

Lemma startsWith_iff (s p : string) :
  startsWith s p = true <-> exists t, s = p ++ t.
Proof.
  split.
  - revert s; induction p as [|c p IH]; intros s Hs; simpl in *.
    + now exists s.
    + destruct s as [|d s]; [discriminate|].
      apply andb_true_iff in Hs as [Hc Hs].
      apply Ascii.eqb_eq in Hc; subst d.
      destruct (IH _ Hs) as [t ->]. now exists t.
  - intros [t ->]. apply startsWith_app.
Qed.

Lemma endsWith_app (t p : string) : endsWith (t ++ p) p = true.
Proof.
  unfold endsWith. rewrite length_app.
  replace (String.length t + String.length p - String.length p)
    with (String.length t) by lia.
  rewrite drop_app, String.eqb_refl, andb_true_r.
  apply Nat.leb_le; lia.
Qed.

Lemma take_drop (n : nat) (s : string) : take n s ++ drop n s = s.
Proof.
  revert s; induction n as [|n IH]; intros [|c s]; simpl; auto.
  now rewrite IH.
Qed.

Lemma endsWith_iff (s p : string) :
  endsWith s p = true <-> exists t, s = t ++ p.
Proof.
  split.
  - unfold endsWith; intros H.
    apply andb_true_iff in H as [_ H]. apply String.eqb_eq in H.
    exists (take (String.length s - String.length p) s).
    rewrite <- H at 2. symmetry; apply take_drop.
  - intros [t ->]. apply endsWith_app.
Qed.

Lemma clamp_length (s : string) : clamp s (strlen s) = String.length s.
Proof. unfold clamp, strlen. lia. Qed.

Lemma clamp_nat (s : string) (n : nat) :
  n <= String.length s -> clamp s (Z.of_nat n) = n.
Proof. unfold clamp, strlen. lia. Qed.

(** [s.substring(p.length)] removes a prefix. *)
Lemma substring_drop_prefix (p t : string) :
  substring (p ++ t) (strlen p) None = t.
Proof.
  unfold substring.
  replace (clamp (p ++ t) (strlen p)) with (String.length p)
    by (unfold clamp, strlen; rewrite length_app; lia).
  rewrite length_app.
  rewrite Nat.min_l, Nat.max_r by lia.
  rewrite drop_app.
  replace (String.length p + String.length t - String.length p)
    with (String.length t) by lia.
  apply take_all.
Qed.

(** [s.substring(0, s.length - p.length)] removes a suffix. *)
Lemma substring_drop_suffix (t p : string) :
  substring (t ++ p) 0 (Some (strlen (t ++ p) - strlen p)%Z) = t.
Proof.
  unfold substring.
  replace (clamp (t ++ p) 0) with 0 by (unfold clamp, strlen; lia).
  replace (clamp (t ++ p) (strlen (t ++ p) - strlen p)) with (String.length t)
    by (unfold clamp, strlen; rewrite length_app; lia).
  rewrite Nat.min_l, Nat.max_r by lia.
  rewrite drop_0, Nat.sub_0_r. apply take_app.
Qed.

(* ================================================================== *)
(** * Maps: lookup after update *)
(* ================================================================== *)

#[export] Instance string_KeyLaws : KeyLaws string.
Proof. constructor. exact String.eqb_eq. Qed.

Lemma segs_eqb_eq (a b : list string) : segs_eqb a b = true <-> a = b.
Proof.
  revert b; induction a as [|x a IH]; intros [|y b]; simpl;
    try (split; discriminate); try tauto.
  rewrite andb_true_iff, String.eqb_eq, IH.
  split; [intros [-> ->]; reflexivity | intros E; injection E; auto].
Qed.

#[export] Instance loc_KeyLaws : KeyLaws loc.
Proof.
  constructor. intros [x a] [y b]; unfold keqb; simpl; unfold loc_eqb; simpl.
  rewrite andb_true_iff, Bool.eqb_true_iff, segs_eqb_eq.
  split; [intros [-> ->]; reflexivity | intros E; injection E; auto].
Qed.

Section MapFacts.
Context {K V : Type} {KK : Key K} {KL : KeyLaws K}.
Implicit Types (m : list (K * V)) (k : K) (v : V).

Lemma keqb_refl k : keqb k k = true.
Proof. now apply keqb_eq. Qed.

Lemma keqb_neq k k' : k <> k' -> keqb k k' = false.
Proof.
  intros Hne. destruct (keqb k k') eqn:E; [|reflexivity].
  apply keqb_eq in E. contradiction.
Qed.

Lemma get_set_same m k v : JsMap.get (JsMap.set m k v) k = Some v.
Proof.
  induction m as [|[k' v'] m IH]; simpl.
  - now rewrite keqb_refl.
  - destruct (keqb k' k) eqn:E; simpl; rewrite E; auto.
Qed.

Lemma get_set_other m k k' v :
  k <> k' -> JsMap.get (JsMap.set m k v) k' = JsMap.get m k'.
Proof.
  intros Hne. induction m as [|[k0 v0] m IH]; simpl.
  - now rewrite keqb_neq.
  - destruct (keqb k0 k) eqn:E; simpl.
    + apply keqb_eq in E; subst k0. now rewrite keqb_neq.
    + now rewrite IH.
Qed.

(** A key already present keeps its place; a new one goes last. *)
Lemma keys_set m k v :
  JsMap.keys (JsMap.set m k v)
  = if JsMap.has m k then JsMap.keys m else (JsMap.keys m ++ [k])%list.
Proof.
  unfold JsMap.has, JsMap.keys.
  induction m as [|[k0 v0] m IH]; simpl; [reflexivity|].
  destruct (keqb k0 k) eqn:E; simpl; [reflexivity|].
  rewrite IH. now destruct (JsMap.get m k).
Qed.
End MapFacts.

(* ================================================================== *)
(** * ParsedArgs.parse *)
(* ================================================================== *)

(** The loop of [parse] sends the [--] tokens to the option map and the
    others, in order, to the argument list. *)
Lemma parse_fold (toks : list string) (a : list string)
    (o : list (string * option string)) :
  fold_left parse_step toks (a, o)
  = ((a ++ filter (fun t => negb (startsWith t "--")) toks)%list,
     fold_left (fun o' t => JsMap.set o' (fst (split_option t)) (snd (split_option t)))
               (filter (fun t => startsWith t "--") toks) o).
Proof.
  revert a o; induction toks as [|t toks IH]; intros a o; cbn [fold_left filter].
  - now rewrite app_nil_r.
  - destruct (parse_step (a, o) t) as [a' o'] eqn:P. rewrite IH.
    unfold parse_step in P.
    destruct (startsWith t "--") eqn:E; cbn [negb].
    + destruct (split_option t) as [k v] eqn:S. injection P as <- <-.
      cbn [fold_left]. now rewrite S.
    + injection P as <- <-. now rewrite <- app_assoc.
Qed.

Lemma set_all_untouched (k : string) (kvs : list (string * option string))
    (o : list (string * option string)) :
  Forall (fun kv => fst kv <> k) kvs ->
  JsMap.get (fold_left (fun o' kv => JsMap.set o' (fst kv) (snd kv)) kvs o) k
  = JsMap.get o k.
Proof.
  revert o; induction kvs as [|[k' v'] kvs IH]; intros o HF; simpl; [reflexivity|].
  inversion HF; subst. rewrite IH by assumption.
  now apply get_set_other.
Qed.

Lemma fold_set_map (toks : list string) (o : list (string * option string)) :
  fold_left (fun o' t => JsMap.set o' (fst (split_option t)) (snd (split_option t))) toks o
  = fold_left (fun o' kv => JsMap.set o' (fst kv) (snd kv)) (map split_option toks) o.
Proof. revert o; induction toks; intros o; simpl; auto. Qed.

Lemma scan_single_none_app (pre rest : string) (c : ascii) (k : nat) :
  indexOf_scan pre (String c "") k = None ->
  indexOf_scan (pre ++ String c rest) (String c "") k
  = Some (k + String.length pre).
Proof.
  revert k; induction pre as [|d pre IH]; intros k Hn.
  - simpl. rewrite Ascii.eqb_refl. simpl. f_equal; lia.
  - simpl in *. destruct (Ascii.eqb d c); simpl in *; [discriminate|].
    rewrite (IH _ Hn). f_equal; lia.
Qed.

Lemma scan_none_shift (s pat : string) (k k' : nat) :
  indexOf_scan s pat k = None -> indexOf_scan s pat k' = None.
Proof.
  revert k k'; induction s as [|d s IH]; intros k k'; simpl.
  - destruct (startsWith "" pat); [discriminate | auto].
  - destruct (startsWith (String d s) pat); [discriminate | eauto].
Qed.

Lemma indexOf_none_scan (s pat : string) :
  indexOf s pat 0 = (-1)%Z -> indexOf_scan s pat 0 = None.
Proof.
  unfold indexOf.
  replace (clamp s 0) with 0 by (unfold clamp, strlen; lia).
  rewrite drop_0. destruct (indexOf_scan s pat 0); [lia | reflexivity].
Qed.

(** [--key=value], with no [=] in the key. *)
Lemma split_option_eq (key value : string) :
  indexOf key "=" 0 = (-1)%Z ->
  split_option ("--" ++ key ++ "=" ++ value) = (key, Some value).
Proof.
  intros Hk. apply indexOf_none_scan in Hk.
  assert (Hi : indexOf ("--" ++ key ++ "=" ++ value) "=" 0
               = Z.of_nat (2 + String.length key)).
  { unfold indexOf.
    replace (clamp ("--" ++ key ++ "=" ++ value) 0) with 0
      by (unfold clamp, strlen; lia).
    rewrite drop_0. simpl.
    rewrite (scan_single_none_app key value "="%char 2);
      [f_equal; lia | eapply scan_none_shift; eassumption]. }
  unfold split_option. rewrite Hi.
  destruct (Z.eqb_spec (Z.of_nat (2 + String.length key)) (-1)); [lia|].
  f_equal.
  - unfold substring.
    set (s := "--" ++ key ++ "=" ++ value).
    assert (Hl : String.length s
                 = 2 + (String.length key + S (String.length value)))
      by (unfold s; rewrite !length_app; reflexivity).
    replace (clamp s 2) with 2 by (unfold clamp, strlen; lia).
    replace (clamp s (Z.of_nat (2 + String.length key)))
      with (2 + String.length key) by (unfold clamp, strlen; lia).
    rewrite Nat.min_l, Nat.max_r by lia.
    replace (2 + String.length key - 2) with (String.length key) by lia.
    unfold s. cbn [drop append]. apply take_app.
  - f_equal.
    set (pre := "--" ++ key ++ "=").
    assert (Hp : String.length pre = 2 + (String.length key + 1))
      by (unfold pre; rewrite !length_app; reflexivity).
    replace ("--" ++ key ++ "=" ++ value) with (pre ++ value)
      by (unfold pre; now rewrite !app_assoc_s).
    replace (Z.of_nat (2 + String.length key) + 1)%Z with (strlen pre)
      by (unfold strlen; lia).
    apply substring_drop_prefix.
Qed.

(** [--key], with no [=] at all. *)
Lemma split_option_bare (key : string) :
  indexOf key "=" 0 = (-1)%Z ->
  split_option ("--" ++ key) = (key, None).
Proof.
  intros Hk. apply indexOf_none_scan in Hk.
  assert (Hi : indexOf ("--" ++ key) "=" 0 = (-1)%Z).
  { unfold indexOf.
    replace (clamp ("--" ++ key) 0) with 0 by (unfold clamp, strlen; lia).
    rewrite drop_0. simpl.
    now rewrite (scan_none_shift key "=" 0 2 Hk). }
  unfold split_option. rewrite Hi. simpl. f_equal.
  change (String "-" (String "-" key)) with ("--" ++ key).
  apply (substring_drop_prefix "--" key).
Qed.

Lemma parse_args (rawArgs : list string) (sliceFirstTwo : bool) :
  args (parse rawArgs sliceFirstTwo)
  = filter (fun t => negb (startsWith t "--")) (tokens_of rawArgs sliceFirstTwo).
Proof.
  unfold parse. fold (tokens_of rawArgs sliceFirstTwo).
  now rewrite parse_fold.
Qed.

Lemma parse_options (rawArgs : list string) (sliceFirstTwo : bool) :
  options (parse rawArgs sliceFirstTwo)
  = fold_left (fun o kv => JsMap.set o (fst kv) (snd kv))
      (map split_option
         (filter (fun t => startsWith t "--") (tokens_of rawArgs sliceFirstTwo)))
      [].
Proof.
  unfold parse. fold (tokens_of rawArgs sliceFirstTwo).
  rewrite parse_fold. cbn [options]. apply fold_set_map.
Qed.

Lemma option_keys_differ (k : string) (toks : list string) :
  (forall t, In t toks -> startsWith t "--" = true -> fst (split_option t) <> k) ->
  Forall (fun kv => fst kv <> k)
         (map split_option (filter (fun t => startsWith t "--") toks)).
Proof.
  intros Hk. apply Forall_forall. intros kv Hin.
  apply in_map_iff in Hin as [t [<- Ht]].
  apply filter_In in Ht as [Ht Ho]. now apply Hk.
Qed.

(** C9. Parsing a token list classifies every token that begins with two
    hyphens as an option, split at its first [=] into key and value (a null
    value when there is no [=]), and every other token as a positional
    argument, in order; a name that is given several times takes the value
    of its last token.  [isOptionTrue] with its default settings is false
    for an absent option, true for one without a value, and otherwise the
    membership of the lower-cased value in true, yes, y, 1, where
    lower-casing turns each of the letters A to Z into its small letter
    and leaves every other byte: so TRUE, Yes, Y and tRuE count as true,
    while false, YESS and the empty value do not, and TRUE does not when
    the comparison is set to be case-sensitive.  The tokens
    --out=dist, --clear-out, build give the positional argument build, the
    option out = dist, the option clear-out without value, for which
    [isOptionTrue] is true; this is also the parse of an argument vector
    with two leading entries sliced off. *)
Theorem C9_parse_classifies_tokens (rawArgs : list string) (sliceFirstTwo : bool) :
  let tokens := if sliceFirstTwo then skipn 2 rawArgs else rawArgs in
  let p := parse rawArgs sliceFirstTwo in
  args p = filter (fun t => negb (startsWith t "--")) tokens
  /\ (forall k,
        (forall t, In t tokens -> startsWith t "--" = true ->
                   fst (split_option t) <> k) ->
        getOption p k = None)
  /\ (forall pre t post k v,
        tokens = (pre ++ t :: post)%list ->
        startsWith t "--" = true ->
        split_option t = (k, v) ->
        (forall t', In t' post -> startsWith t' "--" = true ->
                    fst (split_option t') <> k) ->
        getOption p k = Some v)
  /\ (forall key value,
        indexOf key "=" 0 = (-1)%Z ->
        split_option ("--" ++ key ++ "=" ++ value) = (key, Some value))
  /\ (forall key,
        indexOf key "=" 0 = (-1)%Z ->
        split_option ("--" ++ key) = (key, None))
  /\ (forall k,
        isOptionTrue_default p k
        = match getOption p k with
          | None => false
          | Some None => true
          | Some (Some v) => includes default_trueValues (toLowerCase v)
          end)
  /\ (let q := parse ["--out=dist"; "--clear-out"; "build"] false in
      args q = ["build"]
      /\ getOption q "out" = Some (Some "dist")
      /\ getOption q "clear-out" = Some None
      /\ isOptionTrue_default q "clear-out" = true
      /\ parse ["bun"; "site.tsx"; "--out=dist"; "--clear-out"; "build"] true = q)
  /\ (forall n s,
        65 <= n <= 90 ->
        toLowerCase (String (ascii_of_nat n) s)
        = String (ascii_of_nat (n + 32)) (toLowerCase s))
  /\ (forall c s,
        nat_of_ascii c < 65 \/ 90 < nat_of_ascii c ->
        toLowerCase (String c s) = String c (toLowerCase s))
  /\ (let q := parse ["--a=TRUE"; "--b=Yes"; "--c=Y"; "--d=1"; "--e=tRuE";
                      "--f=false"; "--g=YESS"; "--h="] false in
      toLowerCase "TRUE" = "true"
      /\ isOptionTrue_default q "a" = true
      /\ isOptionTrue_default q "b" = true
      /\ isOptionTrue_default q "c" = true
      /\ isOptionTrue_default q "d" = true
      /\ isOptionTrue_default q "e" = true
      /\ isOptionTrue_default q "f" = false
      /\ isOptionTrue_default q "g" = false
      /\ getOption q "h" = Some (Some "")
      /\ isOptionTrue_default q "h" = false
      /\ isOptionTrue_default q "z" = false
      /\ isOptionTrue q "a" true default_trueValues true = false
      /\ isOptionTrue q "a" true ["True"] false = true).
Proof.
  intros tokens p.
  assert (Ht : tokens = tokens_of rawArgs sliceFirstTwo) by reflexivity.
  split; [|split; [|split; [|split; [|split; [|split;
    [|split; [|split; [|split]]]]]]]].
  - unfold p. rewrite parse_args. now rewrite <- Ht.
  - intros k Hk. unfold getOption, p. rewrite parse_options, <- Ht.
    rewrite set_all_untouched; [reflexivity|].
    now apply option_keys_differ.
  - intros pre t post k v Htok Ho Hs Hpost.
    unfold getOption, p. rewrite parse_options, <- Ht, Htok.
    rewrite filter_app. cbn [filter]. rewrite Ho.
    rewrite map_app, fold_left_app. cbn [map fold_left].
    rewrite set_all_untouched by now apply option_keys_differ.
    rewrite Hs. cbn [fst snd]. apply get_set_same.
  - apply split_option_eq.
  - apply split_option_bare.
  - intros k. unfold isOptionTrue_default, isOptionTrue, getOption.
    destruct (JsMap.get (options p) k) as [[v|]|]; reflexivity.
  - vm_compute. repeat split.
  - intros n s Hn. cbn [toLowerCase]. unfold lower_ascii.
    rewrite nat_ascii_embedding by lia.
    destruct (Nat.leb_spec 65 n); [|lia].
    destruct (Nat.leb_spec n 90); [|lia]. reflexivity.
  - intros c s Hc. cbn [toLowerCase]. unfold lower_ascii.
    destruct (Nat.leb_spec 65 (nat_of_ascii c));
      destruct (Nat.leb_spec (nat_of_ascii c) 90); try reflexivity; lia.
  - vm_compute. repeat split.
Qed.

(** C9, at the tokens of a command line: [--port=8080] and [--hot], then
    [--port=9090] again, with two positional arguments. *)
Lemma C9_parse_witness :
  let p := parse ["serve"; "--port=8080"; "--hot"; "--port=9090"; "now"] false in
  getOption p "color" = None
  /\ getOption p "port" = Some (Some "9090")
  /\ split_option "--port=9090" = ("port", Some "9090")
  /\ split_option "--hot" = ("hot", None)
  /\ toLowerCase "Yes" = "yes"
  /\ isOptionTrue_default (parse ["--clear-out=Yes"] false) "clear-out" = true.
Proof.
  pose proof (C9_parse_classifies_tokens ["--clear-out=Yes"] false)
    as (_ & _ & _ & _ & _ & Htrue & _ & Hupper & Hother & _).
  pose proof (C9_parse_classifies_tokens
                ["serve"; "--port=8080"; "--hot"; "--port=9090"; "now"] false)
    as (_ & Habsent & Hlast & Heq & Hbare & _).
  cbv zeta in *.
  split; [|split; [|split; [|split; [|split]]]].
  - apply Habsent. intros t Hin Ho.
    cbn [In] in Hin.
    destruct Hin as [<-|[<-|[<-|[<-|[<-|[]]]]]]; vm_compute; discriminate.
  - apply (Hlast ["serve"; "--port=8080"; "--hot"] "--port=9090" ["now"]).
    + reflexivity.
    + reflexivity.
    + reflexivity.
    + intros t' [<-|[]] Ho. vm_compute in Ho. discriminate.
  - apply (Heq "port" "9090"). reflexivity.
  - apply (Hbare "hot"). reflexivity.
  - change "Yes" with (String (ascii_of_nat 89) "es").
    rewrite (Hupper 89 "es") by lia. reflexivity.
  - rewrite Htrue. reflexivity.
Defined.

(* ================================================================== *)
(** * Registration *)
(* ================================================================== *)

(** C8. [mapStatic(route, directory)] throws, leaving the generator as it
    was, when the route does not start with a slash or does not end with
    one; otherwise it returns, and the static mappings then hold the
    directory under that route, every other route as before, the order of
    the keys kept (a new route last), and nothing else is changed. *)
Theorem C8_mapStatic_validates_prefix (g : SiteGenerator)
    (route directory : string) :
  if startsWith route "/" && endsWith route "/"
  then exists g',
      mapStatic g route directory = Returned g'
      /\ JsMap.get (staticMappings g') route = Some directory
      /\ (forall k, k <> route ->
            JsMap.get (staticMappings g') k = JsMap.get (staticMappings g) k)
      /\ JsMap.keys (staticMappings g')
         = (if JsMap.has (staticMappings g) route
            then JsMap.keys (staticMappings g)
            else (JsMap.keys (staticMappings g) ++ [route])%list)
      /\ routes g' = routes g
      /\ indexFilename g' = indexFilename g
      /\ notFoundFilename g' = notFoundFilename g
  else exists message, mapStatic g route directory = Threw (JsError message) g.
Proof.
  unfold mapStatic.
  destruct (startsWith route "/") eqn:Hs; cbn [andb negb].
  - destruct (endsWith route "/") eqn:He; cbn [negb].
    + eexists. split; [reflexivity|]. cbn [staticMappings routes indexFilename notFoundFilename].
      split; [apply get_set_same|].
      split; [intros k Hk; apply get_set_other; congruence|].
      split; [apply keys_set|]. auto.
    + eexists. reflexivity.
  - eexists. reflexivity.
Qed.

(* ================================================================== *)
(** * Route resolution *)
(* ================================================================== *)

(** The loop over the candidates answers the renderer of the first
    candidate that is registered. *)
Lemma find_renderer_first (rs : list (string * Renderer))
    (pre : list string) (c : string) (post : list string) (r : Renderer) :
  Forall (fun c' => JsMap.get rs c' = None) pre ->
  JsMap.get rs c = Some r ->
  find_renderer rs (pre ++ c :: post) = Some r.
Proof.
  intros Hpre Hc. induction Hpre as [|c' pre Hc' _ IH]; simpl.
  - now rewrite Hc.
  - now rewrite Hc'.
Qed.

Lemma find_renderer_none (rs : list (string * Renderer)) (cs : list string) :
  Forall (fun c' => JsMap.get rs c' = None) cs ->
  find_renderer rs cs = None.
Proof.
  intros Hcs. induction Hcs as [|c' cs Hc' _ IH]; simpl; [reflexivity|].
  now rewrite Hc'.
Qed.

Lemma find_renderer_inv (rs : list (string * Renderer)) (cs : list string)
    (r : Renderer) :
  find_renderer rs cs = Some r ->
  exists pre c post,
    cs = (pre ++ c :: post)%list
    /\ Forall (fun c' => JsMap.get rs c' = None) pre
    /\ JsMap.get rs c = Some r.
Proof.
  induction cs as [|c cs IH]; simpl; [discriminate|].
  destruct (JsMap.get rs c) as [r'|] eqn:Hc.
  - intros [= ->]. exists [], c, cs. auto.
  - intros Hf. destruct (IH Hf) as (pre & c0 & post & -> & Hpre & Hc0).
    exists (c :: pre), c0, post. auto.
Qed.

(** A path that does not end with a slash followed by the index filename
    has two candidates. *)
Lemma candidates_plain (g : SiteGenerator) (path : string) :
  endsWith path ("/" ++ indexFilename g) = false ->
  route_candidates g path = [path; path ++ "/"].
Proof. unfold route_candidates. now intros ->. Qed.

(** A key that ends with a slash, with the index filename after it, has
    the key itself as third candidate. *)
Lemma candidates_index (g : SiteGenerator) (K : string) :
  endsWith K "/" = true ->
  route_candidates g (K ++ indexFilename g)
  = [K ++ indexFilename g; (K ++ indexFilename g) ++ "/"; K].
Proof.
  intros HK. apply endsWith_iff in HK as [K0 ->].
  unfold route_candidates.
  assert (He : endsWith ((K0 ++ "/") ++ indexFilename g)
                        ("/" ++ indexFilename g) = true)
    by (apply endsWith_iff; exists K0; apply app_assoc_s).
  now rewrite He, substring_drop_suffix.
Qed.

Lemma resolve_exact (g : SiteGenerator) (K : string) (r : Renderer) :
  JsMap.get (routes g) K = Some r -> resolve g K = Some r.
Proof.
  intros HK. unfold resolve, route_candidates. simpl. now rewrite HK.
Qed.

Lemma last_char_mismatch (a b : string) (c d : ascii) :
  c <> d -> endsWith (a ++ String c "") (b ++ String d "") = false.
Proof.
  intros Hcd. destruct (endsWith _ _) eqn:E; [|reflexivity].
  apply endsWith_iff in E as [t E]. exfalso.
  rewrite <- app_assoc_s in E.
  assert (Hinj : forall x y : string, forall c d,
             x ++ String c "" = y ++ String d "" -> c = d).
  { induction x as [|e x IH]; intros [|f y] c' d' Heq; simpl in Heq.
    - congruence.
    - destruct y; discriminate.
    - destruct x; discriminate.
    - injection Heq as _ Heq. eauto. }
  apply Hinj in E. contradiction.
Qed.

Lemma string_snoc (s : string) :
  s <> "" -> exists a c, s = a ++ String c "".
Proof.
  induction s as [|d s IH]; intros Hne; [contradiction|].
  destruct s as [|e s].
  - now exists "", d.
  - destruct IH as (a & c & Ha); [discriminate|].
    exists (String d a), c. simpl. now rewrite <- Ha.
Qed.

(** With an index filename that does not end with a slash, a path with a
    trailing slash has only itself and the path with one more slash as
    candidates. *)
Lemma candidates_after_slash (g : SiteGenerator) (K : string) :
  endsWith (indexFilename g) "/" = false ->
  forall c, In c (route_candidates g (K ++ "/")) ->
            c = K ++ "/" \/ c = (K ++ "/") ++ "/".
Proof.
  intros Hidx c. unfold route_candidates.
  destruct (string_dec (indexFilename g) "") as [E|E].
  - rewrite E in *. cbn [append].
    rewrite (endsWith_app K "/").
    replace (substring (K ++ "/") 0 (Some (strlen (K ++ "/") - strlen "")%Z))
      with (K ++ "/").
    + cbn [In]. intuition.
    + rewrite <- (app_empty_r (K ++ "/")) at 2 3.
      now rewrite substring_drop_suffix.
  - destruct (string_snoc (indexFilename g) E) as (a & d & Ha).
    assert (Hd : d <> slash).
    { intros ->. rewrite Ha in Hidx. unfold slash in Hidx.
      now rewrite (endsWith_app a "/") in Hidx. }
    rewrite Ha.
    replace ("/" ++ a ++ String d "") with (("/" ++ a) ++ String d "")
      by apply app_assoc_s.
    rewrite last_char_mismatch by (unfold slash in Hd; congruence).
    cbn [In]. intuition.
Qed.

(** C1 (amended). A request for the path [K] of a registered route resolves
    to that route's renderer.  The trailing slash is optional in the request,
    not in the registration: a route registered under a key with a trailing
    slash also answers the request for the key without it, unless a distinct
    route is registered at exactly that path, which then takes precedence;
    a request for [K] with a slash added is answered only by a route
    registered with that slash (or with two), never by the route at [K]. *)
Theorem C1_trailing_slash_in_request (g : SiteGenerator) (K : string)
    (r : Renderer) :
  JsMap.get (routes g) K = Some r ->
  resolve g K = Some r
  /\ (forall K0, K = K0 ++ "/" ->
        (forall r', JsMap.get (routes g) K0 = Some r' -> r' = r) ->
        resolve g K0 = Some r)
  /\ (endsWith (indexFilename g) "/" = false ->
      JsMap.get (routes g) (K ++ "/") = None ->
      JsMap.get (routes g) ((K ++ "/") ++ "/") = None ->
      resolve g (K ++ "/") = None).
Proof.
  intros HK. split; [now apply resolve_exact|]. split.
  - intros K0 -> Hdistinct. unfold resolve, route_candidates.
    cbn [find_renderer].
    destruct (JsMap.get (routes g) K0) as [r'|] eqn:H0.
    + f_equal. now apply Hdistinct.
    + now rewrite HK.
  - intros Hidx H1 H2. unfold resolve. apply find_renderer_none.
    apply Forall_forall. intros c Hc.
    destruct (candidates_after_slash g K Hidx c Hc) as [-> | ->]; assumption.
Qed.

Lemma page_inj (a b : string) : page a = page b -> a = b.
Proof.
  intros E. assert (E' : page a tt = page b tt) by now rewrite E.
  unfold page in E'. congruence.
Qed.

(** C1, for a site with the routes [/hi/] and [/todo]. *)
Lemma C1_trailing_slash_witness :
  let g := setRoute no_modules
             (setRoute no_modules new_SiteGenerator "/hi/" (inl (page "HI")))
             "/todo" (inl (page "TODO")) in
  (resolve g "/hi/" = Some (page "HI") /\ resolve g "/hi" = Some (page "HI"))
  /\ (resolve g "/todo" = Some (page "TODO") /\ resolve g "/todo/" = None).
Proof.
  intros g. split.
  - destruct (C1_trailing_slash_in_request g "/hi/" (page "HI") eq_refl)
      as (Hexact & Hslashless & _).
    split; [exact Hexact|].
    apply (Hslashless "/hi" eq_refl).
    intros r' Hr'. vm_compute in Hr'. discriminate.
  - destruct (C1_trailing_slash_in_request g "/todo" (page "TODO") eq_refl)
      as (Hexact & _ & Hslash).
    split; [exact Hexact|].
    apply Hslash; reflexivity.
Defined.

(** C1 as stated fails: with the single route [/todo], whose key does not
    end with a slash and with nothing registered at [/todo/], the request
    for [/todo/] does not resolve to the route's renderer; the answer is
    the 404 text. *)
Lemma C1_request_with_slash_misses :
  let g := setRoute no_modules new_SiteGenerator "/todo" (inl (page "TODO")) in
  JsMap.get (routes g) "/todo" = Some (page "TODO")
  /\ endsWith "/todo" "/" = false
  /\ JsMap.get (routes g) ("/todo" ++ "/") = None
  /\ resolve g "/todo" = Some (page "TODO")
  /\ resolve g ("/todo" ++ "/") <> Some (page "TODO")
  /\ reqHandler g "http://localhost:3000/todo/" empty_world
     = Ok {| status := 404; body := BString no_route_message |} empty_world.
Proof.
  cbv zeta. repeat split; try reflexivity.
  vm_compute. discriminate.
Qed.

(** C2 (amended). For a route registered under a key [K] that ends with a
    slash, the request for [K] followed by the index filename has the
    candidates: that path, that path with a slash, and [K]; it resolves to
    the renderer of [K], as the request for [K] does, unless a distinct route
    is registered at one of the first two candidates, which then takes
    precedence.  In general the candidates of a path are tried in this order
    and the first registered one answers. *)
Theorem C2_index_suffix_in_request (g : SiteGenerator) (K : string)
    (r : Renderer) :
  endsWith K "/" = true ->
  JsMap.get (routes g) K = Some r ->
  resolve g K = Some r
  /\ route_candidates g (K ++ indexFilename g)
     = [K ++ indexFilename g; (K ++ indexFilename g) ++ "/"; K]
  /\ ((forall r', JsMap.get (routes g) (K ++ indexFilename g) = Some r' -> r' = r) ->
      (forall r', JsMap.get (routes g) ((K ++ indexFilename g) ++ "/") = Some r' -> r' = r) ->
      resolve g (K ++ indexFilename g) = Some r)
  /\ (forall r', JsMap.get (routes g) (K ++ indexFilename g) = Some r' ->
                 resolve g (K ++ indexFilename g) = Some r')
  /\ (forall path r',
        resolve g path = Some r' <->
        exists pre c post,
          route_candidates g path = (pre ++ c :: post)%list
          /\ Forall (fun c' => JsMap.get (routes g) c' = None) pre
          /\ JsMap.get (routes g) c = Some r')
  /\ (forall path,
        route_candidates g path
        = path :: (path ++ "/")
          :: (if endsWith path ("/" ++ indexFilename g)
              then [substring path 0
                      (Some (strlen path - strlen (indexFilename g))%Z)]
              else [])).
Proof.
  intros HK Hr.
  split; [now apply resolve_exact|].
  split; [now apply candidates_index|].
  split; [|split; [|split]].
  - intros H1 H2. unfold resolve. rewrite candidates_index by assumption.
    cbn [find_renderer].
    destruct (JsMap.get (routes g) (K ++ indexFilename g)) as [r1|] eqn:E1.
    { f_equal. now apply H1. }
    destruct (JsMap.get (routes g) ((K ++ indexFilename g) ++ "/")) as [r2|] eqn:E2.
    { f_equal. now apply H2. }
    now rewrite Hr.
  - intros r'. apply resolve_exact.
  - intros path r'. unfold resolve. split.
    + apply find_renderer_inv.
    + intros (pre & c & post & -> & Hpre & Hc).
      now apply find_renderer_first.
  - reflexivity.
Qed.

(** C2, for the route [/foo/] and the index filename [index.html]. *)
Lemma C2_index_suffix_witness :
  let g := setRoute no_modules new_SiteGenerator "/foo/" (inl (page "FOO")) in
  resolve g "/foo/" = Some (page "FOO")
  /\ resolve g "/foo/index.html" = Some (page "FOO").
Proof.
  intros g.
  destruct (C2_index_suffix_in_request g "/foo/" (page "FOO") eq_refl eq_refl)
    as (Hkey & _ & Hindex & _).
  split; [exact Hkey|].
  apply Hindex; intros r' Hr'; vm_compute in Hr'; discriminate.
Defined.

(** C2 as stated fails: with the routes [/foo/] and [/foo/index.html], the
    request for [/foo/index.html] resolves to the second route, not to the
    renderer that the request for [/foo/] resolves to. *)
Lemma C2_exact_route_shadows_index :
  let g := setRoute no_modules
             (setRoute no_modules new_SiteGenerator "/foo/" (inl (page "FOO")))
             "/foo/index.html" (inl (page "OTHER")) in
  endsWith "/foo/" "/" = true
  /\ JsMap.get (routes g) "/foo/" = Some (page "FOO")
  /\ indexFilename g = "index.html"
  /\ resolve g "/foo/" = Some (page "FOO")
  /\ resolve g ("/foo/" ++ indexFilename g) = Some (page "OTHER")
  /\ resolve g ("/foo/" ++ indexFilename g) <> resolve g "/foo/".
Proof.
  cbv zeta. repeat split; try reflexivity.
  vm_compute. intros [= E].
  assert (E' : "OTHER" = "FOO") by (apply page_inj; exact E).
  discriminate.
Qed.

(* ================================================================== *)
(** * The request handler *)
(* ================================================================== *)

(** Looking for a static file reads the file system and changes nothing. *)
Lemma serve_static_reads (mappings : list (string * string)) (path : string)
    (w : world) :
  world_of (serve_static mappings path w) = w.
Proof.
  induction mappings as [|[route staticDir] rest IH]; cbn [serve_static].
  - reflexivity.
  - destruct (startsWith path route); [|exact IH].
    unfold bind, catch, stat, with_fs.
    destruct (lookup_path (fs w) _) as [[c|]|[]]; cbn;
      try reflexivity; exact IH.
Qed.

(** The loop ends without an answer when, for every mapping whose prefix
    the path starts with, the file looked for is missing or is a
    directory. *)
Lemma serve_static_miss (mappings : list (string * string)) (path : string)
    (w : world) :
  (forall route staticDir,
     In (route, staticDir) mappings ->
     startsWith path route = true ->
     stat (joinPaths staticDir (sanitize route path)) w = Ok Directory w
     \/ stat (joinPaths staticDir (sanitize route path)) w
        = Throw (SystemError ENOENT) w) ->
  serve_static mappings path w = Ok None w.
Proof.
  induction mappings as [|[route staticDir] rest IH]; intros Hall;
    cbn [serve_static]; [reflexivity|].
  assert (Hrest : serve_static rest path w = Ok None w)
    by (apply IH; intros; eapply Hall; [right|]; eassumption).
  destruct (startsWith path route) eqn:Hp; [|exact Hrest].
  unfold bind, catch.
  destruct (Hall route staticDir (or_introl eq_refl) Hp) as [-> | ->];
    cbn; exact Hrest.
Qed.

(** The answer to a request that no route and no static file matches. *)
Lemma reqHandler_unmatched (g : SiteGenerator) (url : string) (w : world) :
  resolve g (request_path url) = None ->
  serve_static (staticMappings g) (request_path url) w = Ok None w ->
  reqHandler g url w
  = match JsMap.get (routes g) ("/" ++ notFoundFilename g) with
    | Some notFoundRenderer =>
        match notFoundRenderer tt with
        | inl result =>
            match toResponseBody result with
            | inl body => Ok {| status := 404; body := body |} w
            | inr e => Throw e w
            end
        | inr e => Throw e w
        end
    | None => Ok {| status := 404; body := BString no_route_message |} w
    end.
Proof.
  intros Hroute Hstatic. unfold reqHandler. rewrite Hroute.
  unfold bind at 1. rewrite Hstatic.
  destruct (JsMap.get (routes g) ("/" ++ notFoundFilename g)) as [nf|];
    [|reflexivity].
  unfold bind, call, settle, ret. destruct (nf tt) as [result|e]; [|reflexivity].
  now destruct (toResponseBody result).
Qed.

(** C7 (amended). When the path of a request matches no page route, and
    every static mapping whose prefix begins the path leads to nothing or to
    a directory, the response has status 404.  Its body is the fixed text
    when no renderer is registered under slash + [notFoundFilename].  When
    one is, the body is its normalized output: a string, a byte array and a
    stream as they are, an element as the stream it renders to; a renderer
    that throws, or answers [null], makes the request fail with that
    error. *)
Theorem C7_not_found_fallback (g : SiteGenerator) (url : string) (w : world) :
  let path := request_path url in
  resolve g path = None ->
  (forall route staticDir,
     In (route, staticDir) (staticMappings g) ->
     startsWith path route = true ->
     stat (joinPaths staticDir (sanitize route path)) w = Ok Directory w
     \/ stat (joinPaths staticDir (sanitize route path)) w
        = Throw (SystemError ENOENT) w) ->
  (forall notFoundRenderer,
     JsMap.get (routes g) ("/" ++ notFoundFilename g) = Some notFoundRenderer ->
     reqHandler g url w
     = match notFoundRenderer tt with
       | inl (RString s) => Ok {| status := 404; body := BString s |} w
       | inl (RUint8Array b) => Ok {| status := 404; body := BUint8Array b |} w
       | inl (RStream stream) => Ok {| status := 404; body := BStream stream |} w
       | inl (RJsx element) =>
           Ok {| status := 404;
                 body := BStream (renderToReadableStream element) |} w
       | inl ROther => Ok {| status := 404; body := BOther |} w
       | inl RNull => Throw TypeError w
       | inr e => Throw e w
       end)
  /\ (JsMap.get (routes g) ("/" ++ notFoundFilename g) = None ->
      reqHandler g url w
      = Ok {| status := 404; body := BString no_route_message |} w).
Proof.
  intros path Hroute Hstatic.
  rewrite (reqHandler_unmatched g url w Hroute
             (serve_static_miss (staticMappings g) path w Hstatic)).
  split.
  - intros nf ->. destruct (nf tt) as [[]|]; reflexivity.
  - now intros ->.
Qed.

(** C7, for a site with a static directory and a not-found page that is an
    element, for the same site with a page that is a text, and for the site
    without a page; the file asked for does not exist. *)
Lemma C7_not_found_witness :
  let w := {| fs := [((false, ["assets"]), Directory);
                     ((false, ["assets"; "logo.png"]), File "PNG")];
              console := [] |} in
  let plain := match mapStatic new_SiteGenerator "/assets/" "assets" with
               | Returned g => g
               | Threw _ g => g
               end in
  let element := {| markup := ["<h1>"; "missing"; "</h1>"] |} in
  let g := setNotFound no_modules plain (inl (fun _ => inl (RJsx element))) in
  let g' := setNotFound no_modules plain (inl (page "missing")) in
  reqHandler g "http://localhost:3000/assets/nope.png" w
  = Ok {| status := 404; body := BStream ["<h1>"; "missing"; "</h1>"] |} w
  /\ reqHandler g' "http://localhost:3000/assets/nope.png" w
     = Ok {| status := 404; body := BString "missing" |} w
  /\ reqHandler plain "http://localhost:3000/assets/nope.png" w
     = Ok {| status := 404; body := BString no_route_message |} w.
Proof.
  intros w plain element g g'.
  assert (Hmiss : forall route staticDir,
            In (route, staticDir) [("/assets/", "assets")] ->
            startsWith "/assets/nope.png" route = true ->
            stat (joinPaths staticDir (sanitize route "/assets/nope.png")) w
            = Ok Directory w
            \/ stat (joinPaths staticDir (sanitize route "/assets/nope.png")) w
               = Throw (SystemError ENOENT) w).
  { intros route staticDir [[= <- <-]|[]] _. right. reflexivity. }
  split; [|split].
  - exact (proj1 (C7_not_found_fallback g "http://localhost:3000/assets/nope.png"
                    w eq_refl Hmiss) (fun _ => inl (RJsx element)) eq_refl).
  - exact (proj1 (C7_not_found_fallback g' "http://localhost:3000/assets/nope.png"
                    w eq_refl Hmiss) (page "missing") eq_refl).
  - exact (proj2 (C7_not_found_fallback plain
                    "http://localhost:3000/assets/nope.png" w eq_refl Hmiss)
                 eq_refl).
Defined.

(** C7 as stated fails: the path [/assets/logo.png/x] matches no page
    route, and no static file (the one mapping leads through the regular
    file [logo.png], where there is nothing to find); yet the request is
    not answered with status 404: the error [ENOTDIR] of [stat] is thrown
    again by the handler, although a not-found page is registered. *)
Lemma C7_stat_error_fails_request :
  let w := {| fs := [((false, ["assets"]), Directory);
                     ((false, ["assets"; "logo.png"]), File "PNG")];
              console := [] |} in
  let plain := match mapStatic new_SiteGenerator "/assets/" "assets" with
               | Returned g => g
               | Threw _ g => g
               end in
  let g := setNotFound no_modules plain (inl (page "missing")) in
  let url := "http://localhost:3000/assets/logo.png/x" in
  resolve g (request_path url) = None
  /\ staticMappings g = [("/assets/", "assets")]
  /\ joinPaths "assets" (sanitize "/assets/" (request_path url))
     = "assets/logo.png/x"
  /\ fs_lookup (fs w) (locate "assets/logo.png/x") = None
  /\ JsMap.get (routes g) ("/" ++ notFoundFilename g) = Some (page "missing")
  /\ reqHandler g url w = Throw (SystemError ENOTDIR) w
  /\ reqHandler g url w
     <> Ok {| status := 404; body := BString "missing" |} w.
Proof.
  cbv zeta. repeat split; try reflexivity. vm_compute. discriminate.
Qed.

Lemma setNotFound_registers (imp : string -> ModuleDefault + exn)
    (g : SiteGenerator) (renderer : Renderer + string) :
  JsMap.get (routes (setNotFound imp g renderer)) ("/" ++ notFoundFilename g)
  = Some (as_renderer imp renderer).
Proof. unfold setNotFound, with_routes. cbn [routes]. apply get_set_same. Qed.

(** C10 (amended). [setNotFound] registers the renderer under slash + the
    [notFoundFilename] of the moment of the call, and the handler looks the
    fallback up under slash + the [notFoundFilename] of the moment of the
    request.  When [setNotFoundFilename] is called afterwards with a name
    under which no route is registered, the renderer stays registered under
    the old name only, and every request that matches no route and no
    static file is answered 404 with the fixed text. *)
Theorem C10_not_found_filename_changed_later
    (imp : string -> ModuleDefault + exn) (g : SiteGenerator)
    (renderer : Renderer + string) (filename url : string) (w : world) :
  let g1 := setNotFound imp g renderer in
  let g2 := setNotFoundFilename g1 filename in
  JsMap.get (routes g1) ("/" ++ filename) = None ->
  resolve g2 (request_path url) = None ->
  serve_static (staticMappings g2) (request_path url) w = Ok None w ->
  JsMap.get (routes g2) ("/" ++ notFoundFilename g) = Some (as_renderer imp renderer)
  /\ filename <> notFoundFilename g
  /\ reqHandler g2 url w
     = Ok {| status := 404; body := BString no_route_message |} w.
Proof.
  intros g1 g2 Hfree Hroute Hstatic.
  assert (Hreg : JsMap.get (routes g1) ("/" ++ notFoundFilename g)
                 = Some (as_renderer imp renderer))
    by apply setNotFound_registers.
  split; [exact Hreg|]. split.
  - intros ->. rewrite Hreg in Hfree. discriminate.
  - rewrite (reqHandler_unmatched g2 url w Hroute Hstatic).
    cbn [notFoundFilename g2 setNotFoundFilename routes].
    fold g1. now rewrite Hfree.
Qed.

(** C10, for a site whose not-found page is registered under [/404.html]
    before the name is changed to [missing.html]. *)
Lemma C10_not_found_filename_witness :
  let g2 := setNotFoundFilename
              (setNotFound no_modules new_SiteGenerator (inl (page "missing")))
              "missing.html" in
  JsMap.get (routes g2) "/404.html" = Some (page "missing")
  /\ "missing.html" <> "404.html"
  /\ reqHandler g2 "http://localhost:3000/nope" empty_world
     = Ok {| status := 404; body := BString no_route_message |} empty_world.
Proof.
  exact (C10_not_found_filename_changed_later no_modules new_SiteGenerator
           (inl (page "missing")) "missing.html" "http://localhost:3000/nope"
           empty_world eq_refl eq_refl eq_refl).
Defined.

(** C10 as stated fails: a route is registered at [/missing.html], then
    [setNotFound] is called, then the not-found filename is set to the
    different name [missing.html]; an unmatched request is answered with the
    page of that route, not with the fixed text. *)
Lemma C10_route_under_new_name_answers :
  let g0 := setRoute no_modules new_SiteGenerator "/missing.html"
              (inl (page "CUSTOM")) in
  let g2 := setNotFoundFilename
              (setNotFound no_modules g0 (inl (page "missing")))
              "missing.html" in
  "missing.html" <> notFoundFilename g0
  /\ resolve g2 (request_path "http://localhost:3000/nope") = None
  /\ reqHandler g2 "http://localhost:3000/nope" empty_world
     = Ok {| status := 404; body := BString "CUSTOM" |} empty_world
  /\ reqHandler g2 "http://localhost:3000/nope" empty_world
     <> Ok {| status := 404; body := BString no_route_message |} empty_world.
Proof.
  cbv zeta. repeat split; try reflexivity; vm_compute; discriminate.
Qed.

(* ================================================================== *)
(** * Paths: segments and normalization *)
(* ================================================================== *)

Lemma split_slash_cons (s : string) : exists h t, split_slash s = h :: t.
Proof.
  induction s as [|c s (h & t & IH)]; simpl; [now eauto|].
  destruct (Ascii.eqb c slash); [now eauto|]. rewrite IH. eauto.
Qed.

(** The segments of [a/b] are those of [a] followed by those of [b]. *)
Lemma split_slash_app (a b : string) :
  split_slash (a ++ "/" ++ b) = (split_slash a ++ split_slash b)%list.
Proof.
  induction a as [|c a IH].
  - reflexivity.
  - cbn [append split_slash] in *. rewrite IH.
    destruct (Ascii.eqb c slash); [reflexivity|].
    destruct (split_slash_cons a) as (h & t & ->). reflexivity.
Qed.

Lemma split_slash_no_slash (s : string) :
  Forall (fun seg => has_slash seg = false) (split_slash s).
Proof.
  induction s as [|c s IH]; simpl.
  - repeat constructor.
  - destruct (Ascii.eqb c slash) eqn:E.
    + constructor; [reflexivity | exact IH].
    + destruct (split_slash s) as [|h t]; inversion IH; subst;
        constructor; simpl; try rewrite E; auto.
Qed.

(** A string without slash is its own single segment. *)
Lemma split_slash_single (s : string) :
  has_slash s = false -> split_slash s = [s].
Proof.
  induction s as [|c s IH]; simpl; [reflexivity|].
  intros H. apply orb_false_iff in H as [Hc Hs].
  rewrite Hc, (IH Hs). reflexivity.
Qed.

(** Splitting undoes joining with slashes. *)
Lemma split_concat (segs : list string) :
  segs <> [] ->
  Forall (fun seg => has_slash seg = false) segs ->
  split_slash (String.concat "/" segs) = segs.
Proof.
  induction segs as [|x segs IH]; [congruence|].
  intros _ HF. inversion HF as [|? ? Hx Hsegs]; subst.
  destruct segs as [|y segs].
  - simpl. now apply split_slash_single.
  - change (String.concat "/" (x :: y :: segs))
      with (x ++ "/" ++ String.concat "/" (y :: segs)).
    rewrite split_slash_app, split_slash_single by assumption.
    rewrite IH by (congruence || assumption). reflexivity.
Qed.

(** ** The stack of [normalizeString] *)

Lemma norm_step_cases (allow : bool) (stack : list string) (seg : string) :
  (seg = "" \/ seg = ".") /\ norm_step allow stack seg = stack
  \/ seg = ".." /\ norm_step allow stack seg
                   = match stack with
                     | top :: rest =>
                         if top =? ".."
                         then (if allow then seg :: stack else stack)
                         else rest
                     | [] => if allow then [seg] else []
                     end
  \/ plain seg /\ norm_step allow stack seg = seg :: stack.
Proof.
  unfold norm_step, plain.
  destruct (String.eqb_spec seg ""); [left; auto|].
  destruct (String.eqb_spec seg "."); [left; auto|].
  destruct (String.eqb_spec seg ".."); [right; left; auto|].
  right; right; auto.
Qed.

Lemma norm_step_normal (allow : bool) (stack : list string) (seg : string) :
  normal_stack allow stack -> normal_stack allow (norm_step allow stack seg).
Proof.
  intros (names & ups & -> & Hn & Hu & Ha).
  destruct (norm_step_cases allow (names ++ ups) seg)
    as [[_ ->] | [[Hs ->] | [Hp ->]]].
  - now exists names, ups.
  - destruct names as [|x names]; cbn [app].
    + destruct ups as [|u ups].
      * destruct allow.
        -- exists [], [seg]. repeat split; auto. discriminate.
        -- now exists [], [].
      * inversion Hu; subst. cbn.
        destruct allow.
        -- exists [], (".." :: ".." :: ups). repeat split; auto. discriminate.
        -- specialize (Ha eq_refl). discriminate.
    + inversion Hn as [|? ? Hx Hnames]; subst.
      destruct Hx as (_ & _ & Hx). apply String.eqb_neq in Hx. rewrite Hx.
      now exists names, ups.
  - exists (seg :: names), ups. repeat split; auto.
Qed.

Lemma fold_norm_normal (allow : bool) (segs stack : list string) :
  normal_stack allow stack ->
  normal_stack allow (fold_left (norm_step allow) segs stack).
Proof.
  revert stack; induction segs as [|s segs IH]; intros stack H; simpl; auto.
  apply IH. now apply norm_step_normal.
Qed.

(** Segments without [..] only push on the stack. *)
Lemma fold_norm_push (allow : bool) (segs stack : list string) :
  ~ In ".." segs ->
  exists pushed,
    fold_left (norm_step allow) segs stack = (pushed ++ stack)%list
    /\ Forall plain pushed.
Proof.
  revert stack; induction segs as [|s segs IH]; intros stack Hn; simpl.
  - exists []. split; [reflexivity|constructor].
  - assert (Hs : s <> "..") by (intros ->; apply Hn; now left).
    assert (Hn' : ~ In ".." segs) by (intros H; apply Hn; now right).
    destruct (norm_step_cases allow stack s) as [[_ ->] | [[E _] | [Hp ->]]].
    + now apply IH.
    + contradiction.
    + destruct (IH (s :: stack) Hn') as (pushed & -> & Hpushed).
      exists (pushed ++ [s])%list. split; [now rewrite <- app_assoc|].
      apply Forall_app. split; [exact Hpushed|]. now constructor.
Qed.

(** Names are pushed one by one. *)
Lemma fold_norm_names (allow : bool) (names stack : list string) :
  Forall plain names ->
  fold_left (norm_step allow) names stack = (rev names ++ stack)%list.
Proof.
  revert stack; induction names as [|x names IH]; intros stack HF; simpl; auto.
  inversion HF as [|? ? Hx Hnames]; subst.
  destruct (norm_step_cases allow stack x) as [[[E|E] _] | [[E _] | [_ ->]]];
    try (destruct Hx as (? & ? & ?); contradiction).
  rewrite IH by assumption. now rewrite <- app_assoc.
Qed.

(** A run of [..] at the start of a relative path is kept. *)
Lemma fold_norm_ups (ups : list string) :
  Forall (fun seg => seg = "..") ups ->
  fold_left (norm_step true) ups [] = ups
  /\ forall more, Forall (fun seg => seg = "..") more ->
       fold_left (norm_step true) more ups = (more ++ ups)%list.
Proof.
  assert (Hgen : forall more stack,
             Forall (fun seg => seg = "..") more ->
             Forall (fun seg => seg = "..") stack ->
             fold_left (norm_step true) more stack = (more ++ stack)%list).
  { induction more as [|m more IH]; intros stack Hm Hs; simpl; auto.
    inversion Hm; subst.
    assert (E : norm_step true stack ".." = ".." :: stack).
    { unfold norm_step. cbn. destruct stack as [|t stack]; auto.
      inversion Hs; subst. reflexivity. }
    rewrite E, IH by (auto; constructor; auto).
    clear -H2. induction more as [|m more IH]; auto.
    inversion H2; subst. cbn. f_equal. apply IH. assumption. }
  intros Hu. split.
  - rewrite Hgen by (auto; constructor). apply app_nil_r.
  - intros more Hm. now apply Hgen.
Qed.

Lemma rev_all_same (l : list string) :
  Forall (fun seg => seg = "..") l -> rev l = l.
Proof.
  intros H. induction H as [|x l Hx Hl IH]; auto.
  simpl. rewrite IH. subst x. clear -Hl.
  induction Hl as [|y l Hy Hl IH]; auto. subst y. simpl. now rewrite IH.
Qed.

(** Normalizing normalized segments changes nothing. *)
Lemma norm_segs_idem (allow : bool) (segs : list string) :
  norm_segs allow (norm_segs allow segs) = norm_segs allow segs.
Proof.
  unfold norm_segs.
  destruct (fold_norm_normal allow segs [])
    as (names & ups & E & Hn & Hu & Ha).
  { exists [], []. repeat split; auto. }
  rewrite E. f_equal.
  rewrite rev_app_distr, fold_left_app, (rev_all_same ups Hu).
  assert (Hups : fold_left (norm_step allow) ups [] = ups).
  { destruct allow.
    - apply (proj1 (fold_norm_ups ups Hu)).
    - now rewrite (Ha eq_refl). }
  rewrite Hups, fold_norm_names, rev_involutive; auto.
  apply Forall_rev. assumption.
Qed.

Lemma norm_segs_output (allow : bool) (segs : list string) :
  Forall (fun seg => has_slash seg = false) segs ->
  Forall (fun seg => has_slash seg = false /\ seg <> "")
         (norm_segs allow segs).
Proof.
  intros HF. unfold norm_segs. apply Forall_rev.
  assert (Hgen : forall stack,
             Forall (fun seg => has_slash seg = false /\ seg <> "") stack ->
             Forall (fun seg => has_slash seg = false /\ seg <> "")
                    (fold_left (norm_step allow) segs stack)).
  { induction HF as [|s segs Hs _ IH]; intros stack Hst; simpl; auto.
    apply IH.
    destruct (norm_step_cases allow stack s) as [[_ ->] | [[E ->] | [Hp ->]]];
      auto.
    - destruct stack as [|t stack].
      + destruct allow; constructor; auto. subst s. split; [auto | discriminate].
      + inversion Hst; subst.
        destruct (t =? ".."); auto. destruct allow; auto.
        constructor; auto. split; [auto | discriminate].
    - constructor; auto. split; [auto | apply Hp]. }
  apply Hgen. constructor.
Qed.

Lemma norm_segs_skip_front (allow : bool) (segs : list string) :
  norm_segs allow ("" :: segs) = norm_segs allow segs.
Proof. reflexivity. Qed.

Lemma norm_segs_skip_back (allow : bool) (segs : list string) :
  norm_segs allow (segs ++ [""]) = norm_segs allow segs.
Proof. unfold norm_segs. now rewrite fold_left_app. Qed.

Lemma concat_head (x : string) (rest : list string) :
  exists tail, String.concat "/" (x :: rest) = x ++ tail.
Proof.
  destruct rest as [|y rest].
  - exists "". simpl. now rewrite app_empty_r.
  - now exists ("/" ++ String.concat "/" (y :: rest)).
Qed.

Lemma isAbsolute_app (a b : string) :
  a <> "" -> isAbsolute (a ++ b) = isAbsolute a.
Proof. destruct a; [congruence | reflexivity]. Qed.

Lemma isAbsolute_no_slash (x tail : string) :
  has_slash x = false -> x <> "" -> isAbsolute (x ++ tail) = false.
Proof.
  destruct x as [|c x]; [congruence|]. intros H _.
  cbn in H. apply orb_false_iff in H as [H _].
  unfold isAbsolute. cbn. unfold slash in H. now rewrite H.
Qed.

(** A normalized path denotes the same location as the path itself. *)
Lemma locate_normalize (path : string) :
  path <> "" -> locate (normalize path) = locate path.
Proof.
  intros Hne. unfold normalize.
  destruct (String.eqb_spec path ""); [contradiction|].
  unfold locate at 2.
  set (abs := isAbsolute path).
  set (segs := norm_segs (negb abs) (split_slash path)).
  assert (Hidem : norm_segs (negb abs) segs = segs) by apply norm_segs_idem.
  assert (Hout : Forall (fun seg => has_slash seg = false /\ seg <> "") segs)
    by (apply norm_segs_output, split_slash_no_slash).
  destruct segs as [|x rest] eqn:Esegs.
  - cbn [String.concat]. cbn [String.eqb].
    destruct abs; [reflexivity|].
    destruct (endsWith path "/"); reflexivity.
  - inversion Hout as [|? ? [Hx Hx'] Hrest]; subst.
    assert (Hsl : Forall (fun seg => has_slash seg = false) (x :: rest)).
    { eapply Forall_impl; [|exact Hout]. now intros ? []. }
    destruct (concat_head x rest) as [tail Htail].
    set (p := String.concat "/" (x :: rest)) in *.
    assert (Hp : p <> "") by (rewrite Htail; destruct x; [congruence | discriminate]).
    destruct (String.eqb_spec p ""); [contradiction|].
    assert (Hsplit : split_slash p = x :: rest)
      by (apply split_concat; [discriminate | assumption]).
    unfold locate.
    destruct abs.
    + cbn [negb] in *.
      replace (isAbsolute ("/" ++ p ++ (if endsWith path "/" then "/" else "")))
        with true by reflexivity.
      cbn [negb]. f_equal.
      change ("/" ++ p ++ (if endsWith path "/" then "/" else ""))
        with ("" ++ "/" ++ (p ++ (if endsWith path "/" then "/" else ""))).
      rewrite split_slash_app. cbn [split_slash app].
      rewrite norm_segs_skip_front.
      destruct (endsWith path "/").
      * change (p ++ "/") with (p ++ "/" ++ "").
        rewrite split_slash_app, Hsplit. cbn [split_slash].
        now rewrite norm_segs_skip_back.
      * now rewrite app_empty_r, Hsplit.
    + cbn [negb append] in *.
      assert (Habs : isAbsolute (p ++ (if endsWith path "/" then "/" else ""))
                     = false).
      { rewrite Htail, app_assoc_s. now apply isAbsolute_no_slash. }
      rewrite Habs. cbn [negb]. f_equal.
      destruct (endsWith path "/").
      * change (p ++ "/") with (p ++ "/" ++ "").
        rewrite split_slash_app, Hsplit. cbn [split_slash].
        now rewrite norm_segs_skip_back.
      * now rewrite app_empty_r, Hsplit.
Qed.

(* ================================================================== *)
(** * The traversal guard *)
(* ================================================================== *)

Lemma two_dots_dot (s : string) :
  starts_dot s = false -> starts_two_dots s = false.
Proof.
  destruct s as [|c [|d s]]; simpl; auto. now intros ->.
Qed.

(** After the dots of a match, the output does not go on with a dot. *)
Lemma replace_skipping_no_dot (s : string) :
  starts_dot (replace_slash_dots_from true s) = false.
Proof.
  induction s as [|c s IH]; simpl; [reflexivity|].
  destruct (Ascii.eqb c dot) eqn:Ec; [exact IH|].
  destruct (Ascii.eqb c slash && starts_two_dots s); [exact IH|].
  simpl. exact Ec.
Qed.

Lemma replace_keeps_no_dot (s : string) :
  starts_dot s = false -> starts_dot (replace_slash_dots_from false s) = false.
Proof.
  destruct s as [|c s]; simpl; [reflexivity|]. intros Ec.
  destruct (Ascii.eqb c slash && starts_two_dots s).
  - apply replace_skipping_no_dot.
  - simpl. exact Ec.
Qed.

Lemma replace_keeps_no_two_dots (s : string) :
  starts_two_dots s = false ->
  starts_two_dots (replace_slash_dots_from false s) = false.
Proof.
  destruct s as [|c s]; [reflexivity|]. intros H2.
  cbn [replace_slash_dots_from andb].
  destruct (Ascii.eqb c slash && starts_two_dots s).
  - apply two_dots_dot, replace_skipping_no_dot.
  - destruct (Ascii.eqb c dot) eqn:Ec.
    + assert (Hs : starts_dot s = false).
      { destruct s as [|d s]; [reflexivity|]. simpl in *.
        now rewrite Ec in H2. }
      apply (replace_keeps_no_dot s) in Hs.
      destruct (replace_slash_dots_from false s) as [|d r]; [reflexivity|].
      simpl in *. rewrite Hs. apply andb_false_r.
    + destruct (replace_slash_dots_from false s) as [|d r]; [reflexivity|].
      simpl. now rewrite Ec.
Qed.

(** No match of the pattern is left in the output of the replacement. *)
Lemma replace_leaves_no_match (skipping : bool) (s : string) :
  contains_slash_dots (replace_slash_dots_from skipping s) = false.
Proof.
  revert skipping; induction s as [|c s IH]; intros skipping; [reflexivity|].
  cbn [replace_slash_dots_from].
  destruct (skipping && Ascii.eqb c dot); [apply IH|].
  destruct (Ascii.eqb c slash && starts_two_dots s) eqn:E; [apply IH|].
  cbn [contains_slash_dots]. rewrite IH, orb_false_r.
  destruct (Ascii.eqb c slash); [|reflexivity].
  cbn [andb] in *. now apply replace_keeps_no_two_dots.
Qed.

(** The three equations of the replacement: a character that starts no
    match is kept; a match, that is a slash with all the dots after it, two
    at least, is deleted; and the scan goes on after it. *)
Lemma replace_keeps_char (c : ascii) (s : string) :
  Ascii.eqb c slash && starts_two_dots s = false ->
  replace_slash_dots (String c s) = String c (replace_slash_dots s).
Proof. unfold replace_slash_dots. cbn. now intros ->. Qed.

Lemma replace_skipping_same (s : string) :
  starts_dot s = false ->
  replace_slash_dots_from true s = replace_slash_dots_from false s.
Proof. destruct s as [|c s]; [reflexivity|]. cbn. now intros ->. Qed.

Lemma replace_skips_dots (n : nat) (rest : string) :
  replace_slash_dots_from true (dots n ++ rest)
  = replace_slash_dots_from true rest.
Proof. induction n as [|n IH]; [reflexivity|]. cbn. exact IH. Qed.

Lemma replace_deletes_match (n : nat) (rest : string) :
  2 <= n ->
  starts_dot rest = false ->
  replace_slash_dots ("/" ++ dots n ++ rest) = replace_slash_dots rest.
Proof.
  intros Hn Hrest. unfold replace_slash_dots.
  destruct n as [|[|n]]; try lia.
  cbn -[dots]. cbn [dots append starts_two_dots].
  rewrite !Ascii.eqb_refl. cbn [andb].
  change (String dot (String dot (dots n ++ rest)))
    with (dots (S (S n)) ++ rest).
  rewrite replace_skips_dots. now apply replace_skipping_same.
Qed.

(** A path in which the pattern does not occur is left as it is. *)
Lemma replace_without_match (s : string) :
  contains_slash_dots s = false -> replace_slash_dots s = s.
Proof.
  unfold replace_slash_dots.
  induction s as [|c s IH]; [reflexivity|].
  cbn [contains_slash_dots replace_slash_dots_from andb].
  intros H. apply orb_false_iff in H as [Hc Hs].
  now rewrite Hc, IH.
Qed.

Lemma split_head_char (s : string) (d : ascii) (h : string) (tl : list string) :
  split_slash s = String d h :: tl -> exists r, s = String d r.
Proof.
  destruct s as [|c s]; simpl; [discriminate|].
  destruct (Ascii.eqb c slash); [discriminate|].
  destruct (split_slash s); intros [= -> _ _]; eauto.
Qed.

Lemma split_head_two_dots (s : string) (tl : list string) :
  split_slash s = ".." :: tl -> starts_two_dots s = true.
Proof.
  destruct s as [|c s]; simpl; [discriminate|].
  destruct (Ascii.eqb c slash); [discriminate|].
  destruct (split_slash s) as [|h t] eqn:E; intros Heq;
    inversion Heq; subst.
  apply split_head_char in E as [r ->]. reflexivity.
Qed.

Lemma split_tail_two_dots (s : string) :
  In ".." (tl (split_slash s)) -> contains_slash_dots s = true.
Proof.
  induction s as [|c s IH]; simpl; [contradiction|].
  destruct (Ascii.eqb c slash) eqn:Ec; cbn [tl andb].
  - destruct (split_slash s) as [|h t] eqn:E; [contradiction|].
    intros [-> | Hin].
    + now rewrite (split_head_two_dots s t E).
    + rewrite IH by exact Hin. apply orb_true_r.
  - destruct (split_slash s) as [|h t] eqn:E; cbn [tl]; [contradiction|].
    intros Hin. now rewrite IH.
Qed.

(** A path in which the pattern does not occur, and which does not start
    with two dots, has no [..] segment. *)
Lemma no_dotdot_segment (s : string) :
  starts_two_dots s = false ->
  contains_slash_dots s = false ->
  ~ In ".." (split_slash s).
Proof.
  intros H2 Hc Hin.
  destruct (split_slash s) as [|h t] eqn:E; [contradiction|].
  destruct Hin as [-> | Hin].
  - rewrite (split_head_two_dots s t E) in H2. discriminate.
  - assert (Ht : In ".." (tl (split_slash s))) by now rewrite E.
    rewrite (split_tail_two_dots s Ht) in Hc. discriminate.
Qed.

Lemma sanitize_no_dotdot (route path : string) :
  contains_slash_dots (sanitize route path) = false
  /\ ~ In ".." (split_slash (sanitize route path)).
Proof.
  unfold sanitize, replace_slash_dots.
  set (rest := substring path (strlen route) None).
  set (dirPath := if startsWith rest "/" then rest else "/" ++ rest).
  assert (Hslash : forall x, starts_two_dots ("/" ++ x) = false)
    by (intros [|d x]; reflexivity).
  assert (Hd : starts_two_dots dirPath = false).
  { unfold dirPath. destruct (startsWith rest "/") eqn:E; [|apply Hslash].
    apply startsWith_iff in E as [r E]. rewrite E. apply Hslash. }
  split; [apply replace_leaves_no_match|].
  apply no_dotdot_segment.
  - now apply replace_keeps_no_two_dots.
  - apply replace_leaves_no_match.
Qed.

(** Joining a path without [..] segment under a directory stays inside
    the directory. *)
Lemma joined_within (dir s : string) :
  dir <> "" ->
  ~ In ".." (split_slash s) ->
  lexically_within dir (joinPaths dir s).
Proof.
  intros Hdir Hs. unfold joinPaths, lexically_within.
  destruct (String.eqb_spec dir ""); [contradiction|].
  destruct (String.eqb_spec s "").
  - rewrite locate_normalize by assumption.
    split; [reflexivity|]. exists [].
    split; [now rewrite app_nil_r|constructor].
  - rewrite locate_normalize by (destruct dir; [congruence | discriminate]).
    unfold locate. cbn [fst snd].
    rewrite isAbsolute_app by assumption.
    split; [reflexivity|].
    rewrite split_slash_app. unfold norm_segs. rewrite fold_left_app.
    destruct (fold_norm_push (negb (isAbsolute dir)) (split_slash s)
                (fold_left (norm_step (negb (isAbsolute dir))) (split_slash dir) [])
                Hs) as (pushed & -> & Hpushed).
    exists (rev pushed). split; [apply rev_app_distr|].
    apply Forall_rev. exact Hpushed.
Qed.

(** Going up is not staying inside, also for a directory that normalizes
    to no name. *)
Example going_up_is_not_within :
  ~ lexically_within "." "../../etc/passwd"
  /\ ~ lexically_within "./" "../x"
  /\ ~ lexically_within ".." "../../etc/passwd"
  /\ ~ lexically_within "a" "a/../b".
Proof.
  repeat split; intros (_ & rest & Hrest & Hplain); vm_compute in Hrest.
  - destruct rest as [|x rest]; [discriminate|].
    injection Hrest as <- _. inversion Hplain as [|? ? (_ & _ & H) _]. congruence.
  - destruct rest as [|x rest]; [discriminate|].
    injection Hrest as <- _. inversion Hplain as [|? ? (_ & _ & H) _]. congruence.
  - destruct rest as [|x rest]; [discriminate|].
    injection Hrest as <- _. inversion Hplain as [|? ? (_ & _ & H) _]. congruence.
  - discriminate.
Qed.

(** C3 (amended). For a static mapping whose directory is not the empty
    string, and a requested path that begins with the mapping's prefix and
    contains a slash followed by two dots or more: the sanitized path (prefix
    stripped, a leading slash put in front if absent, every slash followed by
    two dots or more deleted with its dots) contains no such pattern and no
    [..] segment, and joined under the mapped directory it denotes a
    location inside that directory: the location of the directory followed
    by names only, also when the directory is [.], [./] or [..]. *)
Theorem C3_sanitized_path_stays_inside (route staticDir path : string) :
  staticDir <> "" ->
  startsWith path route = true ->
  contains_slash_dots path = true ->
  contains_slash_dots (sanitize route path) = false
  /\ ~ In ".." (split_slash (sanitize route path))
  /\ lexically_within staticDir (joinPaths staticDir (sanitize route path)).
Proof.
  intros Hdir _ _.
  destruct (sanitize_no_dotdot route path) as [Hc Hs].
  repeat split; try assumption; now apply joined_within.
Qed.

(** C3, for the mapping of [/assets/] to [site-assets] and a request that
    climbs twice. *)
Lemma C3_sanitized_path_witness :
  sanitize "/assets/" "/assets/../.../etc/passwd" = "/etc/passwd"
  /\ joinPaths "site-assets" (sanitize "/assets/" "/assets/../.../etc/passwd")
     = "site-assets/etc/passwd"
  /\ lexically_within "site-assets"
       (joinPaths "site-assets" (sanitize "/assets/" "/assets/../.../etc/passwd"))
  /\ joinPaths ".." (sanitize "/assets/" "/assets/../.../etc/passwd")
     = "../etc/passwd"
  /\ lexically_within ".."
       (joinPaths ".." (sanitize "/assets/" "/assets/../.../etc/passwd")).
Proof.
  split; [reflexivity|]. split; [reflexivity|].
  split; [|split; [reflexivity|]].
  - apply (C3_sanitized_path_stays_inside "/assets/" "site-assets"
             "/assets/../.../etc/passwd").
    + discriminate.
    + reflexivity.
    + reflexivity.
  - apply (C3_sanitized_path_stays_inside "/assets/" ".."
             "/assets/../.../etc/passwd").
    + discriminate.
    + reflexivity.
    + reflexivity.
Defined.

(** C3 as stated fails for a mapping whose directory is the empty string
    ([mapStatic] accepts it): [path.join] drops an empty first argument, so
    the sanitized path, which is absolute, is the whole answer.  The request
    for [/.../etc/passwd] under the prefix [/] is served the file
    [/etc/passwd], outside the directory mapped. *)
Lemma C3_empty_directory_escapes :
  let w := {| fs := [((true, ["etc"]), Directory);
                     ((true, ["etc"; "passwd"]), File "root:x:0:0")];
              console := [] |} in
  (exists g, mapStatic new_SiteGenerator "/" "" = Returned g
     /\ reqHandler g "http://localhost:3000/.../etc/passwd" w
        = Ok {| status := 200; body := BunFile "/etc/passwd" |} w)
  /\ startsWith "/.../etc/passwd" "/" = true
  /\ contains_slash_dots "/.../etc/passwd" = true
  /\ joinPaths "" (sanitize "/" "/.../etc/passwd") = "/etc/passwd"
  /\ ~ lexically_within "" (joinPaths "" (sanitize "/" "/.../etc/passwd")).
Proof.
  cbv zeta. split; [eexists; split; reflexivity|].
  repeat split.
  intros [Habs _]. vm_compute in Habs. discriminate.
Qed.

(* ================================================================== *)
(** * Output paths of the build *)
(* ================================================================== *)

Lemma endsWith_snoc (x : string) (c : ascii) :
  endsWith (x ++ String c "") "/" = Ascii.eqb c slash.
Proof.
  destruct (Ascii.eqb_spec c slash) as [-> | Hne].
  - apply (endsWith_app x "/").
  - apply (last_char_mismatch x "" c "/"%char). exact Hne.
Qed.

(** Whether a path ends with a slash is decided by its last part. *)
Lemma endsWith_app_r (a r : string) :
  r <> "" -> endsWith (a ++ r) "/" = endsWith r "/".
Proof.
  intros Hr. destruct (string_snoc r Hr) as (r0 & c & ->).
  rewrite <- app_assoc_s. now rewrite !endsWith_snoc.
Qed.

Lemma has_slash_app (a b : string) :
  has_slash (a ++ b) = has_slash a || has_slash b.
Proof.
  induction a as [|c a IH]; simpl; [reflexivity|].
  now rewrite IH, orb_assoc.
Qed.

Lemma no_slash_no_trailing (x : string) :
  has_slash x = false -> endsWith x "/" = false.
Proof.
  intros Hx. destruct (endsWith x "/") eqn:E; [|reflexivity].
  apply endsWith_iff in E as [t ->].
  rewrite has_slash_app in Hx. apply orb_false_iff in Hx as [_ Hx].
  discriminate.
Qed.

Lemma concat_no_trailing (segs : list string) :
  Forall (fun seg => has_slash seg = false /\ seg <> "") segs ->
  endsWith (String.concat "/" segs) "/" = false.
Proof.
  induction segs as [|x segs IH]; intros HF; [reflexivity|].
  inversion HF as [|? ? [Hx Hx'] Hsegs]; subst.
  destruct segs as [|y segs].
  - now apply no_slash_no_trailing.
  - change (String.concat "/" (x :: y :: segs))
      with (x ++ "/" ++ String.concat "/" (y :: segs)).
    rewrite <- app_assoc_s, endsWith_app_r; [now apply IH|].
    destruct (concat_head y segs) as [tail ->].
    inversion Hsegs as [|? ? [_ Hy] _]; subst.
    destruct y; [congruence | discriminate].
Qed.

(** [normalize] keeps a trailing slash. *)
Lemma normalize_trailing (path : string) :
  endsWith path "/" = true -> endsWith (normalize path) "/" = true.
Proof.
  intros Ht. unfold normalize.
  destruct (String.eqb_spec path "") as [-> | _]; [discriminate|].
  rewrite Ht.
  destruct (String.concat "/" _ =? "").
  - destruct (isAbsolute path); reflexivity.
  - rewrite <- !app_assoc_s. apply endsWith_app.
Qed.

(** [normalize] adds a trailing slash only when the answer is the root. *)
Lemma normalize_no_trailing (path : string) :
  endsWith path "/" = false ->
  normalize path <> "/" ->
  endsWith (normalize path) "/" = false.
Proof.
  intros Ht. unfold normalize. rewrite Ht.
  destruct (path =? ""); [reflexivity|].
  set (segs := norm_segs (negb (isAbsolute path)) (split_slash path)).
  assert (Hout : Forall (fun seg => has_slash seg = false /\ seg <> "") segs)
    by (apply norm_segs_output, split_slash_no_slash).
  assert (Hc : endsWith (String.concat "/" segs) "/" = false)
    by now apply concat_no_trailing.
  destruct (String.eqb_spec (String.concat "/" segs) "") as [E|E].
  - destruct (isAbsolute path); [congruence | reflexivity].
  - intros _. rewrite app_empty_r.
    rewrite endsWith_app_r; assumption.
Qed.

Lemma joinPaths_trailing (a b : string) :
  endsWith b "/" = true -> endsWith (joinPaths a b) "/" = true.
Proof.
  intros Hb. assert (Hne : b <> "") by (intros ->; discriminate).
  unfold joinPaths.
  destruct (String.eqb_spec b ""); [contradiction|].
  destruct (a =? ""); apply normalize_trailing; [exact Hb|].
  rewrite <- app_assoc_s, endsWith_app_r; assumption.
Qed.

Lemma joinPaths_no_trailing (a b : string) :
  b <> "" -> endsWith b "/" = false ->
  joinPaths a b <> "/" ->
  endsWith (joinPaths a b) "/" = false.
Proof.
  intros Hne Hb. unfold joinPaths.
  destruct (String.eqb_spec b ""); [contradiction|].
  destruct (a =? ""); apply normalize_no_trailing; [exact Hb|].
  rewrite <- app_assoc_s, endsWith_app_r; assumption.
Qed.

(* ================================================================== *)
(** * The world: what the file system calls keep *)
(* ================================================================== *)

Lemma bind_ok {A B} (m : M A) (k : A -> M B) (w w' : world) (b : B) :
  bind m k w = Ok b w' -> exists a w1, m w = Ok a w1 /\ k a w1 = Ok b w'.
Proof.
  unfold bind. destruct (m w) as [a w1| |]; try discriminate. eauto.
Qed.

Lemma for_of_app {A} (xs ys : list A) (body : A -> M unit) (w : world) :
  for_of (xs ++ ys) body w = (for_of xs body ;;; for_of ys body) w.
Proof.
  revert w; induction xs as [|x xs IH]; intros w; simpl.
  - reflexivity.
  - unfold bind in *. destruct (body x w); auto.
Qed.

Lemma fs_lookup_set_same (f : filesystem) (l : loc) (n : node) :
  snd l <> [] -> fs_lookup (JsMap.set f l n) l = Some n.
Proof.
  unfold fs_lookup. destruct (snd l); [congruence|].
  intros _. apply get_set_same.
Qed.

Lemma fs_lookup_set_other (f : filesystem) (l L : loc) (n : node) :
  L <> l -> fs_lookup (JsMap.set f l n) L = fs_lookup f L.
Proof.
  intros Hne. unfold fs_lookup. destruct (snd L); [reflexivity|].
  apply get_set_other. congruence.
Qed.

(** Creating directories leaves every existing node in place. *)
Lemma mkdirs_keeps (ls : list loc) (last : errno) (f f' : filesystem)
    (L : loc) (n : node) :
  mkdirs f ls last = inl f' ->
  fs_lookup f L = Some n -> fs_lookup f' L = Some n.
Proof.
  revert f; induction ls as [|l ls IH]; intros f; simpl.
  - now intros [= ->].
  - destruct (fs_lookup f l) as [[c|]|] eqn:El.
    + discriminate.
    + apply IH.
    + intros Hm HL. apply (IH _ Hm).
      rewrite fs_lookup_set_other; [assumption | congruence].
Qed.

Lemma mkdir_recursive_keeps (path : string) (w w' : world) (L : loc) (n : node) :
  mkdir_recursive path w = Ok tt w' ->
  fs_lookup (fs w) L = Some n -> fs_lookup (fs w') L = Some n.
Proof.
  unfold mkdir_recursive, update_fs.
  destruct (path =? ""); [discriminate|].
  destruct (mkdirs _ _ _) as [f'|e] eqn:E; [|discriminate].
  intros [= <-] HL. cbn [fs]. eapply mkdirs_keeps; eassumption.
Qed.

(** A successful write puts the data at the location of the path and
    leaves the other files as they were. *)
Lemma writeFile_ok (path : string) (data : Uint8Array) (w w' : world) :
  writeFile path data w = Ok tt w' ->
  fs_lookup (fs w') (locate path) = Some (File data)
  /\ forall L c, L <> locate path ->
       fs_lookup (fs w) L = Some (File c) ->
       fs_lookup (fs w') L = Some (File c).
Proof.
  unfold writeFile, update_fs.
  destruct (path =? ""); [discriminate|].
  destruct (endsWith path "/"); [discriminate|].
  assert (Hroot : snd (locate path) = [] ->
                  fs_lookup (fs w) (locate path) = Some Directory)
    by (unfold fs_lookup; now intros ->).
  destruct (fs_lookup (fs w) (locate path)) as [[c|]|] eqn:El.
  - destruct (mkdirs _ _ _) as [f'|e] eqn:E; [|discriminate].
    intros [= <-]. cbn [fs]. split.
    + apply fs_lookup_set_same. intros H0. specialize (Hroot H0). discriminate.
    + intros L c' HL Hc. rewrite fs_lookup_set_other by assumption.
      eapply mkdirs_keeps; eassumption.
  - discriminate.
  - destruct (mkdirs _ _ _) as [f'|e] eqn:E; [|discriminate].
    intros [= <-]. cbn [fs]. split.
    + apply fs_lookup_set_same. intros H0. specialize (Hroot H0). discriminate.
    + intros L c' HL Hc. rewrite fs_lookup_set_other by assumption.
      eapply mkdirs_keeps; eassumption.
Qed.

Lemma console_log_fs (line : string) (w w' : world) :
  console_log line w = Ok tt w' -> fs w' = fs w.
Proof. unfold console_log. now intros [= <-]. Qed.

(** The data of a render result does not depend on the world, which it
    leaves as it is. *)
Lemma render_data_world (render : RenderResult) (res : string + Uint8Array)
    (w w1 : world) :
  render_data render w = Ok res w1 ->
  w1 = w /\ forall w', render_data render w' = Ok res w'.
Proof.
  destruct render;
    unfold render_data, bind, settle, isObjectJsxElement, ret, throw;
    intros H; try discriminate; injection H as <- <-; split; reflexivity.
Qed.

(** What one route of a successful build leaves: its file, holding the
    data of its render, and the other files as they were. *)
Lemma render_route_ok (g : SiteGenerator) (outDir route : string)
    (renderer : Renderer) (w w' : world) :
  render_route g outDir (route, renderer) w = Ok tt w' ->
  exists render res,
    renderer tt = inl render
    /\ render_data render w = Ok res w
    /\ fs_lookup (fs w') (locate (out_file g outDir route))
       = Some (File (data_bytes res))
    /\ forall L c, L <> locate (out_file g outDir route) ->
         fs_lookup (fs w) L = Some (File c) ->
         fs_lookup (fs w') L = Some (File c).
Proof.
  unfold render_route. intros H.
  apply bind_ok in H as (render & w1 & Hcall & H).
  apply bind_ok in H as (res & w2 & Hdata & H).
  apply bind_ok in H as ([] & w3 & Hlog & H).
  apply bind_ok in H as ([] & w4 & Hmk & Hwr).
  unfold call in Hcall. destruct (renderer tt) as [v|e] eqn:Er; [|discriminate].
  injection Hcall as <- <-.
  destruct (render_data_world _ _ _ _ Hdata) as [-> _].
  apply console_log_fs in Hlog.
  destruct (writeFile_ok _ _ _ _ Hwr) as [Hfile Hkeep].
  exists v, res. repeat split; auto.
  intros L c HL Hc. apply Hkeep; [assumption|].
  eapply mkdir_recursive_keeps; [eassumption|]. now rewrite Hlog.
Qed.

Lemma render_routes_keep (g : SiteGenerator) (outDir : string)
    (entries : list (string * Renderer)) (w w' : world) (L : loc)
    (c : Uint8Array) :
  for_of entries (render_route g outDir) w = Ok tt w' ->
  (forall route renderer, In (route, renderer) entries ->
     locate (out_file g outDir route) <> L) ->
  fs_lookup (fs w) L = Some (File c) ->
  fs_lookup (fs w') L = Some (File c).
Proof.
  revert w; induction entries as [|[route renderer] entries IH];
    intros w Hrun Hother Hc.
  - cbn in Hrun. now injection Hrun as <-.
  - cbn [for_of] in Hrun.
    apply bind_ok in Hrun as ([] & w1 & H1 & Hrest).
    apply (IH _ Hrest).
    + intros r' rr' Hin. apply (Hother r' rr'). now right.
    + destruct (render_route_ok _ _ _ _ _ _ H1) as (? & ? & _ & _ & _ & Hkeep).
      apply Hkeep; [|assumption].
      intros ->. now apply (Hother route renderer (or_introl eq_refl)).
Qed.

(** After a successful build, the file of a route holds the data of its
    render, whatever was copied there before, provided no later route has
    the same file. *)
Lemma build_page_wins (fuel : nat) (g : SiteGenerator) (outDir : string)
    (clearOutDir : bool) (w w' : world)
    (before : list (string * Renderer)) (route : string) (renderer : Renderer)
    (after : list (string * Renderer)) :
  build fuel g outDir clearOutDir w = Ok tt w' ->
  routes g = (before ++ (route, renderer) :: after)%list ->
  (forall route' renderer', In (route', renderer') after ->
     locate (out_file g outDir route') <> locate (out_file g outDir route)) ->
  exists render res,
    renderer tt = inl render
    /\ render_data render w = Ok res w
    /\ fs_lookup (fs w') (locate (out_file g outDir route))
       = Some (File (data_bytes res)).
Proof.
  unfold build. intros H Hroutes Hlast.
  apply bind_ok in H as ([] & w1 & _ & H).
  apply bind_ok in H as ([] & w2 & _ & H).
  apply bind_ok in H as ([] & w3 & Hpages & Hdone).
  apply console_log_fs in Hdone.
  rewrite Hroutes, for_of_app in Hpages.
  apply bind_ok in Hpages as ([] & wa & _ & Hpages).
  cbn [for_of] in Hpages.
  apply bind_ok in Hpages as ([] & wb & Hroute & Hafter).
  destruct (render_route_ok _ _ _ _ _ _ Hroute)
    as (render & res & Hr & Hd & Hfile & _).
  exists render, res. repeat split; auto.
  - destruct (render_data_world _ _ _ _ Hd) as [_ Hany]. apply Hany.
  - rewrite Hdone. eapply render_routes_keep; eauto.
Qed.

(* ================================================================== *)
(** * The console during a build *)
(* ================================================================== *)

Lemma quiet_ret {A} (a : A) : quiet (ret a).
Proof. now intros w. Qed.

Lemma quiet_throw {A} (e : exn) : quiet (@throw A e).
Proof. now intros w. Qed.

Lemma quiet_bind {A B} (m : M A) (k : A -> M B) :
  quiet m -> (forall a, quiet (k a)) -> quiet (bind m k).
Proof.
  intros Hm Hk w. unfold bind. specialize (Hm w).
  destruct (m w) as [a w1|e w1|w1]; cbn in *; auto.
  now rewrite Hk.
Qed.

Lemma quiet_catch {A} (m : M A) (handler : exn -> M A) :
  quiet m -> (forall e, quiet (handler e)) -> quiet (catch m handler).
Proof.
  intros Hm Hh w. unfold catch. specialize (Hm w).
  destruct (m w) as [a w1|e w1|w1]; cbn in *; auto.
  now rewrite Hh.
Qed.

Lemma quiet_with_fs {A} (k : filesystem -> A + errno) : quiet (with_fs k).
Proof. intros w. unfold with_fs. now destruct (k (fs w)). Qed.

Lemma quiet_update_fs (k : filesystem -> filesystem + errno) :
  quiet (update_fs k).
Proof. intros w. unfold update_fs. now destruct (k (fs w)). Qed.

Lemma quiet_call (r : Renderer) : quiet (call r).
Proof. intros w. unfold call. now destruct (r tt). Qed.

Lemma quiet_for_of {A} (xs : list A) (body : A -> M unit) :
  (forall x, quiet (body x)) -> quiet (for_of xs body).
Proof.
  intros Hb. induction xs as [|x xs IH]; simpl.
  - apply quiet_ret.
  - apply quiet_bind; auto.
Qed.

Create HintDb quiet.

#[local] Hint Resolve quiet_ret quiet_throw quiet_with_fs quiet_update_fs
  quiet_call : quiet.

Ltac quiet_steps :=
  repeat first
    [ apply quiet_bind; [|intros ?]
    | apply quiet_catch; [|intros ?]
    | apply quiet_for_of; intros ?
    | solve [auto with quiet]
    | match goal with
      | |- quiet (if ?b then _ else _) => destruct b
      | |- quiet (match ?x with _ => _ end) => destruct x
      end ].

Lemma quiet_stat (p : string) : quiet (stat p).
Proof. unfold stat. auto with quiet. Qed.
Lemma quiet_readdir (p : string) : quiet (readdir p).
Proof. unfold readdir. auto with quiet. Qed.
Lemma quiet_exists (p : string) : quiet (exists_ p).
Proof. unfold exists_. auto with quiet. Qed.
Lemma quiet_rm (p : string) : quiet (rm p).
Proof. unfold rm. auto with quiet. Qed.
Lemma quiet_mkdir (p : string) : quiet (mkdir p).
Proof. unfold mkdir. auto with quiet. Qed.
Lemma quiet_mkdir_recursive (p : string) : quiet (mkdir_recursive p).
Proof. unfold mkdir_recursive. auto with quiet. Qed.
Lemma quiet_readFile (p : string) : quiet (readFile p).
Proof. unfold readFile. auto with quiet. Qed.
Lemma quiet_writeFile (p : string) (data : Uint8Array) : quiet (writeFile p data).
Proof. unfold writeFile. auto with quiet. Qed.

#[local] Hint Resolve quiet_stat quiet_readdir quiet_exists quiet_rm
  quiet_mkdir quiet_mkdir_recursive quiet_readFile quiet_writeFile : quiet.

Lemma quiet_copy_children (source target path : string) (files paths : list string) :
  quiet (copy_children source target path files paths).
Proof.
  revert paths; induction files as [|file files IH]; intros paths; simpl.
  - auto with quiet.
  - apply quiet_bind; [|intros ?; apply IH].
    unfold copy_child. quiet_steps.
Qed.

Lemma quiet_copy_loop (fuel : nat) (source target : string) (paths : list string) :
  quiet (copy_loop fuel source target paths).
Proof.
  revert paths; induction fuel as [|fuel IH]; intros [|path rest]; simpl;
    auto with quiet.
  - now intros w.
  - apply quiet_bind; [auto with quiet|]. intros files.
    apply quiet_bind; [apply quiet_copy_children|]. intros paths'. apply IH.
Qed.

Lemma quiet_copyRecursive (fuel : nat) (source target : string) :
  quiet (copyRecursive fuel source target).
Proof.
  unfold copyRecursive.
  apply quiet_bind; [auto with quiet|]. intros info.
  destruct (negb (isDirectory info)); [quiet_steps|].
  apply quiet_bind; [quiet_steps|]. intros [info'|].
  - destruct (negb (isDirectory info')); [auto with quiet|].
    apply quiet_copy_loop.
  - apply quiet_copy_loop.
Qed.

Lemma quiet_prepare_out_dir (outDir : string) (clearOutDir : bool) :
  quiet (prepare_out_dir outDir clearOutDir).
Proof. unfold prepare_out_dir. quiet_steps. Qed.

Lemma quiet_render_data (render : RenderResult) : quiet (render_data render).
Proof. destruct render; intro w; reflexivity. Qed.

Lemma writes_line_intro {A} (before : M A) (after : A -> M unit) (line : string) :
  quiet before -> (forall a, quiet (after a)) ->
  writes_line (a <- before ;; console_log line ;;; after a) line.
Proof.
  intros Hb Ha w. unfold bind. specialize (Hb w).
  destruct (before w) as [a w1|e w1|w1]; cbn in *; auto.
  right. unfold console_log.
  specialize (Ha a {| fs := fs w1; console := (console w1 ++ [line])%list |}).
  destruct (after a _); cbn in *; now rewrite Ha, Hb.
Qed.

(** A loop of such steps writes the lines of a first part of the list, and
    of the whole list when it ends well. *)
Lemma for_of_lines {A} (body : A -> M unit) (line : A -> string)
    (xs : list A) (w : world) :
  (forall x, writes_line (body x) (line x)) ->
  exists n,
    console (world_of (for_of xs body w))
    = (console w ++ firstn n (map line xs))%list
    /\ (is_ok (for_of xs body w) = true -> n = List.length xs).
Proof.
  intros Hb. revert w; induction xs as [|x xs IH]; intros w.
  - exists 0. cbn. now rewrite app_nil_r.
  - cbn [for_of]. unfold bind.
    destruct (Hb x w) as [[Hc Hok] | Hc].
    + exists 0. destruct (body x w); cbn in *; try discriminate;
        rewrite Hc, app_nil_r; split; auto; discriminate.
    + destruct (body x w) as [[] w1|e w1|w1] eqn:E; cbn in Hc.
      * destruct (IH w1) as (n & Hn & Hlen).
        exists (S n). rewrite Hn, Hc. cbn [map firstn].
        rewrite <- app_assoc. split; [reflexivity|].
        intros Hok. cbn. f_equal. auto.
      * exists 1. cbn. rewrite Hc. split; [|discriminate].
        destruct xs; reflexivity.
      * exists 1. cbn. rewrite Hc. split; [|discriminate].
        destruct xs; reflexivity.
Qed.

Lemma copy_static_line (fuel : nat) (outDir : string) (mapping : string * string) :
  writes_line (copy_static fuel outDir mapping) (mapping_line mapping).
Proof.
  destruct mapping as [route staticDir]. unfold copy_static.
  apply (writes_line_intro (ret tt)
           (fun _ => copyRecursive fuel staticDir (joinPaths outDir route))).
  - apply quiet_ret.
  - intros _. apply quiet_copyRecursive.
Qed.

Lemma render_route_line (g : SiteGenerator) (outDir : string)
    (entry : string * Renderer) :
  writes_line (render_route g outDir entry) (rendering_line g outDir entry).
Proof.
  destruct entry as [route renderer]. unfold render_route.
  intros w.
  pose proof (writes_line_intro
                (render <- call renderer ;; render_data render)
                (fun res => mkdir_recursive (dirname (out_file g outDir route)) ;;;
                            writeFile (out_file g outDir route) (data_bytes res))
                (rendering_line g outDir (route, renderer))) as H.
  assert (E : forall w0,
             (render <- call renderer ;; res <- render_data render ;;
              console_log (rendering_line g outDir (route, renderer)) ;;;
              mkdir_recursive (dirname (out_file g outDir route)) ;;;
              writeFile (out_file g outDir route) (data_bytes res)) w0
             = (res <- (render <- call renderer ;; render_data render) ;;
                console_log (rendering_line g outDir (route, renderer)) ;;;
                mkdir_recursive (dirname (out_file g outDir route)) ;;;
                writeFile (out_file g outDir route) (data_bytes res)) w0).
  { intros w0. unfold bind. destruct (call renderer w0); reflexivity. }
  rewrite E. apply H.
  - apply quiet_bind; [apply quiet_call | apply quiet_render_data].
  - intros res. quiet_steps.
Qed.

(** The console after a build, however it ends: the lines already there,
    then [Mapping] lines for a first part of the static mappings, then
    [Rendering] lines for a first part of the routes, then the closing line
    if the build ended well.  A [Rendering] line is there only after all the
    [Mapping] lines. *)
Lemma build_console (fuel : nat) (g : SiteGenerator) (outDir : string)
    (clearOutDir : bool) (w : world) :
  exists n m,
    console (world_of (build fuel g outDir clearOutDir w))
    = (console w
       ++ firstn n (map mapping_line (staticMappings g))
       ++ firstn m (map (rendering_line g outDir) (routes g))
       ++ (if is_ok (build fuel g outDir clearOutDir w)
           then [done_line outDir] else []))%list
    /\ (m <> 0 -> n = List.length (staticMappings g))
    /\ (is_ok (build fuel g outDir clearOutDir w) = true ->
        n = List.length (staticMappings g) /\ m = List.length (routes g)).
Proof.
  unfold build, bind.
  pose proof (quiet_prepare_out_dir outDir clearOutDir w) as Hp.
  destruct (prepare_out_dir outDir clearOutDir w) as [[] w1|e w1|w1];
    cbn in Hp;
    try (exists 0, 0; cbn; rewrite Hp, app_nil_r;
         repeat split; congruence).
  destruct (for_of_lines (copy_static fuel outDir) mapping_line
              (staticMappings g) w1 (copy_static_line fuel outDir))
    as (n & Hn & Hlen).
  destruct (for_of (staticMappings g) (copy_static fuel outDir) w1)
    as [[] w2|e w2|w2]; cbn in Hn, Hlen;
    try (exists n, 0; cbn; rewrite Hn, Hp, app_nil_r;
         repeat split; congruence).
  specialize (Hlen eq_refl).
  destruct (for_of_lines (render_route g outDir) (rendering_line g outDir)
              (routes g) w2 (render_route_line g outDir))
    as (m & Hm & Hlen').
  destruct (for_of (routes g) (render_route g outDir) w2)
    as [[] w3|e w3|w3]; cbn in Hm, Hlen';
    try (exists n, m; cbn; rewrite Hm, Hn, Hp, app_nil_r, <- app_assoc;
         repeat split; congruence).
  specialize (Hlen' eq_refl).
  exists n, m. cbn. rewrite Hm, Hn, Hp, <- !app_assoc.
  repeat split; congruence.
Qed.

(* ================================================================== *)
(** * The build *)
(* ================================================================== *)

(** ** Fuel *)

(** Fuel only bounds the copy loop: a run that ends well ends the same way
    with more fuel. *)
Lemma copy_loop_mono (source target : string) (fuel fuel' : nat)
    (paths : list string) (w w' : world) :
  fuel <= fuel' ->
  copy_loop fuel source target paths w = Ok tt w' ->
  copy_loop fuel' source target paths w = Ok tt w'.
Proof.
  revert fuel' paths w; induction fuel as [|fuel IH];
    intros fuel' [|path rest] w Hle H.
  - destruct fuel'; exact H.
  - discriminate.
  - destruct fuel'; exact H.
  - destruct fuel' as [|fuel']; [lia|].
    cbn [copy_loop] in *.
    apply bind_ok in H as (files & w1 & Hls & H).
    apply bind_ok in H as (paths' & w2 & Hch & H).
    unfold bind. rewrite Hls, Hch. apply IH; [lia | exact H].
Qed.

Lemma copyRecursive_mono (source target : string) (fuel fuel' : nat)
    (w w' : world) :
  fuel <= fuel' ->
  copyRecursive fuel source target w = Ok tt w' ->
  copyRecursive fuel' source target w = Ok tt w'.
Proof.
  intros Hle. unfold copyRecursive, bind.
  destruct (stat source w) as [info w1| |]; try discriminate.
  destruct (negb (isDirectory info)); [auto|].
  destruct (catch _ _ w1) as [[info'|] w2| |]; try discriminate.
  - destruct (negb (isDirectory info')); [auto|]. now apply copy_loop_mono.
  - now apply copy_loop_mono.
Qed.

Lemma copy_statics_mono (outDir : string) (fuel fuel' : nat)
    (mappings : list (string * string)) (w w' : world) :
  fuel <= fuel' ->
  for_of mappings (copy_static fuel outDir) w = Ok tt w' ->
  for_of mappings (copy_static fuel' outDir) w = Ok tt w'.
Proof.
  intros Hle. revert w; induction mappings as [|[route staticDir] rest IH];
    intros w H; [exact H|].
  cbn [for_of] in *.
  apply bind_ok in H as ([] & w1 & H1 & H).
  unfold copy_static in H1. apply bind_ok in H1 as ([] & w0 & Hlog & Hcopy).
  unfold bind, copy_static. unfold bind. rewrite Hlog.
  rewrite (copyRecursive_mono _ _ _ _ _ _ Hle Hcopy). now apply IH.
Qed.

Lemma build_fuel_mono (fuel fuel' : nat) (g : SiteGenerator) (outDir : string)
    (clearOutDir : bool) (w w' : world) :
  fuel <= fuel' ->
  build fuel g outDir clearOutDir w = Ok tt w' ->
  build fuel' g outDir clearOutDir w = Ok tt w'.
Proof.
  intros Hle H. unfold build in *.
  apply bind_ok in H as ([] & w1 & Hprep & H).
  apply bind_ok in H as ([] & w2 & Hcopies & H).
  unfold bind at 1. rewrite Hprep.
  unfold bind at 1. rewrite (copy_statics_mono _ _ _ _ _ _ Hle Hcopies).
  exact H.
Qed.

(** The routes are rendered in the world that the copies leave, and only
    if the copies ended well. *)
Lemma build_phases (fuel : nat) (g : SiteGenerator) (outDir : string)
    (clearOutDir : bool) (w : world) :
  let copies := prepare_out_dir outDir clearOutDir ;;;
                for_of (staticMappings g) (copy_static fuel outDir) in
  let pages := for_of (routes g) (render_route g outDir) ;;;
               console_log (done_line outDir) in
  match copies w with
  | Ok _ w1 => build fuel g outDir clearOutDir w = pages w1
  | Throw e w1 => build fuel g outDir clearOutDir w = Throw e w1
  | OutOfFuel w1 => build fuel g outDir clearOutDir w = OutOfFuel w1
  end.
Proof.
  cbv zeta. unfold build, bind.
  destruct (prepare_out_dir outDir clearOutDir w) as [[] w0| |]; try reflexivity.
  destruct (for_of (staticMappings g) (copy_static fuel outDir) w0)
    as [[] w1| |]; reflexivity.
Qed.

Lemma loc_eq_dec (a b : loc) : a = b \/ a <> b.
Proof.
  destruct (keqb a b) eqn:E.
  - left. now apply keqb_eq.
  - right. intros ->. now rewrite keqb_refl in E.
Qed.

Lemma render_routes_file_stays (g : SiteGenerator) (outDir : string)
    (entries : list (string * Renderer)) (w w' : world) (L : loc)
    (c : Uint8Array) :
  for_of entries (render_route g outDir) w = Ok tt w' ->
  fs_lookup (fs w) L = Some (File c) ->
  exists c', fs_lookup (fs w') L = Some (File c').
Proof.
  revert w c; induction entries as [|[route renderer] entries IH];
    intros w c Hrun Hc.
  - cbn in Hrun. injection Hrun as <-. eauto.
  - cbn [for_of] in Hrun.
    apply bind_ok in Hrun as ([] & w1 & H1 & Hrest).
    destruct (render_route_ok _ _ _ _ _ _ H1) as (? & res & _ & _ & Hfile & Hkeep).
    destruct (loc_eq_dec L (locate (out_file g outDir route))) as [-> | Hne].
    + eapply IH; eassumption.
    + eapply IH; [eassumption|]. apply Hkeep; eassumption.
Qed.

Lemma render_routes_written (g : SiteGenerator) (outDir : string)
    (entries : list (string * Renderer)) (w w' : world)
    (route : string) (renderer : Renderer) :
  for_of entries (render_route g outDir) w = Ok tt w' ->
  In (route, renderer) entries ->
  exists c, fs_lookup (fs w') (locate (out_file g outDir route)) = Some (File c).
Proof.
  revert w; induction entries as [|[route' renderer'] entries IH];
    intros w Hrun Hin; [contradiction|].
  cbn [for_of] in Hrun.
  apply bind_ok in Hrun as ([] & w1 & H1 & Hrest).
  destruct Hin as [[= -> ->] | Hin].
  - destruct (render_route_ok _ _ _ _ _ _ H1) as (? & res & _ & _ & Hfile & _).
    eapply render_routes_file_stays; eassumption.
  - eapply IH; eassumption.
Qed.

(** C5 (amended). For every route processed by build, the output file path
    is the output directory joined with the route key ([path.join]), with
    the index filename appended exactly when that joined path ends with a
    slash: always when the route key ends with a slash, and never for a
    non-empty key that does not end with one, unless the joined path is the
    root.  After a successful build a file is there for every route.  The
    routes of the root (text A) and of [/sub/] (text B) with index filename
    index.html give exactly out/index.html with A and out/sub/index.html
    with B. *)
Theorem C5_output_file_paths (g : SiteGenerator) (outDir route : string) :
  out_file g outDir route
  = joinPaths outDir route
    ++ (if endsWith (joinPaths outDir route) "/" then indexFilename g else "")
  /\ (endsWith route "/" = true ->
      out_file g outDir route = joinPaths outDir route ++ indexFilename g)
  /\ (route <> "" -> endsWith route "/" = false ->
      joinPaths outDir route <> "/" ->
      out_file g outDir route = joinPaths outDir route)
  /\ (forall fuel clearOutDir w w' renderer,
        build fuel g outDir clearOutDir w = Ok tt w' ->
        In (route, renderer) (routes g) ->
        exists c,
          fs_lookup (fs w') (locate (out_file g outDir route)) = Some (File c))
  /\ (forall fuel,
        build fuel two_pages "out" true empty_world
        = Ok tt {| fs := [((false, ["out"]), Directory);
                          ((false, ["out"; "index.html"]), File "A");
                          ((false, ["out"; "sub"]), Directory);
                          ((false, ["out"; "sub"; "index.html"]), File "B")];
                   console := ["Rendering out/index.html...";
                               "Rendering out/sub/index.html...";
                               "Done. Rendered site is available in 'out'."] |}).
Proof.
  split; [|split; [|split; [|split]]].
  - unfold out_file. destruct (endsWith (joinPaths outDir route) "/");
      [reflexivity | now rewrite app_empty_r].
  - intros Hr. unfold out_file. now rewrite joinPaths_trailing.
  - intros Hne Hr Hroot. unfold out_file.
    now rewrite joinPaths_no_trailing.
  - intros fuel clearOutDir w w' renderer Hok Hin. unfold build in Hok.
    apply bind_ok in Hok as ([] & w1 & _ & Hok).
    apply bind_ok in Hok as ([] & w2 & _ & Hok).
    apply bind_ok in Hok as ([] & w3 & Hpages & Hdone).
    apply console_log_fs in Hdone. rewrite Hdone.
    eapply render_routes_written; eassumption.
  - intros fuel. reflexivity.
Qed.

(** C5, for the routes [/sub/] and [/about] of a site built into [out]. *)
Lemma C5_output_file_witness :
  out_file two_pages "out" "/sub/" = "out/sub/index.html"
  /\ out_file two_pages "out" "/about" = "out/about"
  /\ exists w',
       build 0 two_pages "out" true empty_world = Ok tt w'
       /\ fs_lookup (fs w') (locate "out/sub/index.html") = Some (File "B").
Proof.
  destruct (C5_output_file_paths two_pages "out" "/sub/")
    as (_ & Hslash & _ & Hfile & _).
  destruct (C5_output_file_paths two_pages "out" "/about")
    as (_ & _ & Hplain & _).
  split; [exact (Hslash eq_refl)|].
  split; [apply Hplain; [discriminate | reflexivity | discriminate]|].
  eexists. split; [reflexivity|].
  destruct (Hfile 0 true empty_world _ (page "B") eq_refl) as [c Hc].
  - right; left; reflexivity.
  - rewrite (Hslash eq_refl) in Hc. vm_compute in Hc.
    injection Hc as <-. reflexivity.
Defined.

(** C5 as stated fails: the empty route key does not end with a slash, yet
    with the output directory [out/] its file is [out/index.html]: the index
    filename is appended, because the test is made on the joined path.  The
    same happens when the joined path is the root. *)
Lemma C5_empty_key_gets_index :
  let g := with_routes new_SiteGenerator [("", page "X")] in
  endsWith "" "/" = false
  /\ joinPaths "out/" "" = "out/"
  /\ out_file g "out/" "" = "out/index.html"
  /\ out_file g "out/" "" <> joinPaths "out/" ""
  /\ build 0 g "out/" true empty_world
     = Ok tt {| fs := [((false, ["out"]), Directory);
                       ((false, ["out"; "index.html"]), File "X")];
                console := ["Rendering out/index.html...";
                            "Done. Rendered site is available in 'out/'."] |}
  /\ endsWith "/." "/" = false
  /\ out_file g "/" "/." = "/index.html".
Proof.
  cbv zeta. repeat split. vm_compute. discriminate.
Qed.

(* ================================================================== *)
(** * Streams in the build *)
(* ================================================================== *)

Lemma utf8_run_ascii (s : string) :
  all_ascii s = true -> utf8_run s None = s.
Proof.
  induction s as [|c s IH]; [reflexivity|].
  cbn [all_ascii]. intros H. apply andb_true_iff in H as [Hc Hs].
  cbn [utf8_run]. unfold classify. rewrite Hc. now rewrite IH.
Qed.

Lemma decode_ascii (s : string) : all_ascii s = true -> decode s = s.
Proof.
  intros H. unfold decode.
  destruct s as [|b1 [|b2 [|b3 rest]]]; try now apply utf8_run_ascii.
  assert (Hb : is_bom b1 b2 b3 = false).
  { cbn [all_ascii] in H. apply andb_true_iff in H as [H1 _].
    unfold is_bom. apply Nat.leb_le in H1.
    destruct (Nat.eqb_spec (nat_of_ascii b1) 239); [lia | reflexivity]. }
  rewrite Hb. now apply utf8_run_ascii.
Qed.

Lemma decode_chunks_ascii (stream : ReadableStream) :
  Forall (fun chunk => all_ascii chunk = true) stream ->
  decode_chunks stream = stream_bytes stream.
Proof.
  unfold stream_bytes.
  induction 1 as [|chunk stream Hc _ IH]; [reflexivity|].
  cbn [decode_chunks]. rewrite IH, decode_ascii by assumption.
  destruct stream as [|next stream]; [apply app_empty_r | reflexivity].
Qed.

(** C6, what the code does.  In serve mode a stream is the body as it is.
    In build mode every chunk is decoded as UTF-8 text on its own and the
    texts are concatenated; the file holds the bytes of that text.  For
    chunks of ASCII bytes these are the bytes of the stream.  For the two
    bytes C3 A9 of one character, one per chunk, the file holds twice the
    replacement character EF BF BD, not the bytes of the stream.  A result of
    no recognized type makes the build throw at that route, and the routes
    after it are not written; the error is the library's, except for [null],
    where the test for an element throws first. *)
Theorem C6_build_decodes_stream_chunks :
  (forall stream, toResponseBody (RStream stream) = inl (BStream stream))
  /\ (forall stream w,
        render_data (RStream stream) w = Ok (inl (decode_chunks stream)) w)
  /\ (forall stream,
        Forall (fun chunk => all_ascii chunk = true) stream ->
        decode_chunks stream = stream_bytes stream)
  /\ (forall fuel,
        build fuel (streamed_site split_e_acute) "out" true empty_world
        = Ok tt {| fs := [((false, ["out"]), Directory);
                          ((false, ["out"; "index.html"]),
                           File (replacement ++ replacement))];
                   console := ["Rendering out/index.html...";
                               "Done. Rendered site is available in 'out'."] |})
  /\ stream_bytes split_e_acute = String (byte 195) (String (byte 169) "")
  /\ replacement ++ replacement <> stream_bytes split_e_acute
  /\ (forall fuel,
        build fuel unrecognized_site "out" true empty_world
        = Throw (JsError invalid_render_message)
                {| fs := [((false, ["out"]), Directory)]; console := [] |})
  /\ (forall w, render_data ROther w = Throw (JsError invalid_render_message) w)
  /\ (forall w, render_data RNull w = Throw TypeError w).
Proof.
  split; [reflexivity|]. split; [reflexivity|].
  split; [apply decode_chunks_ascii|].
  split; [intros fuel; reflexivity|].
  split; [reflexivity|].
  split; [vm_compute; discriminate|].
  split; [intros fuel; reflexivity|].
  split; reflexivity.
Qed.

(* ================================================================== *)
(** * Further properties of the request handler *)
(* ================================================================== *)

Lemma scan_slash_none (s : string) (k : nat) :
  has_slash s = false -> indexOf_scan s "/" k = None.
Proof.
  revert k. induction s as [|c s IH]; intros k H.
  - reflexivity.
  - cbn [has_slash] in H. apply orb_false_iff in H as [Hc Hs].
    unfold slash in Hc.
    cbn [indexOf_scan startsWith]. rewrite Hc. cbn [andb].
    apply IH. exact Hs.
Qed.

Lemma substring_from_0 (s : string) (i : Z) :
  (i <= 0)%Z -> substring s i None = s.
Proof.
  intro Hi. unfold substring.
  replace (clamp s i) with 0 by (unfold clamp, strlen; lia).
  rewrite Nat.max_0_l, Nat.min_0_l, Nat.sub_0_r, drop_0. apply take_all.
Qed.

Lemma request_path_after_host (origin host path : string) :
  String.length origin = 8 ->
  has_slash host = false ->
  startsWith path "/" = true ->
  request_path (origin ++ host ++ path) = path.
Proof.
  intros Ho Hh Hp.
  destruct path as [|c path']; [discriminate|].
  cbn [startsWith] in Hp. apply andb_true_iff in Hp as [Hc _].
  apply Ascii.eqb_eq in Hc. subst c.
  unfold request_path, indexOf.
  assert (Hclamp : clamp (origin ++ host ++ String "/" path') 8
                   = String.length origin).
  { rewrite Ho. apply (clamp_nat _ 8). rewrite length_app. lia. }
  rewrite Hclamp, drop_app.
  rewrite (scan_single_none_app host path' "/"%char (String.length origin))
    by (apply scan_slash_none; exact Hh).
  rewrite <- app_assoc_s.
  replace (Z.of_nat (String.length origin + String.length host))
    with (strlen (origin ++ host))
    by (unfold strlen; rewrite length_app; reflexivity).
  apply substring_drop_prefix.
Qed.

(** X1 -- The path of a request is the URL from the first slash found at
    index 8 or later: when the first eight characters are followed by a
    slash-free host and then by a part that begins with a slash, that part
    is the path, query string and all. *)
Theorem X1_request_path_of_url (origin host path : string) :
  String.length origin = 8 ->
  has_slash host = false ->
  startsWith path "/" = true ->
  request_path (origin ++ host ++ path) = path.
Proof. exact (request_path_after_host origin host path). Qed.

Lemma X1_request_path_witness :
  request_path "http://localhost:3000/blog/post?x=1" = "/blog/post?x=1".
Proof.
  apply (X1_request_path_of_url "http://l" "ocalhost:3000" "/blog/post?x=1");
    reflexivity.
Defined.

(** X2 -- A URL with no slash at index 8 or later is taken whole as the
    path: [indexOf] answers -1 and [substring(-1)] starts at 0. *)
Theorem X2_request_path_without_slash (url : string) :
  has_slash (drop 8 url) = false ->
  request_path url = url.
Proof.
  intro H. unfold request_path, indexOf.
  assert (Hd : has_slash (drop (clamp url 8) url) = false).
  { destruct (Nat.le_gt_cases 8 (String.length url)) as [Hl|Hl].
    - replace (clamp url 8) with 8 by (symmetry; apply (clamp_nat url 8 Hl)).
      exact H.
    - replace (clamp url 8) with (String.length url)
        by (unfold clamp, strlen; lia).
      rewrite <- (app_empty_r url) at 2. rewrite drop_app. reflexivity. }
  rewrite (scan_slash_none _ (clamp url 8) Hd).
  apply substring_from_0. lia.
Qed.

Lemma X2_request_path_witness :
  request_path "http://localhost:3000" = "http://localhost:3000".
Proof.
  apply (X2_request_path_without_slash "http://localhost:3000"). reflexivity.
Defined.

(** A static answer comes from a mapping whose prefix starts the path and
    whose joined file is a regular file. *)
Lemma serve_static_hit (mappings : list (string * string)) (path : string)
    (w w' : world) (response : Response) :
  serve_static mappings path w = Ok (Some response) w' ->
  exists route staticDir c,
    In (route, staticDir) mappings
    /\ startsWith path route = true
    /\ stat (joinPaths staticDir (sanitize route path)) w = Ok (File c) w
    /\ response = {| status := 200;
                     body := BunFile (joinPaths staticDir (sanitize route path)) |}.
Proof.
  induction mappings as [|[route staticDir] rest IH]; intro H.
  - discriminate.
  - cbn [serve_static] in H.
    assert (Hrest : serve_static rest path w = Ok (Some response) w' ->
              exists route0 staticDir0 c,
                In (route0, staticDir0) ((route, staticDir) :: rest)
                /\ startsWith path route0 = true
                /\ stat (joinPaths staticDir0 (sanitize route0 path)) w
                   = Ok (File c) w
                /\ response
                   = {| status := 200;
                        body := BunFile (joinPaths staticDir0
                                           (sanitize route0 path)) |}).
    { intro H'. destruct (IH H') as (r & d & c & Hin & Hp & Hst & Hr).
      exists r, d, c. split; [right; exact Hin|]. auto. }
    destruct (startsWith path route) eqn:Hs; [|exact (Hrest H)].
    unfold bind at 1 in H. unfold catch in H. unfold bind at 1 in H.
    unfold stat at 1 in H. unfold with_fs in H.
    destruct (lookup_path (fs w) (joinPaths staticDir (sanitize route path)))
      as [[c|]|e] eqn:Hl.
    + cbn [isFile negb] in H. unfold ret in H. injection H as H1 H2.
      exists route, staticDir, c. split; [left; reflexivity|].
      split; [exact Hs|]. split; [|symmetry; exact H1].
      unfold stat, with_fs. rewrite Hl. reflexivity.
    + cbn [isFile negb] in H. unfold ret in H. exact (Hrest H).
    + destruct e; cbn [is_ENOENT] in H; unfold ret, throw in H;
        try discriminate.
      exact (Hrest H).
Qed.

(** X3 -- The request handler changes nothing: whatever the generator, the
    URL and the outcome (a response or an error), the file system and the
    console are afterwards as they were. *)
Theorem X3_reqHandler_changes_nothing (g : SiteGenerator) (url : string)
    (w : world) :
  world_of (reqHandler g url w) = w.
Proof.
  unfold reqHandler.
  destruct (resolve g (request_path url)) as [renderer|].
  - unfold bind, call, settle, ret.
    destruct (renderer tt) as [r|]; [destruct (toResponseBody r)|];
      reflexivity.
  - unfold bind at 1.
    pose proof (serve_static_reads (staticMappings g) (request_path url) w) as Hw.
    destruct (serve_static (staticMappings g) (request_path url) w)
      as [[response|] w1|e w1|w1]; cbn [world_of] in Hw; subst w1;
      try reflexivity.
    destruct (JsMap.get (routes g) ("/" ++ notFoundFilename g)) as [nf|];
      [|reflexivity].
    unfold bind, call, settle, ret.
    destruct (nf tt) as [r|]; [destruct (toResponseBody r)|]; reflexivity.
Qed.

(** X4 -- What a response of the handler can be.  Its status is 200 or
    404.  It is 404 only when no candidate route is registered, and then
    the body is never a file.  A file body comes with status 200, only
    when no candidate route is registered, and names the join of a mapped
    directory with the sanitized rest of the path, where a regular file
    lies. *)
Theorem X4_reqHandler_responses (g : SiteGenerator) (url : string)
    (w w' : world) (response : Response) :
  reqHandler g url w = Ok response w' ->
  (status response = 200%Z \/ status response = 404%Z)
  /\ (status response = 404%Z ->
      resolve g (request_path url) = None
      /\ forall filePath, body response <> BunFile filePath)
  /\ (forall filePath, body response = BunFile filePath ->
      status response = 200%Z
      /\ resolve g (request_path url) = None
      /\ exists route staticDir c,
           In (route, staticDir) (staticMappings g)
           /\ startsWith (request_path url) route = true
           /\ filePath = joinPaths staticDir (sanitize route (request_path url))
           /\ stat filePath w = Ok (File c) w).
Proof.
  unfold reqHandler. intro H.
  assert (Hbody : forall result b filePath,
             toResponseBody result = inl b -> b <> BunFile filePath)
    by (intros result b0 ? Hr; destruct result; cbn in Hr;
        try discriminate; injection Hr as <-; discriminate).
  destruct (resolve g (request_path url)) as [renderer|].
  - unfold bind, call, settle, ret in H. destruct (renderer tt) as [result|e];
      [|discriminate].
    destruct (toResponseBody result) as [b|e] eqn:Eb; [|discriminate].
    injection H as <- <-. cbn [status body].
    split; [left; reflexivity|]. split; [discriminate|].
    intros filePath Hb. exfalso. exact (Hbody _ _ _ Eb Hb).
  - unfold bind at 1 in H.
    destruct (serve_static (staticMappings g) (request_path url) w)
      as [[found|] w1|e w1|w1] eqn:Hs; try discriminate.
    + unfold ret in H. injection H as <- <-.
      destruct (serve_static_hit _ _ _ _ _ Hs)
        as (route & staticDir & c & Hin & Hp & Hst & ->).
      cbn [status body].
      split; [left; reflexivity|]. split; [discriminate|].
      intros filePath [= <-]. split; [reflexivity|]. split; [reflexivity|].
      exists route, staticDir, c. auto.
    + destruct (JsMap.get (routes g) ("/" ++ notFoundFilename g)) as [nf|].
      * unfold bind, call, settle, ret in H. destruct (nf tt) as [result|e];
          [|discriminate].
        destruct (toResponseBody result) as [b|e] eqn:Eb; [|discriminate].
        injection H as <- <-. cbn [status body].
        split; [right; reflexivity|].
        split; [intros _; split;
                  [reflexivity|intro filePath; exact (Hbody _ _ filePath Eb)]|].
        intros filePath Hb. exfalso. exact (Hbody _ _ _ Eb Hb).
      * unfold ret in H. injection H as <- <-. cbn [status body].
        split; [right; reflexivity|].
        split; [intros _; split; [reflexivity|discriminate]|].
        discriminate.
Qed.

Lemma X4_reqHandler_responses_witness :
  let response := {| status := 200; body := BunFile "public/robots.txt" |} in
  reqHandler assets_site "http://localhost:3000/robots.txt" assets_world
  = Ok response assets_world
  /\ (status response = 200%Z \/ status response = 404%Z).
Proof.
  split; [reflexivity|].
  eapply (X4_reqHandler_responses assets_site
            "http://localhost:3000/robots.txt" assets_world assets_world).
  reflexivity.
Defined.

Lemma serve_static_skips (pre rest : list (string * string)) (path : string)
    (w : world) :
  (forall route staticDir,
     In (route, staticDir) pre ->
     startsWith path route = true ->
     stat (joinPaths staticDir (sanitize route path)) w = Ok Directory w
     \/ stat (joinPaths staticDir (sanitize route path)) w
        = Throw (SystemError ENOENT) w) ->
  serve_static (pre ++ rest) path w = serve_static rest path w.
Proof.
  induction pre as [|[route staticDir] pre IH]; intro Hpre.
  - reflexivity.
  - cbn [app serve_static].
    assert (IH' : serve_static (pre ++ rest) path w = serve_static rest path w).
    { apply IH. intros r d Hin. apply Hpre. right. exact Hin. }
    destruct (startsWith path route) eqn:Hs; [|exact IH'].
    unfold bind at 1. unfold catch. unfold bind at 1.
    destruct (Hpre route staticDir (or_introl eq_refl) Hs) as [H|H];
      rewrite H; cbn; exact IH'.
Qed.

(** X5 -- Static mappings are tried in the order of their registration and
    the first regular file wins: when no candidate route is registered and
    every earlier mapping either has another prefix or leads to nothing or
    to a directory, the answer is the file of the first mapping that leads
    to one, with status 200; later mappings are not looked at. *)
Theorem X5_first_static_file_wins (g : SiteGenerator) (url : string)
    (pre post : list (string * string)) (route staticDir : string)
    (c : Uint8Array) (w : world) :
  let path := request_path url in
  resolve g path = None ->
  staticMappings g = (pre ++ (route, staticDir) :: post)%list ->
  (forall route' staticDir',
     In (route', staticDir') pre ->
     startsWith path route' = true ->
     stat (joinPaths staticDir' (sanitize route' path)) w = Ok Directory w
     \/ stat (joinPaths staticDir' (sanitize route' path)) w
        = Throw (SystemError ENOENT) w) ->
  startsWith path route = true ->
  stat (joinPaths staticDir (sanitize route path)) w = Ok (File c) w ->
  reqHandler g url w
  = Ok {| status := 200;
          body := BunFile (joinPaths staticDir (sanitize route path)) |} w.
Proof.
  intros path Hres Hmap Hpre Hs Hst. unfold reqHandler. fold path.
  rewrite Hres, Hmap. unfold bind at 1.
  rewrite (serve_static_skips pre _ path w Hpre).
  cbn [serve_static]. rewrite Hs.
  unfold bind at 1. unfold catch. unfold bind at 1. rewrite Hst.
  reflexivity.
Qed.

Lemma X5_first_static_file_witness :
  reqHandler assets_site "http://localhost:3000/assets/logo.png" assets_world
  = Ok {| status := 200; body := BunFile "assets/logo.png" |} assets_world
  /\ reqHandler assets_site "http://localhost:3000/assets/extra.css" assets_world
     = Ok {| status := 200; body := BunFile "public/assets/extra.css" |}
          assets_world.
Proof.
  split.
  - apply (X5_first_static_file_wins assets_site
             "http://localhost:3000/assets/logo.png"
             [] [("/", "public")] "/assets/" "assets" "PNG" assets_world);
      try reflexivity.
    intros ? ? [].
  - apply (X5_first_static_file_wins assets_site
             "http://localhost:3000/assets/extra.css"
             [("/assets/", "assets")] [] "/" "public" "CSS" assets_world);
      try reflexivity.
    intros ? ? [[= <- <-]|[]] _. right. reflexivity.
Defined.

(** X6 -- An error of [stat] other than [ENOENT] ends the request: when no
    candidate route is registered and the first mapping that does not miss
    fails with such an error, the handler throws it; the later mappings and
    the not-found page are not tried. *)
Theorem X6_static_error_ends_request (g : SiteGenerator) (url : string)
    (pre post : list (string * string)) (route staticDir : string)
    (e : exn) (w : world) :
  let path := request_path url in
  resolve g path = None ->
  staticMappings g = (pre ++ (route, staticDir) :: post)%list ->
  (forall route' staticDir',
     In (route', staticDir') pre ->
     startsWith path route' = true ->
     stat (joinPaths staticDir' (sanitize route' path)) w = Ok Directory w
     \/ stat (joinPaths staticDir' (sanitize route' path)) w
        = Throw (SystemError ENOENT) w) ->
  startsWith path route = true ->
  stat (joinPaths staticDir (sanitize route path)) w = Throw e w ->
  is_ENOENT e = false ->
  reqHandler g url w = Throw e w.
Proof.
  intros path Hres Hmap Hpre Hs Hst He. unfold reqHandler. fold path.
  rewrite Hres, Hmap. unfold bind at 1.
  rewrite (serve_static_skips pre _ path w Hpre).
  cbn [serve_static]. rewrite Hs.
  unfold bind at 1. unfold catch. unfold bind at 1. rewrite Hst, He.
  reflexivity.
Qed.

Lemma X6_static_error_witness :
  reqHandler assets_site "http://localhost:3000/assets/logo.png/x" assets_world
  = Throw (SystemError ENOTDIR) assets_world.
Proof.
  apply (X6_static_error_ends_request assets_site
           "http://localhost:3000/assets/logo.png/x"
           [] [("/", "public")] "/assets/" "assets"
           (SystemError ENOTDIR) assets_world);
    try reflexivity.
  intros ? ? [].
Defined.

Lemma take_length (n : nat) (s : string) :
  n <= String.length s -> String.length (take n s) = n.
Proof.
  revert s. induction n as [|n IH]; intros s H.
  - reflexivity.
  - destruct s as [|c s]; cbn [String.length] in H; [lia|].
    cbn [take String.length]. rewrite IH by lia. reflexivity.
Qed.

Lemma drop_beyond (n : nat) (s : string) :
  String.length s <= n -> drop n s = "".
Proof.
  revert s. induction n as [|n IH]; intros s H.
  - destruct s; [reflexivity|cbn [String.length] in H; lia].
  - destruct s as [|c s]; [reflexivity|].
    cbn [String.length] in H. cbn [drop]. apply IH. lia.
Qed.

Lemma has_slash_split (s : string) :
  has_slash s = true ->
  exists a b, s = a ++ String "/" b /\ has_slash a = false.
Proof.
  induction s as [|c s IH]; intro H.
  - discriminate.
  - cbn [has_slash] in H. destruct (Ascii.eqb c slash) eqn:Hc.
    + apply Ascii.eqb_eq in Hc. subst c. exists "", s. split; reflexivity.
    + cbn [orb] in H. destruct (IH H) as (a & b & -> & Ha).
      exists (String c a), b. split; [reflexivity|].
      cbn [has_slash]. rewrite Hc, Ha. reflexivity.
Qed.

(** With a slash at index 8 or later, the path begins with a slash. *)
Lemma request_path_begins_with_slash (url : string) :
  has_slash (drop 8 url) = true ->
  startsWith (request_path url) "/" = true.
Proof.
  intro H.
  assert (Hlen : 8 <= String.length url).
  { destruct (Nat.le_gt_cases 8 (String.length url)) as [Hl|Hl]; [exact Hl|].
    rewrite (drop_beyond 8 url) in H by lia. discriminate. }
  destruct (has_slash_split _ H) as (host & rest & Hd & Hhost).
  rewrite <- (take_drop 8 url), Hd.
  rewrite (request_path_after_host (take 8 url) host (String "/" rest));
    [reflexivity|apply take_length; exact Hlen|exact Hhost|reflexivity].
Qed.

Lemma startsWith_app_l (s p t : string) :
  startsWith s p = true -> startsWith (s ++ t) p = true.
Proof.
  intro H. apply startsWith_iff in H as [u ->].
  rewrite app_assoc_s. apply startsWith_app.
Qed.

Lemma candidates_begin_with_slash (g : SiteGenerator) (path : string) :
  startsWith path "/" = true ->
  Forall (fun c => startsWith c "/" = true) (route_candidates g path).
Proof.
  intro Hp. unfold route_candidates.
  constructor; [exact Hp|].
  constructor; [apply startsWith_app_l; exact Hp|].
  destruct (endsWith path ("/" ++ indexFilename g)) eqn:He; [|constructor].
  constructor; [|constructor].
  apply endsWith_iff in He as [t ->].
  replace (t ++ "/" ++ indexFilename g) with ((t ++ "/") ++ indexFilename g)
    by apply app_assoc_s.
  rewrite substring_drop_suffix.
  destruct t as [|c t]; [reflexivity|exact Hp].
Qed.

Lemma find_renderer_set_other (rs : list (string * Renderer))
    (route : string) (r : Renderer) (cs : list string) :
  Forall (fun c => c <> route) cs ->
  find_renderer (JsMap.set rs route r) cs = find_renderer rs cs.
Proof.
  induction 1 as [|c cs Hc _ IH]; [reflexivity|].
  cbn [find_renderer].
  rewrite (get_set_other rs route c r) by (intro E; apply Hc; symmetry; exact E).
  rewrite IH. reflexivity.
Qed.

(** X7 -- A route registered without a leading slash is never served: for
    every URL with a slash at index 8 or later, the handler answers as if
    the route had not been registered. *)
Theorem X7_route_without_leading_slash_is_not_served
    (imp : string -> ModuleDefault + exn) (g : SiteGenerator)
    (route : string) (renderer : Renderer + string) (url : string) (w : world) :
  startsWith route "/" = false ->
  has_slash (drop 8 url) = true ->
  reqHandler (setRoute imp g route renderer) url w = reqHandler g url w.
Proof.
  intros Hroute Hurl.
  pose proof (request_path_begins_with_slash url Hurl) as Hpath.
  assert (Hne : forall c, startsWith c "/" = true -> c <> route).
  { intros c Hc ->. congruence. }
  unfold reqHandler, resolve, setRoute.
  cbn [routes staticMappings notFoundFilename indexFilename with_routes].
  assert (Hcs : route_candidates
                  (with_routes g (JsMap.set (routes g) route
                                    (as_renderer imp renderer)))
                  (request_path url)
                = route_candidates g (request_path url)) by reflexivity.
  rewrite Hcs.
  rewrite find_renderer_set_other.
  - rewrite (get_set_other (routes g) route ("/" ++ notFoundFilename g))
      by (intro E; apply (Hne ("/" ++ notFoundFilename g)); [reflexivity|];
          symmetry; exact E).
    reflexivity.
  - eapply Forall_impl; [|apply candidates_begin_with_slash; exact Hpath].
    intros c Hc. apply Hne. exact Hc.
Qed.

Lemma X7_route_without_leading_slash_witness :
  reqHandler (setRoute no_modules new_SiteGenerator "about" (inl (page "About")))
             "http://localhost:3000/about" empty_world
  = Ok {| status := 404; body := BString no_route_message |} empty_world.
Proof.
  rewrite (X7_route_without_leading_slash_is_not_served no_modules
             new_SiteGenerator "about" (inl (page "About"))
             "http://localhost:3000/about" empty_world);
    reflexivity.
Defined.

Lemma registered_route_answers (g : SiteGenerator) (origin host route : string)
    (r : Renderer) (w : world) :
  String.length origin = 8 ->
  has_slash host = false ->
  startsWith route "/" = true ->
  JsMap.get (routes g) route = Some r ->
  reqHandler g (origin ++ host ++ route) w = rendered_response 200 (r tt) w.
Proof.
  intros Ho Hh Hr Hget. unfold reqHandler.
  rewrite (request_path_after_host origin host route Ho Hh Hr).
  rewrite (resolve_exact g route r Hget).
  unfold bind, call, settle, ret. destruct (r tt) as [[]|]; reflexivity.
Qed.

(** X8 -- A route that has been set is answered by its renderer when the
    path of the request is the route itself, whatever the static mappings
    and the file system hold: with status 200 and the normalized output of
    the renderer as body (an element as the stream it renders to); an
    error of the renderer is the error of the request, and a renderer that
    answers [null] makes the request fail with a [TypeError]. *)
Theorem X8_set_route_answers (imp : string -> ModuleDefault + exn)
    (g : SiteGenerator) (origin host route : string)
    (renderer : Renderer + string) (w : world) :
  String.length origin = 8 ->
  has_slash host = false ->
  startsWith route "/" = true ->
  reqHandler (setRoute imp g route renderer) (origin ++ host ++ route) w
  = rendered_response 200 (as_renderer imp renderer tt) w.
Proof.
  intros Ho Hh Hr.
  apply registered_route_answers; try assumption.
  unfold setRoute. cbn [routes with_routes]. apply get_set_same.
Qed.

Lemma X8_set_route_witness :
  reqHandler (setRoute no_modules overlay_site "/index.html" (inr "./home.tsx"))
             "https://example.org/index.html" overlay_world
  = Throw (JsError "Cannot find module") overlay_world
  /\ reqHandler
       (setRoute no_modules overlay_site "/index.html"
          (inl (fun _ => inl (RJsx {| markup := ["<p>"; "home"; "</p>"] |}))))
       "https://example.org/index.html" overlay_world
     = Ok {| status := 200; body := BStream ["<p>"; "home"; "</p>"] |}
          overlay_world
  /\ reqHandler
       (setRoute no_modules overlay_site "/index.html" (inl (fun _ => inl RNull)))
       "https://example.org/index.html" overlay_world
     = Throw TypeError overlay_world.
Proof.
  split; [|split].
  - apply (X8_set_route_answers no_modules overlay_site "https://"
             "example.org" "/index.html" (inr "./home.tsx") overlay_world);
      reflexivity.
  - apply (X8_set_route_answers no_modules overlay_site "https://"
             "example.org" "/index.html"
             (inl (fun _ => inl (RJsx {| markup := ["<p>"; "home"; "</p>"] |})))
             overlay_world);
      reflexivity.
  - apply (X8_set_route_answers no_modules overlay_site "https://"
             "example.org" "/index.html" (inl (fun _ => inl RNull))
             overlay_world);
      reflexivity.
Defined.

(** X9 -- The not-found page is an ordinary route: a request for its own
    path (a slash followed by the not-found filename) is answered by its
    renderer with status 200, not 404; as for any route, an error of the
    renderer is the error of the request, and a renderer that answers
    [null] makes the request fail with a [TypeError]. *)
Theorem X9_not_found_page_by_its_own_path (imp : string -> ModuleDefault + exn)
    (g : SiteGenerator) (origin host : string)
    (renderer : Renderer + string) (w : world) :
  String.length origin = 8 ->
  has_slash host = false ->
  reqHandler (setNotFound imp g renderer)
             (origin ++ host ++ "/" ++ notFoundFilename g) w
  = rendered_response 200 (as_renderer imp renderer tt) w.
Proof.
  intros Ho Hh.
  apply registered_route_answers; try assumption; [reflexivity|].
  unfold setNotFound. cbn [routes with_routes]. apply get_set_same.
Qed.

Lemma X9_not_found_page_witness :
  reqHandler (setNotFound no_modules new_SiteGenerator (inl (page "Not here")))
             "https://example.org/404.html" empty_world
  = Ok {| status := 200; body := BString "Not here" |} empty_world
  /\ reqHandler (setNotFound no_modules new_SiteGenerator
                   (inl (fun _ => inl RNull)))
                "https://example.org/404.html" empty_world
     = Throw TypeError empty_world.
Proof.
  split.
  - apply (X9_not_found_page_by_its_own_path no_modules new_SiteGenerator
             "https://" "example.org" (inl (page "Not here")) empty_world);
      reflexivity.
  - apply (X9_not_found_page_by_its_own_path no_modules new_SiteGenerator
             "https://" "example.org" (inl (fun _ => inl RNull)) empty_world);
      reflexivity.
Defined.

(* ================================================================== *)
(** * Registration *)
(* ================================================================== *)

Section MapFacts.
Context {K V : Type} {KK : Key K} {KL : KeyLaws K}.

Lemma has_set_same (m : list (K * V)) (k : K) (v : V) :
  JsMap.has (JsMap.set m k v) k = true.
Proof. unfold JsMap.has. rewrite get_set_same. reflexivity. Qed.

Lemma get_none_not_key (m : list (K * V)) (k : K) :
  JsMap.get m k = None -> ~ In k (JsMap.keys m).
Proof.
  induction m as [|[k' v'] m IH]; intros H Hin.
  - destruct Hin.
  - cbn [JsMap.get] in H. destruct (keqb k' k) eqn:E; [discriminate|].
    destruct Hin as [Hin|Hin].
    + cbn [fst] in Hin. subst k'. rewrite keqb_refl in E. discriminate.
    + exact (IH H Hin).
Qed.

Lemma keys_set_nodup (m : list (K * V)) (k : K) (v : V) :
  NoDup (JsMap.keys m) -> NoDup (JsMap.keys (JsMap.set m k v)).
Proof.
  intro Hnd. rewrite keys_set. unfold JsMap.has.
  destruct (JsMap.get m k) eqn:E; [exact Hnd|].
  apply NoDup_app; [exact Hnd|repeat constructor; intros []|].
  intros x Hx [Hk|[]]. subst x. exact (get_none_not_key m k E Hx).
Qed.

Lemma keys_set_forall (P : K -> Prop) (m : list (K * V)) (k : K) (v : V) :
  P k -> Forall P (JsMap.keys m) -> Forall P (JsMap.keys (JsMap.set m k v)).
Proof.
  intros Hk Hm. rewrite keys_set. destruct (JsMap.has m k); [exact Hm|].
  apply Forall_app. split; [exact Hm|]. constructor; [exact Hk|constructor].
Qed.
End MapFacts.

(** X10 -- Setting a route that is already registered replaces its
    renderer and nothing else: the route keeps its place in the order in
    which the pages are built, and every other route keeps its renderer. *)
Theorem X10_set_route_again (imp : string -> ModuleDefault + exn)
    (g : SiteGenerator) (route : string) (renderer : Renderer + string) :
  JsMap.has (routes g) route = true ->
  let g' := setRoute imp g route renderer in
  JsMap.keys (routes g') = JsMap.keys (routes g)
  /\ JsMap.get (routes g') route = Some (as_renderer imp renderer)
  /\ (forall route', route' <> route ->
        JsMap.get (routes g') route' = JsMap.get (routes g) route')
  /\ staticMappings g' = staticMappings g
  /\ indexFilename g' = indexFilename g
  /\ notFoundFilename g' = notFoundFilename g.
Proof.
  intros Hhas g'. unfold g', setRoute. cbn [routes with_routes staticMappings
    indexFilename notFoundFilename].
  split; [rewrite keys_set, Hhas; reflexivity|].
  split; [apply get_set_same|].
  split; [|auto].
  intros route' Hne. apply get_set_other. intro E. apply Hne. symmetry. exact E.
Qed.

Lemma X10_set_route_again_witness :
  JsMap.keys (routes (setRoute no_modules two_pages "/" (inl (page "C"))))
  = ["/"; "/sub/"].
Proof.
  apply (X10_set_route_again no_modules two_pages "/" (inl (page "C"))).
  reflexivity.
Defined.

(** X11 -- What the registration calls keep true of a generator: no route
    is registered twice, no static prefix is mapped twice, and every static
    prefix begins and ends with a slash. *)
Theorem X11_configured_generator (g : SiteGenerator) :
  configured g ->
  NoDup (JsMap.keys (routes g))
  /\ NoDup (JsMap.keys (staticMappings g))
  /\ Forall (fun route => startsWith route "/" = true
                          /\ endsWith route "/" = true)
            (JsMap.keys (staticMappings g)).
Proof.
  induction 1 as [|g filename _ IH|g filename _ IH|imp g route renderer _ IH
                  |imp g renderer _ IH|g route directory g' _ IH Hcall].
  - cbn. repeat split; constructor.
  - exact IH.
  - exact IH.
  - destruct IH as (Hr & Hs & Hp). unfold setRoute.
    cbn [routes with_routes staticMappings].
    split; [apply keys_set_nodup; exact Hr|]. split; assumption.
  - destruct IH as (Hr & Hs & Hp). unfold setNotFound.
    cbn [routes with_routes staticMappings].
    split; [apply keys_set_nodup; exact Hr|]. split; assumption.
  - destruct IH as (Hr & Hs & Hp). unfold mapStatic in Hcall.
    destruct (startsWith route "/") eqn:H1; [|discriminate].
    destruct (endsWith route "/") eqn:H2; [|discriminate].
    cbn [negb] in Hcall. injection Hcall as <-.
    cbn [routes staticMappings].
    split; [exact Hr|].
    split; [apply keys_set_nodup; exact Hs|].
    apply keys_set_forall; [split; assumption|exact Hp].
Qed.

Lemma X11_configured_generator_witness :
  let g := setRoute no_modules
             (setRoute no_modules new_SiteGenerator "/" (inl (page "A")))
             "/" (inl (page "B")) in
  NoDup (JsMap.keys (routes g)).
Proof.
  apply X11_configured_generator.
  apply configured_route. apply configured_route. apply configured_new.
Defined.

(* ================================================================== *)
(** * The command line *)
(* ================================================================== *)

Lemma includes_absent (xs : list string) (x : string) :
  ~ In x xs -> includes xs x = false.
Proof.
  intro H. unfold includes. apply not_true_is_false. intro E.
  apply existsb_exists in E as (y & Hy & Heq).
  apply String.eqb_eq in Heq. subst y. exact (H Hy).
Qed.

Lemma includes_present (xs : list string) (x : string) :
  In x xs -> includes xs x = true.
Proof.
  intro H. unfold includes. apply existsb_exists.
  exists x. split; [exact H|apply String.eqb_refl].
Qed.

Lemma parse_includes_absent (rawArgs : list string) (sliceFirstTwo : bool)
    (command : string) :
  ~ In command (tokens_of rawArgs sliceFirstTwo) ->
  includes (args (parse rawArgs sliceFirstTwo)) command = false.
Proof.
  intro H. apply includes_absent. rewrite parse_args.
  intro Hin. apply filter_In in Hin as [Hin _]. exact (H Hin).
Qed.

Lemma parse_includes_present (rawArgs : list string) (sliceFirstTwo : bool)
    (command : string) :
  startsWith command "--" = false ->
  In command (tokens_of rawArgs sliceFirstTwo) ->
  includes (args (parse rawArgs sliceFirstTwo)) command = true.
Proof.
  intros Hc H. apply includes_present. rewrite parse_args.
  apply filter_In. split; [exact H|]. rewrite Hc. reflexivity.
Qed.

Lemma parse_option_absent (rawArgs : list string) (sliceFirstTwo : bool)
    (key : string) :
  (forall t, In t (tokens_of rawArgs sliceFirstTwo) ->
             startsWith t "--" = true -> fst (split_option t) <> key) ->
  JsMap.get (options (parse rawArgs sliceFirstTwo)) key = None.
Proof.
  intro H. rewrite parse_options.
  rewrite (set_all_untouched key _ [] (option_keys_differ key _ H)).
  reflexivity.
Qed.

(** X12 -- Without the word [build] or [serve] among the tokens of the
    command line, [cli] prints the help text on the error stream and exits
    with code 1; nothing is built, nothing is served, the world is left as
    it was.  Tokens that only contain the words (as [--build] does) do not
    count. *)
Theorem X12_cli_without_command (number_text : number -> string)
    (Bun_serve : number -> string -> option exn) (fuel : nat)
    (g : SiteGenerator) (scriptName : string) (rawArgs : list string)
    (sliceFirstTwo : bool) (w : world) :
  ~ In "build" (tokens_of rawArgs sliceFirstTwo) ->
  ~ In "serve" (tokens_of rawArgs sliceFirstTwo) ->
  cli number_text Bun_serve fuel g scriptName (parse rawArgs sliceFirstTwo) w
  = Exited 1 [Errored (getHelpString scriptName)] w.
Proof.
  intros Hb Hs. unfold cli.
  rewrite (parse_includes_absent _ _ "build" Hb).
  rewrite (parse_includes_absent _ _ "serve" Hs).
  reflexivity.
Qed.

Lemma X12_cli_without_command_witness :
  cli (fun _ => "3000") (fun _ _ => None) 0 overlay_site "site.tsx"
      (parse ["bun"; "site.tsx"; "--build"; "help"; "--serve=yes"] true)
      overlay_world
  = Exited 1 [Errored (getHelpString "site.tsx")] overlay_world.
Proof.
  apply (X12_cli_without_command (fun _ => "3000") (fun _ _ => None) 0
           overlay_site "site.tsx"
           ["bun"; "site.tsx"; "--build"; "help"; "--serve=yes"] true
           overlay_world);
    vm_compute; intuition discriminate.
Defined.

(** X13 -- With the word [serve] and without the word [build] among the
    tokens, and no [host] or [port] option, [cli] clears the terminal,
    prints its three warnings and starts the server on 127.0.0.1, port
    3000; if the server starts, the one line logged is the address, and
    the process goes on listening. *)
Theorem X13_cli_serve_defaults (number_text : number -> string)
    (Bun_serve : number -> string -> option exn) (fuel : nat)
    (g : SiteGenerator) (scriptName : string) (rawArgs : list string)
    (sliceFirstTwo : bool) (w : world) :
  let toks := tokens_of rawArgs sliceFirstTwo in
  ~ In "build" toks ->
  In "serve" toks ->
  (forall t, In t toks -> startsWith t "--" = true ->
             fst (split_option t) <> "host") ->
  (forall t, In t toks -> startsWith t "--" = true ->
             fst (split_option t) <> "port") ->
  Bun_serve (Literal 3000) "127.0.0.1" = None ->
  cli number_text Bun_serve fuel g scriptName (parse rawArgs sliceFirstTwo) w
  = Listening (Literal 3000) "127.0.0.1" serve_warnings
      {| fs := fs w;
         console := (console w
                     ++ [("Listening on 127.0.0.1:"
                          ++ number_text (Literal 3000))%string])%list |}.
Proof.
  intros toks Hb Hs Hhost Hport Hstart. unfold cli.
  rewrite (parse_includes_absent _ _ "build" Hb).
  rewrite (parse_includes_present _ _ "serve" eq_refl Hs).
  unfold getOptionOr, getOption, getOptionIntOr.
  rewrite (parse_option_absent _ _ "host" Hhost).
  rewrite (parse_option_absent _ _ "port" Hport).
  cbn [port_of]. unfold serve. rewrite Hstart. reflexivity.
Qed.

Lemma X13_cli_serve_defaults_witness :
  cli (fun _ => "3000") (fun _ _ => None) 0 overlay_site "site.tsx"
      (parse ["bun"; "site.tsx"; "serve"; "--hot"] true) empty_world
  = Listening (Literal 3000) "127.0.0.1" serve_warnings
      {| fs := []; console := ["Listening on 127.0.0.1:3000"] |}.
Proof.
  apply (X13_cli_serve_defaults (fun _ => "3000") (fun _ _ => None) 0
           overlay_site "site.tsx" ["bun"; "site.tsx"; "serve"; "--hot"] true
           empty_world).
  - vm_compute. intuition discriminate.
  - vm_compute. left. reflexivity.
  - intros t [<-|[<-|[]]] _; vm_compute; discriminate.
  - intros t [<-|[<-|[]]] _; vm_compute; discriminate.
  - reflexivity.
Defined.

(* ================================================================== *)
(** * The draft of the handler *)
(* ================================================================== *)

(** X14 -- The handler of the module answers as the draft at the head of
    the file does whenever no static mapping gives an answer, in particular
    when none is registered. *)
Theorem X14_handler_agrees_with_draft (g : SiteGenerator) (url : string)
    (w : world) :
  serve_static (staticMappings g) (request_path url) w = Ok None w ->
  reqHandler g url w = reqHandler_draft g url w.
Proof.
  intro H. unfold reqHandler, reqHandler_draft.
  destruct (resolve g (request_path url)); [reflexivity|].
  unfold bind at 1. rewrite H. reflexivity.
Qed.

Lemma X14_handler_agrees_with_draft_witness :
  reqHandler two_pages "http://localhost:3000/sub/index.html" empty_world
  = reqHandler_draft two_pages "http://localhost:3000/sub/index.html" empty_world.
Proof.
  apply (X14_handler_agrees_with_draft two_pages
           "http://localhost:3000/sub/index.html" empty_world).
  reflexivity.
Defined.

(* ================================================================== *)
(** * copyRecursive and build: edges *)
(* ================================================================== *)

Lemma stat_lookup (path : string) (w w' : world) (info : node) :
  stat path w = Ok info w' -> lookup_path (fs w) path = inl info /\ w' = w.
Proof.
  unfold stat, with_fs. destruct (lookup_path (fs w) path); [|discriminate].
  intros [= -> ->]. split; reflexivity.
Qed.

Lemma writeFileFrom_file (target source : string) (c : Uint8Array) (w : world) :
  lookup_path (fs w) source = inl (File c) ->
  writeFileFrom target source w
  = writeFile target
      (if loc_eqb (locate source) (locate target) then "" else c) w.
Proof.
  intro Hl. unfold writeFileFrom, bind, readFile, with_fs. rewrite Hl.
  reflexivity.
Qed.

(** X15 -- When the source is a regular file, [copyRecursive] writes to the
    target path itself: the target is the file to write, not a directory to
    copy into, and no fuel is used.  What is written is the content of the
    source when the two paths denote different files; a file copied onto
    itself is left empty. *)
Theorem X15_copy_of_a_regular_file (fuel : nat) (source target : string)
    (c : Uint8Array) (w : world) :
  stat source w = Ok (File c) w ->
  (locate source <> locate target ->
   copyRecursive fuel source target w = writeFile target c w)
  /\ (locate source = locate target ->
      copyRecursive fuel source target w = writeFile target "" w).
Proof.
  intro H. destruct (stat_lookup _ _ _ _ H) as [Hl _].
  assert (Hcopy : copyRecursive fuel source target w
                  = writeFile target
                      (if loc_eqb (locate source) (locate target)
                       then "" else c) w).
  { unfold copyRecursive. unfold bind at 1. rewrite H.
    cbn [isDirectory negb]. apply writeFileFrom_file. exact Hl. }
  rewrite Hcopy. split; intro Hloc.
  - change loc_eqb with (@keqb loc _).
    rewrite (keqb_neq _ _ Hloc). reflexivity.
  - rewrite Hloc. change loc_eqb with (@keqb loc _).
    rewrite keqb_refl. reflexivity.
Qed.

Lemma X15_copy_of_a_regular_file_witness :
  copyRecursive 0 "assets/logo.png" "dist/img/logo.png" assets_world
  = Ok tt {| fs := (fs assets_world
                    ++ [((false, ["dist"]), Directory);
                        ((false, ["dist"; "img"]), Directory);
                        ((false, ["dist"; "img"; "logo.png"]), File "PNG")])%list;
             console := [] |}
  /\ copyRecursive 0 "assets/logo.png" "./assets//logo.png" assets_world
     = Ok tt {| fs := [((false, ["assets"]), Directory);
                       ((false, ["assets"; "logo.png"]), File "");
                       ((false, ["public"]), Directory);
                       ((false, ["public"; "robots.txt"]), File "TXT");
                       ((false, ["public"; "assets"]), Directory);
                       ((false, ["public"; "assets"; "logo.png"]), File "OTHER");
                       ((false, ["public"; "assets"; "extra.css"]), File "CSS")];
                console := [] |}.
Proof.
  split.
  - rewrite (proj1 (X15_copy_of_a_regular_file 0 "assets/logo.png"
                      "dist/img/logo.png" "PNG" assets_world eq_refl));
      [reflexivity|discriminate].
  - rewrite (proj2 (X15_copy_of_a_regular_file 0 "assets/logo.png"
                      "./assets//logo.png" "PNG" assets_world eq_refl));
      reflexivity.
Defined.

(** X16 -- A build with clearing into a path that is a regular file fails
    at once with [ENOTDIR]: the path exists, so it is listed.  Nothing is
    written and nothing is logged. *)
Theorem X16_build_into_a_file_fails (fuel : nat) (g : SiteGenerator)
    (outDir : string) (c : Uint8Array) (w : world) :
  stat outDir w = Ok (File c) w ->
  build fuel g outDir true w = Throw (SystemError ENOTDIR) w.
Proof.
  intro H. destruct (stat_lookup _ _ _ _ H) as [Hl _].
  unfold build. unfold bind at 1. unfold prepare_out_dir. unfold bind at 1.
  unfold exists_, with_fs. rewrite Hl. unfold bind at 1.
  unfold readdir, with_fs. rewrite Hl. reflexivity.
Qed.

Lemma X16_build_into_a_file_witness :
  build 0 two_pages "public/robots.txt" true assets_world
  = Throw (SystemError ENOTDIR) assets_world.
Proof.
  apply (X16_build_into_a_file_fails 0 two_pages "public/robots.txt" "TXT"
           assets_world).
  reflexivity.
Defined.

Lemma render_route_fails (g : SiteGenerator) (outDir route : string)
    (renderer : Renderer) (e : exn) (w : world) :
  renderer tt = inr e
  \/ (renderer tt = inl ROther /\ e = JsError invalid_render_message)
  \/ (renderer tt = inl RNull /\ e = TypeError) ->
  render_route g outDir (route, renderer) w = Throw e w.
Proof.
  intros [H|[[H ->]|[H ->]]]; unfold render_route, bind, call; rewrite H;
    reflexivity.
Qed.

(** X17 -- The build stops at the first page that cannot be rendered: its
    renderer throws, or answers a value of no recognized type (the error is
    then the library's, with the Invalid-render message), or answers [null]
    (the test for an element then throws a [TypeError] before that).  The
    error is the error of the build, the pages before it stay written, the
    pages after it are not rendered, and the closing line is not logged. *)
Theorem X17_build_stops_at_failing_page (fuel : nat) (g : SiteGenerator)
    (outDir : string) (clearOutDir : bool) (w w1 w2 : world)
    (pre post : list (string * Renderer)) (route : string)
    (renderer : Renderer) (e : exn) :
  (prepare_out_dir outDir clearOutDir ;;;
   for_of (staticMappings g) (copy_static fuel outDir)) w = Ok tt w1 ->
  routes g = (pre ++ (route, renderer) :: post)%list ->
  for_of pre (render_route g outDir) w1 = Ok tt w2 ->
  renderer tt = inr e
  \/ (renderer tt = inl ROther /\ e = JsError invalid_render_message)
  \/ (renderer tt = inl RNull /\ e = TypeError) ->
  build fuel g outDir clearOutDir w = Throw e w2
  /\ (forall route' renderer',
        In (route', renderer') pre ->
        exists c, fs_lookup (fs w2) (locate (out_file g outDir route'))
                  = Some (File c)).
Proof.
  intros Hcopies Hroutes Hpre Hfail. split.
  - pose proof (build_phases fuel g outDir clearOutDir w) as Hb.
    cbv zeta in Hb. rewrite Hcopies in Hb. rewrite Hb.
    unfold bind at 1. rewrite Hroutes, for_of_app.
    unfold bind at 1. rewrite Hpre.
    cbn [for_of]. unfold bind at 1.
    rewrite (render_route_fails g outDir route renderer e w2 Hfail).
    reflexivity.
  - intros route' renderer' Hin.
    exact (render_routes_written g outDir pre w1 w2 route' renderer' Hpre Hin).
Qed.

Lemma X17_build_stops_witness :
  let site := fun failing =>
    {| routes := [("/", page "A"); ("/b", failing); ("/c", page "C")];
       staticMappings := [];
       indexFilename := "index.html";
       notFoundFilename := "404.html" |} in
  let w2 := {| fs := [((false, ["dist"]), Directory);
                      ((false, ["dist"; "index.html"]), File "A")];
               console := ["Rendering dist/index.html..."] |} in
  build 0 (site (fun _ => inl ROther)) "dist" true empty_world
  = Throw (JsError invalid_render_message) w2
  /\ build 0 (site (fun _ => inl RNull)) "dist" true empty_world
     = Throw TypeError w2.
Proof.
  split.
  - apply (X17_build_stops_at_failing_page 0 _ "dist" true empty_world
             {| fs := [((false, ["dist"]), Directory)]; console := [] |}
             _ [("/", page "A")] [("/c", page "C")] "/b"
             (fun _ => inl ROther) (JsError invalid_render_message));
      try reflexivity.
    right. left. split; reflexivity.
  - apply (X17_build_stops_at_failing_page 0 _ "dist" true empty_world
             {| fs := [((false, ["dist"]), Directory)]; console := [] |}
             _ [("/", page "A")] [("/c", page "C")] "/b"
             (fun _ => inl RNull) TypeError);
      try reflexivity.
    right. right. split; reflexivity.
Defined.

(* ================================================================== *)
(** * Decoding *)
(* ================================================================== *)

Lemma concat_empty_cons (x : string) (xs : list string) :
  String.concat "" (x :: xs) = x ++ String.concat "" xs.
Proof.
  destruct xs as [|y ys]; cbn [String.concat].
  - symmetry. apply app_empty_r.
  - reflexivity.
Qed.

Lemma decode_drops_mark (chunk : Uint8Array) :
  decode (byte_order_mark ++ chunk) = utf8_run chunk None.
Proof. reflexivity. Qed.

(** X18 -- Each chunk of an element is decoded by a call of its own, and
    each call drops a byte order mark at the head of what it is given: the
    string rendered for chunks of ASCII text that each begin with a mark
    holds the text without any of the marks. *)
Theorem X18_mark_dropped_in_every_chunk (stream : ReadableStream) :
  Forall (fun chunk => all_ascii chunk = true) stream ->
  renderToString
    {| markup := map (fun chunk => byte_order_mark ++ chunk) stream |}
  = stream_bytes stream.
Proof.
  unfold renderToString, renderToReadableStream, stream_bytes. cbn [markup].
  induction 1 as [|chunk stream Hc _ IH].
  - reflexivity.
  - cbn [map decode_chunks]. rewrite decode_drops_mark, concat_empty_cons.
    rewrite (utf8_run_ascii chunk Hc), IH. reflexivity.
Qed.

Lemma X18_mark_dropped_witness :
  renderToString
    {| markup := [byte_order_mark ++ "<p>"; byte_order_mark ++ "</p>"] |}
  = "<p></p>".
Proof.
  apply (X18_mark_dropped_in_every_chunk ["<p>"; "</p>"]).
  repeat constructor.
Defined.

(* ================================================================== *)
(** * What copying and building leave in place *)
(* ================================================================== *)

Lemma nothing_removed_refl (w : world) : nothing_removed w w.
Proof. intros L n H. exists n. split; [exact H|reflexivity]. Qed.

Lemma nothing_removed_trans (w1 w2 w3 : world) :
  nothing_removed w1 w2 -> nothing_removed w2 w3 -> nothing_removed w1 w3.
Proof.
  intros H12 H23 L n H.
  destruct (H12 L n H) as (n2 & H2 & E2).
  destruct (H23 L n2 H2) as (n3 & H3 & E3).
  exists n3. split; [exact H3|congruence].
Qed.

Lemma nothing_removed_same_fs (w w' : world) :
  fs w' = fs w -> nothing_removed w w'.
Proof. intros E L n H. exists n. rewrite E. split; [exact H|reflexivity]. Qed.

Lemma removes_nothing_ret {A} (a : A) : removes_nothing (ret a).
Proof. intro w. apply nothing_removed_refl. Qed.

Lemma removes_nothing_throw {A} (e : exn) : removes_nothing (@throw A e).
Proof. intro w. apply nothing_removed_refl. Qed.

Lemma removes_nothing_out_of_fuel {A} : removes_nothing (@out_of_fuel A).
Proof. intro w. apply nothing_removed_refl. Qed.

Lemma removes_nothing_bind {A B} (m : M A) (k : A -> M B) :
  removes_nothing m -> (forall a, removes_nothing (k a)) ->
  removes_nothing (bind m k).
Proof.
  intros Hm Hk w. unfold bind. specialize (Hm w).
  destruct (m w) as [a w1|e w1|w1]; cbn [world_of] in *; auto.
  eapply nothing_removed_trans; [exact Hm|apply Hk].
Qed.

Lemma removes_nothing_catch {A} (m : M A) (handler : exn -> M A) :
  removes_nothing m -> (forall e, removes_nothing (handler e)) ->
  removes_nothing (catch m handler).
Proof.
  intros Hm Hh w. unfold catch. specialize (Hm w).
  destruct (m w) as [a w1|e w1|w1]; cbn [world_of] in *; auto.
  eapply nothing_removed_trans; [exact Hm|apply Hh].
Qed.

Lemma removes_nothing_with_fs {A} (k : filesystem -> A + errno) :
  removes_nothing (with_fs k).
Proof.
  intro w. unfold with_fs. destruct (k (fs w)); apply nothing_removed_refl.
Qed.

Lemma removes_nothing_call (r : Renderer) : removes_nothing (call r).
Proof. intro w. unfold call. destruct (r tt); apply nothing_removed_refl. Qed.

Lemma removes_nothing_console_log (line : string) :
  removes_nothing (console_log line).
Proof. intro w. apply nothing_removed_same_fs. reflexivity. Qed.

Lemma removes_nothing_for_of {A} (xs : list A) (body : A -> M unit) :
  (forall x, removes_nothing (body x)) -> removes_nothing (for_of xs body).
Proof.
  intro Hb. induction xs as [|x xs IH]; cbn [for_of].
  - apply removes_nothing_ret.
  - apply removes_nothing_bind; auto.
Qed.

(** An update that keeps every node, or replaces a file by a file. *)
Lemma removes_nothing_update_fs (k : filesystem -> filesystem + errno) :
  (forall f f' L n, k f = inl f' -> fs_lookup f L = Some n ->
     exists n', fs_lookup f' L = Some n' /\ isDirectory n' = isDirectory n) ->
  removes_nothing (update_fs k).
Proof.
  intros Hk w. unfold update_fs. destruct (k (fs w)) as [f'|e] eqn:E.
  - intros L n H. cbn [world_of fs]. exact (Hk _ _ L n E H).
  - apply nothing_removed_refl.
Qed.

Lemma removes_nothing_mkdir_recursive (path : string) :
  removes_nothing (mkdir_recursive path).
Proof.
  unfold mkdir_recursive. apply removes_nothing_update_fs.
  intros f f' L n Hk H. destruct (path =? ""); [discriminate|].
  exists n. split; [|reflexivity].
  eapply mkdirs_keeps; eassumption.
Qed.

Lemma removes_nothing_mkdir (path : string) : removes_nothing (mkdir path).
Proof.
  unfold mkdir. apply removes_nothing_update_fs.
  intros f f' L n Hk H. destruct (path =? ""); [discriminate|].
  destruct (fs_lookup f (locate path)) eqn:Hl; [discriminate|].
  destruct (fs_lookup f (parent (locate path))) as [[|]|]; try discriminate.
  injection Hk as <-. exists n. split; [|reflexivity].
  rewrite fs_lookup_set_other; [exact H|]. intros ->. congruence.
Qed.

Lemma removes_nothing_writeFile (path : string) (data : Uint8Array) :
  removes_nothing (writeFile path data).
Proof.
  unfold writeFile. apply removes_nothing_update_fs.
  intros f f' L n Hk H. destruct (path =? ""); [discriminate|].
  destruct (endsWith path "/"); [discriminate|].
  assert (Hnd : fs_lookup f (locate path) <> Some Directory
                -> match mkdirs f (ancestors (locate path)) ENOTDIR with
                   | inl f1 => inl (JsMap.set f1 (locate path) (File data))
                   | inr e => inr e
                   end = inl f'
                -> exists n', fs_lookup f' L = Some n'
                              /\ isDirectory n' = isDirectory n).
  { intros Hdir Hw.
    destruct (mkdirs f (ancestors (locate path)) ENOTDIR) as [f1|e] eqn:Hm;
      [|discriminate].
    injection Hw as <-.
    destruct (loc_eq_dec L (locate path)) as [->|Hne].
    - destruct n as [c|]; [|contradiction].
      destruct (snd (locate path)) eqn:Hsnd.
      + unfold fs_lookup in H. rewrite Hsnd in H. discriminate.
      + exists (File data). split; [|reflexivity].
        apply fs_lookup_set_same. rewrite Hsnd. discriminate.
    - exists n. split; [|reflexivity].
      rewrite fs_lookup_set_other by exact Hne.
      eapply mkdirs_keeps; eassumption. }
  destruct (fs_lookup f (locate path)) as [[c|]|] eqn:Hl.
  - apply Hnd; [discriminate|exact Hk].
  - discriminate.
  - apply Hnd; [discriminate|exact Hk].
Qed.

Lemma removes_nothing_render_data (render : RenderResult) :
  removes_nothing (render_data render).
Proof.
  destruct render; cbn [render_data];
    first [apply removes_nothing_ret|apply removes_nothing_throw].
Qed.

Create HintDb keeps.

#[local] Hint Resolve removes_nothing_ret removes_nothing_throw
  removes_nothing_with_fs removes_nothing_call removes_nothing_console_log
  removes_nothing_mkdir_recursive removes_nothing_mkdir
  removes_nothing_writeFile removes_nothing_render_data
  removes_nothing_out_of_fuel : keeps.

Lemma removes_nothing_stat (p : string) : removes_nothing (stat p).
Proof. unfold stat. auto with keeps. Qed.
Lemma removes_nothing_readdir (p : string) : removes_nothing (readdir p).
Proof. unfold readdir. auto with keeps. Qed.
Lemma removes_nothing_exists (p : string) : removes_nothing (exists_ p).
Proof. unfold exists_. auto with keeps. Qed.
Lemma removes_nothing_readFile (p : string) : removes_nothing (readFile p).
Proof. unfold readFile. auto with keeps. Qed.

#[local] Hint Resolve removes_nothing_stat removes_nothing_readdir
  removes_nothing_exists removes_nothing_readFile : keeps.

Ltac keeps_steps :=
  repeat first
    [ apply removes_nothing_bind; [|intros ?]
    | apply removes_nothing_catch; [|intros ?]
    | apply removes_nothing_for_of; intros ?
    | solve [auto with keeps]
    | match goal with
      | |- removes_nothing (if ?b then _ else _) => destruct b
      | |- removes_nothing (match ?x with _ => _ end) => destruct x
      end ].

Lemma removes_nothing_copy_child (source target path : string)
    (paths : list string) (file : string) :
  removes_nothing (copy_child source target path paths file).
Proof. unfold copy_child. keeps_steps. Qed.

Lemma removes_nothing_copy_children (source target path : string)
    (files paths : list string) :
  removes_nothing (copy_children source target path files paths).
Proof.
  revert paths; induction files as [|file files IH]; intros paths;
    cbn [copy_children].
  - auto with keeps.
  - apply removes_nothing_bind; [apply removes_nothing_copy_child|].
    intros ?; apply IH.
Qed.

Lemma removes_nothing_copy_loop (fuel : nat) (source target : string)
    (paths : list string) :
  removes_nothing (copy_loop fuel source target paths).
Proof.
  revert paths; induction fuel as [|fuel IH]; intros [|path rest];
    cbn [copy_loop]; auto with keeps.
  apply removes_nothing_bind; [auto with keeps|]. intros files.
  apply removes_nothing_bind; [apply removes_nothing_copy_children|].
  intros paths'. apply IH.
Qed.

Lemma removes_nothing_copyRecursive (fuel : nat) (source target : string) :
  removes_nothing (copyRecursive fuel source target).
Proof.
  unfold copyRecursive.
  apply removes_nothing_bind; [auto with keeps|]. intros info.
  destruct (negb (isDirectory info)); [keeps_steps|].
  apply removes_nothing_bind; [keeps_steps|]. intros [info'|].
  - destruct (negb (isDirectory info')); [auto with keeps|].
    apply removes_nothing_copy_loop.
  - apply removes_nothing_copy_loop.
Qed.

(** X19 -- [copyRecursive] removes nothing, however it ends: every location
    that held a file or a directory before the call holds one of the same
    kind afterwards (a file may have new content). *)
Theorem X19_copyRecursive_removes_nothing (fuel : nat)
    (source target : string) :
  removes_nothing (copyRecursive fuel source target).
Proof. exact (removes_nothing_copyRecursive fuel source target). Qed.

Lemma removes_nothing_build (fuel : nat) (g : SiteGenerator) (outDir : string) :
  removes_nothing (build fuel g outDir false).
Proof.
  unfold build.
  apply removes_nothing_bind; [unfold prepare_out_dir; keeps_steps|].
  intros _.
  apply removes_nothing_bind.
  { apply removes_nothing_for_of. intros [route staticDir].
    unfold copy_static. apply removes_nothing_bind; [auto with keeps|].
    intros _. apply removes_nothing_copyRecursive. }
  intros _.
  apply removes_nothing_bind; [|intros _; auto with keeps].
  apply removes_nothing_for_of. intros [route renderer].
  unfold render_route. keeps_steps.
Qed.

(** X20 -- A build that does not clear the output directory removes
    nothing, however it ends: what an earlier build left there, and any
    other file or directory, is still there afterwards, each of the kind it
    was. *)
Theorem X20_build_without_clearing_removes_nothing (fuel : nat)
    (g : SiteGenerator) (outDir : string) :
  removes_nothing (build fuel g outDir false).
Proof. exact (removes_nothing_build fuel g outDir). Qed.

(** X21 -- The command [build] without the option [clear-out] does not
    clear the output directory: [isOptionTrue] answers false for an option
    that is not given, so nothing is removed by the run. *)
Theorem X21_cli_build_without_clear_out (number_text : number -> string)
    (Bun_serve : number -> string -> option exn) (fuel : nat)
    (g : SiteGenerator) (scriptName : string) (rawArgs : list string)
    (sliceFirstTwo : bool) (w : world) :
  let toks := tokens_of rawArgs sliceFirstTwo in
  In "build" toks ->
  (forall t, In t toks -> startsWith t "--" = true ->
             fst (split_option t) <> "clear-out") ->
  nothing_removed w
    (end_world (cli number_text Bun_serve fuel g scriptName
                    (parse rawArgs sliceFirstTwo) w)).
Proof.
  intros toks Hb Hclear. unfold cli.
  rewrite (parse_includes_present _ _ "build" eq_refl Hb).
  unfold isOptionTrue. rewrite (parse_option_absent _ _ "clear-out" Hclear).
  pose proof (removes_nothing_build fuel g
                (getOptionOr (parse rawArgs sliceFirstTwo) "out" "dist") w) as H.
  destruct (build fuel g _ false w); exact H.
Qed.

Lemma X21_cli_build_witness :
  let done := cli (fun _ => "3000") (fun _ _ => None) 0 two_pages "site.tsx"
                  (parse ["bun"; "site.tsx"; "build"] true) rebuilt_world in
  nothing_removed rebuilt_world (end_world done)
  /\ fs_lookup (fs (end_world done)) (false, ["dist"; "old.html"])
     = Some (File "STALE").
Proof.
  split; [|reflexivity].
  apply (X21_cli_build_without_clear_out (fun _ => "3000") (fun _ _ => None) 0
           two_pages "site.tsx" ["bun"; "site.tsx"; "build"] true rebuilt_world).
  - vm_compute. left. reflexivity.
  - intros t [<-|[]] _. vm_compute. discriminate.
Defined.

(* ================================================================== *)
(** * Copying over an earlier copy *)
(* ================================================================== *)

Lemma get_some_in (f : filesystem) (k : loc) (n : node) :
  JsMap.get f k = Some n -> In (k, n) f.
Proof.
  induction f as [|[k' n'] f IH]; intro H; [discriminate|].
  cbn [JsMap.get] in H. destruct (keqb k' k) eqn:E.
  - apply keqb_eq in E. injection H as ->. subst k'. left. reflexivity.
  - right. exact (IH H).
Qed.

Lemma in_get_some (f : filesystem) (k : loc) (n : node) :
  In (k, n) f -> exists n0, JsMap.get f k = Some n0.
Proof.
  induction f as [|[k' n'] f IH]; intro H; [destruct H|].
  cbn [JsMap.get]. destruct (keqb k' k) eqn:E.
  - exists n'. reflexivity.
  - destruct H as [H|H]; [|exact (IH H)].
    injection H as -> ->. rewrite keqb_refl in E. discriminate.
Qed.

Lemma entries_spec (f : filesystem) (d : loc) (name : string) :
  In name (entries f d)
  <-> exists k n, In (k, n) f /\ child_name d k = Some name.
Proof.
  induction f as [|[k n] f IH]; cbn [entries].
  - split; [intros []|intros (k & n & [] & _)].
  - destruct (child_name d k) as [name'|] eqn:E.
    + split.
      * intros [<-|H].
        -- exists k, n. split; [left; reflexivity|exact E].
        -- apply IH in H as (k1 & n1 & Hin & Hc).
           exists k1, n1. split; [right; exact Hin|exact Hc].
      * intros (k1 & n1 & [Heq|Hin] & Hc).
        -- injection Heq as <- <-. left. congruence.
        -- right. apply IH. exists k1, n1. split; assumption.
    + rewrite IH. split.
      * intros (k1 & n1 & Hin & Hc). exists k1, n1.
        split; [right; exact Hin|exact Hc].
      * intros (k1 & n1 & [Heq|Hin] & Hc).
        -- injection Heq as <- <-. congruence.
        -- exists k1, n1. split; assumption.
Qed.

Lemma strip_prefix_app (p l r : list string) :
  strip_prefix p l = Some r -> l = (p ++ r)%list.
Proof.
  revert l. induction p as [|x p IH]; intros l H.
  - cbn in H. injection H as ->. reflexivity.
  - destruct l as [|y l]; [discriminate|].
    cbn [strip_prefix] in H. destruct (x =? y) eqn:E; [|discriminate].
    apply String.eqb_eq in E. subst y. cbn [app]. f_equal. exact (IH l H).
Qed.

Lemma child_name_loc (d k : loc) (name : string) :
  child_name d k = Some name -> k = (fst d, (snd d ++ [name])%list).
Proof.
  unfold child_name. destruct (Bool.eqb (fst d) (fst k)) eqn:Eb; [|discriminate].
  apply Bool.eqb_prop in Eb.
  destruct (strip_prefix (snd d) (snd k)) as [[|x [|y r]]|] eqn:Es;
    try discriminate.
  intros [= ->]. apply strip_prefix_app in Es.
  destruct k as [kb ks]. cbn [fst snd] in *. subst. reflexivity.
Qed.

Lemma child_lookup (f : filesystem) (d : loc) (name : string) :
  fs_lookup f (fst d, (snd d ++ [name])%list)
  = JsMap.get f (fst d, (snd d ++ [name])%list).
Proof.
  unfold fs_lookup. cbn [snd].
  destruct (snd d ++ [name])%list eqn:E; [|reflexivity].
  destruct (snd d); discriminate.
Qed.

(** The entries of a directory stay listed while nothing is removed. *)
Lemma entries_stay (w w' : world) (d : loc) (name : string) :
  nothing_removed w w' ->
  In name (entries (fs w) d) -> In name (entries (fs w') d).
Proof.
  intros Hkeep Hin. apply entries_spec in Hin as (k & n & Hin & Hc).
  pose proof (child_name_loc d k name Hc) as Hk. subst k.
  destruct (in_get_some _ _ _ Hin) as (n0 & Hget).
  rewrite <- child_lookup in Hget.
  destruct (Hkeep _ _ Hget) as (n' & Hget' & _).
  rewrite child_lookup in Hget'. apply get_some_in in Hget'.
  apply entries_spec. exists (fst d, (snd d ++ [name])%list), n'.
  split; [exact Hget'|exact Hc].
Qed.

Lemma is_ok_bind_fails {A B} (m : M A) (k : A -> M B) (w : world) :
  is_ok (m w) = false -> is_ok (bind m k w) = false.
Proof. unfold bind. destruct (m w); [discriminate|reflexivity|reflexivity]. Qed.

Lemma norm_step_plain (allow : bool) (stack : list string) (seg : string) :
  plain seg -> norm_step allow stack seg = seg :: stack.
Proof.
  intros (H1 & H2 & H3). unfold norm_step.
  apply String.eqb_neq in H1, H2, H3. rewrite H1, H2, H3. reflexivity.
Qed.

Lemma normalize_entry_name (name : string) :
  entry_name name -> normalize name = name.
Proof.
  intros [Hplain Hslash]. pose proof Hplain as (Hne & _ & _).
  unfold normalize. apply String.eqb_neq in Hne. rewrite Hne.
  apply String.eqb_neq in Hne.
  replace (isAbsolute name) with false
    by (symmetry; rewrite <- (app_empty_r name);
        apply isAbsolute_no_slash; assumption).
  rewrite (split_slash_single name Hslash).
  unfold norm_segs. cbn [fold_left negb].
  rewrite (norm_step_plain true [] name Hplain). cbn [rev app String.concat].
  apply String.eqb_neq in Hne. rewrite Hne.
  rewrite (no_slash_no_trailing name Hslash). cbn [append].
  apply app_empty_r.
Qed.

Lemma joinPaths_empty_name (name : string) :
  entry_name name -> joinPaths "" name = name.
Proof.
  intro H. pose proof H as [(Hne & _ & _) _].
  unfold joinPaths. cbn [String.eqb].
  apply String.eqb_neq in Hne. rewrite Hne. apply normalize_entry_name. exact H.
Qed.

Lemma lookup_directory (f : filesystem) (path : string) :
  lookup_path f path = inl Directory ->
  path <> "" /\ fs_lookup f (locate path) = Some Directory.
Proof.
  unfold lookup_path. destruct (path =? "") eqn:E; [discriminate|].
  apply String.eqb_neq in E.
  destruct (fs_lookup f (locate path)) as [[c|]|]; try discriminate.
  - destruct (endsWith path "/"); discriminate.
  - intros _. split; [exact E|reflexivity].
Qed.

Lemma lookup_directory_intro (f : filesystem) (path : string) :
  path <> "" -> fs_lookup f (locate path) = Some Directory ->
  lookup_path f path = inl Directory.
Proof.
  intros Hne Hl. unfold lookup_path.
  apply String.eqb_neq in Hne. rewrite Hne, Hl. reflexivity.
Qed.

Lemma directory_stays (w w' : world) (L : loc) :
  nothing_removed w w' ->
  fs_lookup (fs w) L = Some Directory -> fs_lookup (fs w') L = Some Directory.
Proof.
  intros Hkeep H. destruct (Hkeep L _ H) as ([c|] & H' & E);
    [discriminate|exact H'].
Qed.

Section Recopy.
Variables (source target file : string) (w : world).
Hypothesis Hname : entry_name file.
Hypothesis Hchild : stat (joinPaths source file) w = Ok Directory w.
Hypothesis Htaken :
  exists n, fs_lookup (fs w) (locate (joinPaths target file)) = Some n.

Lemma copy_child_blocked (paths : list string) (w1 : world) :
  nothing_removed w w1 ->
  is_ok (copy_child source target "" paths file w1) = false.
Proof.
  intro Hkeep. unfold copy_child.
  rewrite (joinPaths_empty_name file Hname).
  destruct (stat_lookup _ _ _ _ Hchild) as [Hl _].
  apply lookup_directory in Hl as [Hne Hdir].
  unfold bind at 1. unfold stat, with_fs.
  rewrite (lookup_directory_intro (fs w1) _ Hne
             (directory_stays w w1 _ Hkeep Hdir)).
  cbn [isDirectory]. apply is_ok_bind_fails.
  destruct Htaken as (n & Hn). destruct (Hkeep _ _ Hn) as (n' & Hn' & _).
  unfold mkdir, update_fs.
  destruct (joinPaths target file =? ""); [reflexivity|].
  rewrite Hn'. reflexivity.
Qed.

Lemma copy_children_blocked (files paths : list string) (w1 : world) :
  nothing_removed w w1 ->
  In file files ->
  is_ok (copy_children source target "" files paths w1) = false.
Proof.
  revert paths w1. induction files as [|file0 files IH];
    intros paths w1 Hkeep Hin; [destruct Hin|].
  cbn [copy_children]. unfold bind.
  pose proof (removes_nothing_copy_child source target "" paths file0 w1) as Hstep.
  destruct (String.string_dec file0 file) as [->|Hne].
  - pose proof (copy_child_blocked paths w1 Hkeep) as Hb.
    destruct (copy_child source target "" paths file w1);
      [discriminate|reflexivity|reflexivity].
  - destruct Hin as [Heq|Hin]; [contradiction|].
    destruct (copy_child source target "" paths file0 w1) as [paths' w2|e w2|w2];
      [|reflexivity|reflexivity].
    apply IH; [|exact Hin].
    eapply nothing_removed_trans; [exact Hkeep|exact Hstep].
Qed.

Hypothesis Hsource : stat source w = Ok Directory w.
Hypothesis Hentry : In file (entries (fs w) (locate source)).

Lemma copy_loop_blocked (fuel : nat) (w1 : world) :
  nothing_removed w w1 ->
  is_ok (copy_loop fuel source target [""] w1) = false.
Proof.
  intro Hkeep. destruct fuel as [|fuel]; [reflexivity|].
  cbn [copy_loop].
  destruct (stat_lookup _ _ _ _ Hsource) as [Hl _].
  apply lookup_directory in Hl as [Hne _].
  assert (Hjoin : joinPaths source "" = normalize source).
  { unfold joinPaths. apply String.eqb_neq in Hne. rewrite Hne. reflexivity. }
  rewrite Hjoin. unfold bind at 1. unfold readdir, with_fs.
  destruct (lookup_path (fs w1) (normalize source)) as [[c|]|e];
    try reflexivity.
  apply is_ok_bind_fails. rewrite (locate_normalize source Hne).
  apply copy_children_blocked; [exact Hkeep|].
  exact (entries_stay w w1 _ file Hkeep Hentry).
Qed.
End Recopy.

(** X22 -- [copyRecursive] cannot copy a directory over an earlier copy of
    it: a sub-directory of the source is created in the target with a plain
    [mkdir], which fails when something of that name is already there.  So
    when the source holds a sub-directory and the target already holds an
    entry of its name, the call does not end well, whatever the fuel. *)
Theorem X22_copy_over_existing_subdirectory_fails (fuel : nat)
    (source target file : string) (n : node) (w : world) :
  stat source w = Ok Directory w ->
  In file (entries (fs w) (locate source)) ->
  entry_name file ->
  stat (joinPaths source file) w = Ok Directory w ->
  fs_lookup (fs w) (locate (joinPaths target file)) = Some n ->
  is_ok (copyRecursive fuel source target w) = false.
Proof.
  intros Hsource Hentry Hname Hchild Htaken.
  assert (Hloop : forall w1, nothing_removed w w1 ->
            is_ok (copy_loop fuel source target [""] w1) = false).
  { intros w1 Hkeep.
    apply (copy_loop_blocked source target file w Hname Hchild
             (ex_intro _ n Htaken) Hsource Hentry fuel w1 Hkeep). }
  unfold copyRecursive. unfold bind at 1. rewrite Hsource.
  cbn [isDirectory negb]. unfold bind at 1.
  assert (Hkeep : removes_nothing
            (catch (info' <- stat target ;; ret (Some info'))
               (fun err => if is_ENOENT err
                           then mkdir_recursive target ;;; ret None
                           else throw err))) by keeps_steps.
  specialize (Hkeep w).
  destruct (catch _ _ w) as [[info'|] w1|e w1|w1]; cbn [world_of] in Hkeep;
    try reflexivity.
  - destruct (negb (isDirectory info')); [reflexivity|]. apply Hloop, Hkeep.
  - apply Hloop, Hkeep.
Qed.

Lemma X22_copy_over_existing_witness :
  is_ok (copyRecursive 5 "public" "dist" recopied_world) = false
  /\ copyRecursive 5 "public" "dist" recopied_world
     = Throw (SystemError EEXIST) recopied_world.
Proof.
  split; [|reflexivity].
  apply (X22_copy_over_existing_subdirectory_fails 5 "public" "dist" "assets"
           Directory recopied_world); try reflexivity.
  - vm_compute. right. left. reflexivity.
  - repeat split; discriminate.
Defined.

(* ================================================================== *)
(** * Clearing the output directory *)
(* ================================================================== *)

Lemma locate_join_name (dir name : string) :
  dir <> "" -> entry_name name ->
  locate (joinPaths dir name)
  = (fst (locate dir), (snd (locate dir) ++ [name])%list).
Proof.
  intros Hdir [Hplain Hslash]. pose proof Hplain as (Hne & _ & _).
  unfold joinPaths.
  apply String.eqb_neq in Hdir, Hne. rewrite Hdir, Hne.
  apply String.eqb_neq in Hdir.
  rewrite locate_normalize by (destruct dir; [contradiction|discriminate]).
  unfold locate. rewrite (isAbsolute_app dir _ Hdir). cbn [fst snd].
  f_equal. rewrite split_slash_app, (split_slash_single name Hslash).
  unfold norm_segs. rewrite fold_left_app. cbn [fold_left].
  rewrite norm_step_plain by exact Hplain. reflexivity.
Qed.

Lemma strip_prefix_refl (p : list string) : strip_prefix p p = Some [].
Proof.
  induction p as [|x p IH]; [reflexivity|].
  cbn [strip_prefix]. rewrite String.eqb_refl. exact IH.
Qed.

Lemma is_under_refl (d : loc) : is_under d d = true.
Proof.
  unfold is_under. rewrite Bool.eqb_reflx, strip_prefix_refl. reflexivity.
Qed.

Lemma strip_prefix_shorter (p l : list string) (x : string) :
  strip_prefix (p ++ [x]) l <> None -> strip_prefix p l <> None.
Proof.
  revert l. induction p as [|y p IH]; intros l H.
  - discriminate.
  - destruct l as [|z l]; [exact H|].
    cbn [app strip_prefix] in *. destruct (y =? z); [|exact H].
    apply IH. exact H.
Qed.

Lemma is_under_child (d L : loc) (name : string) :
  is_under (fst d, (snd d ++ [name])%list) L = true -> is_under d L = true.
Proof.
  unfold is_under. cbn [fst snd]. intro H.
  apply andb_true_iff in H as [Hb Hs]. rewrite Hb. cbn [andb].
  destruct (strip_prefix (snd d ++ [name]) (snd L)) eqn:E; [|discriminate].
  destruct (strip_prefix (snd d) (snd L)) eqn:E'; [reflexivity|].
  exfalso. apply (strip_prefix_shorter (snd d) (snd L) name); congruence.
Qed.

Lemma strip_prefix_longer (p : list string) (x : string) :
  strip_prefix (p ++ [x]) p = None.
Proof.
  induction p as [|y p IH]; [reflexivity|].
  cbn [app strip_prefix]. rewrite String.eqb_refl. exact IH.
Qed.

Lemma is_under_child_self (d : loc) (name : string) :
  is_under (fst d, (snd d ++ [name])%list) d = false.
Proof.
  unfold is_under. cbn [fst snd]. rewrite strip_prefix_longer.
  apply andb_false_r.
Qed.

(** What is left once the listed entries of [d] are removed. *)
Lemma clear_loop (outDir : string) (files : list string) (w : world) :
  outDir <> "" ->
  Forall entry_name files ->
  for_of files (fun file => rm (joinPaths outDir file)) w
  = Ok tt {| fs := filter
                     (fun kv =>
                        negb (existsb
                                (fun file =>
                                   is_under (fst (locate outDir),
                                             (snd (locate outDir) ++ [file])%list)
                                            (fst kv))
                                files))
                     (fs w);
             console := console w |}.
Proof.
  intros Hdir Hfiles. revert w.
  induction Hfiles as [|file files Hname _ IH]; intro w.
  - cbn [for_of existsb negb]. unfold ret. f_equal.
    destruct w as [f c]. cbn [fs console]. f_equal.
    induction f as [|kv f IHf]; [reflexivity|].
    cbn [filter]. f_equal. exact IHf.
  - cbn [for_of]. unfold bind. unfold rm at 1. unfold update_fs.
    destruct (joinPaths outDir file =? "") eqn:Ej.
    + exfalso. apply String.eqb_eq in Ej.
      pose proof (locate_join_name outDir file Hdir Hname) as Hl.
      rewrite Ej in Hl. apply (f_equal snd) in Hl. cbn [snd] in Hl.
      change (snd (locate "")) with (@nil string) in Hl.
      symmetry in Hl. apply app_eq_nil in Hl as [_ Hl]. discriminate.
    + rewrite IH. cbn [fs console]. f_equal. f_equal.
      rewrite (locate_join_name outDir file Hdir Hname).
      generalize (fs w) as f. intro f.
      induction f as [|kv f IHf]; [reflexivity|].
      cbn [filter existsb].
      destruct (is_under (fst (locate outDir),
                          (snd (locate outDir) ++ [file])%list) (fst kv));
        cbn [negb orb].
      * exact IHf.
      * cbn [filter].
        destruct (negb (existsb _ files)); [f_equal|]; exact IHf.
Qed.

Lemma get_filter (P : loc * node -> bool) (f : filesystem) (L : loc) :
  (forall n, P (L, n) = true) ->
  JsMap.get (filter P f) L = JsMap.get f L.
Proof.
  intro HP. induction f as [|[k n] f IH]; [reflexivity|].
  cbn [filter JsMap.get]. destruct (keqb k L) eqn:E.
  - apply keqb_eq in E. subst k. rewrite HP. cbn [JsMap.get].
    rewrite keqb_refl. reflexivity.
  - destruct (P (k, n)); [|exact IH].
    cbn [JsMap.get]. rewrite E. exact IH.
Qed.

Lemma fs_lookup_filter (P : loc * node -> bool) (f : filesystem) (L : loc) :
  (forall n, P (L, n) = true) ->
  fs_lookup (filter P f) L = fs_lookup f L.
Proof.
  intro HP. unfold fs_lookup. destruct (snd L); [reflexivity|].
  apply get_filter. exact HP.
Qed.

Lemma entries_filter_nil (P : loc * node -> bool) (f : filesystem) (d : loc) :
  (forall k n name, In (k, n) f -> child_name d k = Some name ->
                    P (k, n) = false) ->
  entries (filter P f) d = [].
Proof.
  intro HP.
  destruct (entries (filter P f) d) as [|name rest] eqn:E; [reflexivity|].
  exfalso.
  assert (Hin : In name (entries (filter P f) d)) by (rewrite E; left; reflexivity).
  apply entries_spec in Hin as (k & n & Hin & Hc).
  apply filter_In in Hin as [Hin Hp].
  rewrite (HP k n name Hin Hc) in Hp. discriminate.
Qed.

(** X24 -- Clearing empties the output directory and touches nothing else:
    when the output directory exists and its entries have ordinary names,
    the first step of a build with clearing ends well, the directory is
    still there and lists nothing, nothing is logged, and every location
    outside the directory is as it was. *)
Theorem X24_clearing_empties_the_output_directory (outDir : string)
    (w : world) :
  stat outDir w = Ok Directory w ->
  Forall entry_name (entries (fs w) (locate outDir)) ->
  exists w',
    prepare_out_dir outDir true w = Ok tt w'
    /\ readdir outDir w' = Ok [] w'
    /\ console w' = console w
    /\ forall L, is_under (locate outDir) L = false ->
                 fs_lookup (fs w') L = fs_lookup (fs w) L.
Proof.
  intros Hstat Hnames.
  destruct (stat_lookup _ _ _ _ Hstat) as [Hl _].
  destruct (lookup_directory _ _ Hl) as [Hne Hdir].
  set (P := fun kv : loc * node =>
              negb (existsb
                      (fun file =>
                         is_under (fst (locate outDir),
                                   (snd (locate outDir) ++ [file])%list)
                                  (fst kv))
                      (entries (fs w) (locate outDir)))).
  assert (Hframe : forall L,
            (forall file, is_under (fst (locate outDir),
                                    (snd (locate outDir) ++ [file])%list) L
                          = false) ->
            fs_lookup (filter P (fs w)) L = fs_lookup (fs w) L).
  { intros L HL. apply fs_lookup_filter. intros n. unfold P. cbn [fst].
    apply negb_true_iff. apply not_true_is_false. intro E.
    apply existsb_exists in E as (file & _ & E). rewrite HL in E. discriminate. }
  exists {| fs := filter P (fs w); console := console w |}.
  split; [|split; [|split]].
  - unfold prepare_out_dir. unfold bind at 1. unfold exists_, with_fs.
    rewrite Hl. unfold bind at 1. unfold readdir, with_fs. rewrite Hl.
    apply (clear_loop outDir _ w Hne Hnames).
  - unfold readdir, with_fs. cbn [fs].
    rewrite (lookup_directory_intro (filter P (fs w)) outDir Hne).
    + f_equal. apply entries_filter_nil. intros k n name Hin Hc.
      unfold P. cbn [fst]. apply negb_false_iff. apply existsb_exists.
      exists name. split.
      * apply entries_spec. exists k, n. split; assumption.
      * rewrite <- (child_name_loc _ _ _ Hc). apply is_under_refl.
    + rewrite Hframe; [exact Hdir|]. intro file. apply is_under_child_self.
  - reflexivity.
  - intros L HL. cbn [fs]. apply Hframe. intro file.
    apply not_true_is_false. intro E. apply is_under_child in E. congruence.
Qed.

Lemma X24_clearing_witness :
  exists w',
    prepare_out_dir "dist" true recopied_world = Ok tt w'
    /\ readdir "dist" w' = Ok [] w'
    /\ console w' = console recopied_world
    /\ forall L, is_under (locate "dist") L = false ->
                 fs_lookup (fs w') L = fs_lookup (fs recopied_world) L.
Proof.
  apply (X24_clearing_empties_the_output_directory "dist" recopied_world).
  - reflexivity.
  - vm_compute. repeat constructor; discriminate.
Defined.

(* ================================================================== *)
(** * Copying a directory of files *)
(* ================================================================== *)

Lemma clean_end_bind {A B} (Q : A -> world -> Prop) (P : B -> world -> Prop)
    (m : M A) (k : A -> M B) (w : world) :
  clean_end Q (m w) ->
  (forall a w1, Q a w1 -> clean_end P (k a w1)) ->
  clean_end P (bind m k w).
Proof.
  intros Hm Hk. unfold bind. destruct (m w) as [a w1|e w1|w1].
  - apply Hk. exact Hm.
  - exact Hm.
  - exact Hm.
Qed.

Lemma clean_end_impl {A} (P Q : A -> world -> Prop) (r : outcome A) :
  (forall a w', P a w' -> Q a w') -> clean_end P r -> clean_end Q r.
Proof. intros H. destruct r; cbn [clean_end]; auto. Qed.

Lemma clean_end_update_fs (k : filesystem -> filesystem + errno) (w : world) :
  clean_end (fun _ w' => update_fs k w = Ok tt w') (update_fs k w).
Proof.
  unfold update_fs. destruct (k (fs w)) as [f|e]; cbn [clean_end].
  - reflexivity.
  - exists e. reflexivity.
Qed.

Lemma clean_end_writeFile (path : string) (data : Uint8Array) (w : world) :
  clean_end (fun _ w' => writeFile path data w = Ok tt w')
            (writeFile path data w).
Proof. unfold writeFile. apply clean_end_update_fs. Qed.

Lemma join_name_inj (dir dir' name name' : string) :
  dir <> "" -> dir' <> "" -> entry_name name -> entry_name name' ->
  locate (joinPaths dir name) = locate (joinPaths dir' name') ->
  name = name'.
Proof.
  intros Hd Hd' Hn Hn' E.
  rewrite (locate_join_name dir name Hd Hn) in E.
  rewrite (locate_join_name dir' name' Hd' Hn') in E.
  injection E as _ E. apply app_inj_tail in E as [_ E]. exact E.
Qed.

Lemma lookup_file (f : filesystem) (path : string) (c : Uint8Array) (info : node) :
  fs_lookup f (locate path) = Some (File c) ->
  lookup_path f path = inl info -> info = File c.
Proof.
  intros Hf. unfold lookup_path. rewrite Hf.
  destruct (path =? ""); [discriminate|].
  destruct (endsWith path "/"); [discriminate|].
  intros [= <-]. reflexivity.
Qed.

Section FlatCopy.
Variables (source target : string) (w0 : world).
Hypothesis Hsource : source <> "".
Hypothesis Htarget : target <> "".
Hypothesis Hdiff : locate source <> locate target.
Hypothesis Hflat :
  forall name,
    In name (entries (fs w0) (locate source)) ->
    entry_name name
    /\ exists c, fs_lookup (fs w0) (locate (joinPaths source name))
                 = Some (File c).

Lemma child_locs_differ (file : string) :
  entry_name file ->
  locate (joinPaths source file) <> locate (joinPaths target file).
Proof.
  intros Hname E.
  rewrite (locate_join_name source file Hsource Hname) in E.
  rewrite (locate_join_name target file Htarget Hname) in E.
  pose proof (f_equal fst E) as E1. pose proof (f_equal snd E) as E2.
  cbn [fst snd] in E1, E2. apply app_inj_tail in E2 as [E2 _].
  apply Hdiff.
  rewrite (surjective_pairing (locate source)),
          (surjective_pairing (locate target)).
  rewrite E1, E2. reflexivity.
Qed.

Lemma copy_child_flat (paths done : list string) (file : string) (w : world) :
  originals_kept source w0 w ->
  copied source target done w0 w ->
  incl done (entries (fs w0) (locate source)) ->
  In file (entries (fs w0) (locate source)) ->
  clean_end (fun paths' w' =>
               paths' = paths
               /\ originals_kept source w0 w'
               /\ copied source target (file :: done) w0 w')
            (copy_child source target "" paths file w).
Proof.
  intros Hkept Hcopied Hdone Hin.
  destruct (Hflat file Hin) as (Hname & c & Hc).
  pose proof (Hkept file c Hin Hc) as Hnow.
  unfold copy_child. rewrite (joinPaths_empty_name file Hname).
  unfold bind at 1. unfold stat, with_fs.
  destruct (lookup_path (fs w) (joinPaths source file)) as [info|code] eqn:Hl;
    [|eexists; reflexivity].
  pose proof (lookup_file _ _ _ _ Hnow Hl) as ->. cbn [isDirectory].
  assert (Hwf : writeFileFrom (joinPaths target file) (joinPaths source file) w
                = writeFile (joinPaths target file) c w).
  { rewrite (writeFileFrom_file _ _ c w Hl).
    change loc_eqb with (@keqb loc _).
    rewrite (keqb_neq _ _ (child_locs_differ file Hname)). reflexivity. }
  unfold bind at 1. rewrite Hwf.
  pose proof (clean_end_writeFile (joinPaths target file) c w) as Hw.
  destruct (writeFile (joinPaths target file) c w) as [[] w'|e w'|w'] eqn:Ew;
    cbn [clean_end] in *; [|exact Hw|exact Hw].
  unfold ret. cbn [clean_end].
  destruct (writeFile_ok _ _ _ _ Ew) as [Hnew Hold].
  split; [reflexivity|]. split.
  - intros name c' Hin' Hc'.
    destruct (loc_eq_dec (locate (joinPaths source name))
                         (locate (joinPaths target file))) as [E|E].
    + destruct (Hflat name Hin') as (Hname' & _).
      pose proof (join_name_inj _ _ _ _ Hsource Htarget Hname' Hname E) as ->.
      rewrite E, Hnew. congruence.
    + apply (Hold _ _ E). exact (Hkept name c' Hin' Hc').
  - intros name c' [<-|Hin'] Hc'.
    + rewrite Hnew. congruence.
    + destruct (loc_eq_dec (locate (joinPaths target name))
                           (locate (joinPaths target file))) as [E|E].
      * destruct (Hflat name (Hdone name Hin')) as (Hname' & _).
        pose proof (join_name_inj _ _ _ _ Htarget Htarget Hname' Hname E) as ->.
        rewrite Hnew. congruence.
      * apply (Hold _ _ E). exact (Hcopied name c' Hin' Hc').
Qed.

Lemma copy_children_flat (files paths done : list string) (w : world) :
  originals_kept source w0 w ->
  copied source target done w0 w ->
  incl done (entries (fs w0) (locate source)) ->
  incl files (entries (fs w0) (locate source)) ->
  clean_end (fun paths' w' =>
               paths' = paths
               /\ originals_kept source w0 w'
               /\ copied source target (rev files ++ done) w0 w')
            (copy_children source target "" files paths w).
Proof.
  revert done w. induction files as [|file files IH];
    intros done w Hkept Hcopied Hdone Hfiles.
  - cbn [copy_children rev app clean_end]. unfold ret. cbn [clean_end]. auto.
  - cbn [copy_children].
    eapply clean_end_bind.
    + apply (copy_child_flat paths done file w Hkept Hcopied Hdone).
      apply Hfiles. left. reflexivity.
    + cbn beta. intros paths' w1 (-> & Hkept1 & Hcopied1).
      cbn [rev]. rewrite <- app_assoc. cbn [app].
      apply IH; try assumption.
      * intros x [<-|Hx]; [apply Hfiles; left; reflexivity|exact (Hdone x Hx)].
      * intros x Hx. apply Hfiles. right. exact Hx.
Qed.

(** One pass of the loop copies a directory of files. *)
Lemma copy_loop_flat (fuel : nat) :
  clean_end (fun _ w' =>
               originals_kept source w0 w'
               /\ copied source target (entries (fs w0) (locate source)) w0 w')
            (copy_loop (S fuel) source target [""] w0).
Proof.
  cbn [copy_loop].
  assert (Hjoin : joinPaths source "" = normalize source).
  { unfold joinPaths. pose proof Hsource as Hne.
    apply String.eqb_neq in Hne. rewrite Hne. reflexivity. }
  rewrite Hjoin. unfold bind at 1. unfold readdir, with_fs.
  rewrite (locate_normalize source Hsource).
  destruct (lookup_path (fs w0) (normalize source)) as [[c|]|e];
    [eexists; reflexivity| |eexists; reflexivity].
  eapply clean_end_bind.
  - apply (copy_children_flat (entries (fs w0) (locate source)) [] [] w0).
    + intros name c _ H. exact H.
    + intros name c [].
    + intros x [].
    + apply incl_refl.
  - cbn beta. intros paths' w1 (-> & Hkept & Hcopied).
    destruct fuel; cbn [copy_loop]; unfold ret; cbn [clean_end];
      (split; [exact Hkept|]);
      intros name c Hin Hc;
      (apply Hcopied; [rewrite app_nil_r; apply in_rev;
                       rewrite rev_involutive; exact Hin|exact Hc]).
Qed.
End FlatCopy.

(** X23 -- Copying a directory that holds only files into another
    directory, which exists: with one unit of fuel or more, [copyRecursive]
    either ends well, and then every file of the source has a copy of the
    same name and content in the target and is itself unchanged, or fails
    with an error of the file system; it does not run out of fuel.  (A
    directory copied onto itself is another matter: its files are left
    empty.) *)
Theorem X23_copy_of_a_directory_of_files (fuel : nat)
    (source target : string) (w : world) :
  stat source w = Ok Directory w ->
  stat target w = Ok Directory w ->
  locate source <> locate target ->
  (forall name,
     In name (entries (fs w) (locate source)) ->
     entry_name name
     /\ exists c, fs_lookup (fs w) (locate (joinPaths source name))
                  = Some (File c)) ->
  clean_end
    (fun _ w' =>
       forall name c,
         In name (entries (fs w) (locate source)) ->
         fs_lookup (fs w) (locate (joinPaths source name)) = Some (File c) ->
         fs_lookup (fs w') (locate (joinPaths target name)) = Some (File c)
         /\ fs_lookup (fs w') (locate (joinPaths source name)) = Some (File c))
    (copyRecursive (S fuel) source target w).
Proof.
  intros Hs Ht Hdiff Hflat.
  destruct (stat_lookup _ _ _ _ Hs) as [Hls _].
  destruct (lookup_directory _ _ Hls) as [Hsne _].
  destruct (stat_lookup _ _ _ _ Ht) as [Hlt _].
  destruct (lookup_directory _ _ Hlt) as [Htne _].
  unfold copyRecursive. unfold bind at 1. rewrite Hs.
  cbn [isDirectory negb]. unfold bind at 1. unfold catch. unfold bind at 1.
  rewrite Ht. unfold ret at 1. cbn [isDirectory negb].
  eapply clean_end_impl;
    [|apply (copy_loop_flat source target w Hsne Htne Hdiff Hflat fuel)].
  cbn beta. intros _ w' [Hkept Hcopied] name c Hin Hc.
  split; [apply Hcopied|apply Hkept]; assumption.
Qed.

Lemma X23_copy_of_files_witness :
  let w' := {| fs := (fs assets_world
                      ++ [((false, ["public"; "logo.png"]), File "PNG")])%list;
               console := [] |} in
  copyRecursive 1 "assets" "public" assets_world = Ok tt w'
  /\ fs_lookup (fs w') (locate (joinPaths "public" "logo.png"))
     = Some (File "PNG").
Proof.
  split; [reflexivity|].
  pose proof (X23_copy_of_a_directory_of_files 0 "assets" "public"
                assets_world) as H.
  cbv zeta in H.
  assert (Hrun : copyRecursive 1 "assets" "public" assets_world
                 = Ok tt {| fs := (fs assets_world
                                   ++ [((false, ["public"; "logo.png"]),
                                        File "PNG")])%list;
                            console := [] |}) by reflexivity.
  rewrite Hrun in H.
  apply H; try reflexivity.
  - discriminate.
  - intros name [<-|[]]. split.
    + repeat split; discriminate.
    + exists "PNG". reflexivity.
  - vm_compute. left. reflexivity.
Defined.

(* ================================================================== *)
(** * Static files in the output of a build *)
(* ================================================================== *)

Lemma set_entries (f : filesystem) (l d : loc) (n : node) :
  child_name d l = None -> entries (JsMap.set f l n) d = entries f d.
Proof.
  intro Hl. induction f as [|[k v] f IH]; cbn [JsMap.set entries].
  - rewrite Hl. reflexivity.
  - destruct (keqb k l); cbn [entries]; [reflexivity|].
    rewrite IH. reflexivity.
Qed.

Lemma mkdirs_entries (ls : list loc) (last : errno) (f f' : filesystem)
    (d : loc) :
  (forall l, In l ls -> child_name d l = None) ->
  mkdirs f ls last = inl f' -> entries f' d = entries f d.
Proof.
  revert f. induction ls as [|l ls IH]; intros f Hls H; cbn [mkdirs] in H.
  - injection H as <-. reflexivity.
  - assert (Hrest : forall l', In l' ls -> child_name d l' = None)
      by (intros l' Hin; apply Hls; right; exact Hin).
    destruct (fs_lookup f l) as [[c|]|].
    + discriminate.
    + exact (IH f Hrest H).
    + rewrite (IH _ Hrest H). apply set_entries. apply Hls. left. reflexivity.
Qed.

Lemma inits_prefix {A} (l p : list A) :
  In p (inits l) -> exists r, l = (p ++ r)%list.
Proof.
  revert p. induction l as [|x l IH]; intros p Hin; cbn [inits] in Hin.
  - destruct Hin as [<-|[]]. exists []. reflexivity.
  - destruct Hin as [<-|Hin]; [exists (x :: l); reflexivity|].
    apply in_map_iff in Hin as (q & <- & Hq).
    destruct (IH q Hq) as (r & ->). exists r. reflexivity.
Qed.

Lemma removelast_in {A} (l : list A) (x : A) :
  In x (removelast l) -> In x l.
Proof.
  induction l as [|y l IH]; [intros []|].
  cbn [removelast]. destruct l as [|z l]; [intros []|].
  intros [<-|H]; [left; reflexivity|right; exact (IH H)].
Qed.

Lemma ancestors_prefix (l a : loc) :
  In a (ancestors l ++ [l])%list ->
  fst a = fst l /\ exists r, snd l = (snd a ++ r)%list.
Proof.
  intro Hin. apply in_app_or in Hin as [Hin|[<-|[]]].
  - unfold ancestors in Hin. apply in_map_iff in Hin as (segs & <- & Hsegs).
    cbn [fst snd]. split; [reflexivity|].
    apply inits_prefix. apply removelast_in. exact Hsegs.
  - split; [reflexivity|]. exists []. symmetry. apply app_nil_r.
Qed.

Lemma strip_prefix_app_same (p r : list string) :
  strip_prefix p (p ++ r) = Some r.
Proof.
  induction p as [|x p IH]; [reflexivity|].
  cbn [app strip_prefix]. rewrite String.eqb_refl. exact IH.
Qed.

(** Creating a directory that is not under [d], with the directories above
    it, adds no entry to [d]. *)
Lemma not_under_no_child (d t a : loc) :
  is_under d t = false ->
  In a (ancestors t ++ [t])%list ->
  child_name d a = None.
Proof.
  intros Hnot Hin. destruct (child_name d a) as [name|] eqn:E; [|reflexivity].
  exfalso. apply child_name_loc in E. subst a.
  destruct (ancestors_prefix t _ Hin) as (Hfst & r & Hsnd).
  cbn [fst snd] in Hfst, Hsnd.
  unfold is_under in Hnot. rewrite Hfst, Bool.eqb_reflx in Hnot.
  rewrite Hsnd, <- app_assoc, strip_prefix_app_same in Hnot. discriminate.
Qed.

(** Copying a directory of files into a directory that is not inside it,
    and that exists or not. *)
Lemma copyRecursive_flat (fuel : nat) (source target : string) (w : world) :
  lookup_path (fs w) source = inl Directory ->
  (forall name,
     In name (entries (fs w) (locate source)) ->
     entry_name name
     /\ exists c, fs_lookup (fs w) (locate (joinPaths source name))
                  = Some (File c)) ->
  is_under (locate source) (locate target) = false ->
  (forall c, lookup_path (fs w) target <> inl (File c)) ->
  clean_end
    (fun _ w' =>
       forall name c,
         In name (entries (fs w) (locate source)) ->
         fs_lookup (fs w) (locate (joinPaths source name)) = Some (File c) ->
         fs_lookup (fs w') (locate (joinPaths target name)) = Some (File c)
         /\ fs_lookup (fs w') (locate (joinPaths source name)) = Some (File c))
    (copyRecursive (S fuel) source target w).
Proof.
  intros Hls Hflat Hsep Hnf.
  destruct (lookup_directory _ _ Hls) as [Hsne _].
  assert (Hdiff : locate source <> locate target).
  { intro E. rewrite <- E, is_under_refl in Hsep. discriminate. }
  unfold copyRecursive. unfold bind at 1. unfold stat at 1. unfold with_fs.
  rewrite Hls. cbn [isDirectory negb].
  unfold bind at 1. unfold catch. unfold bind at 1.
  unfold stat at 1. unfold with_fs.
  destruct (lookup_path (fs w) target) as [[c|]|code] eqn:Hlt.
  - exfalso. exact (Hnf c eq_refl).
  - unfold ret at 1. cbn [isDirectory negb].
    destruct (lookup_directory _ _ Hlt) as [Htne _].
    eapply clean_end_impl;
      [|apply (copy_loop_flat source target w Hsne Htne Hdiff Hflat fuel)].
    cbn beta. intros _ w' [Hkept Hcopied] name c Hin Hc.
    split; [apply Hcopied|apply Hkept]; assumption.
  - destruct code; cbn [is_ENOENT]; try (eexists; reflexivity).
    unfold bind at 1. unfold mkdir_recursive, update_fs.
    destruct (target =? "") eqn:Et; [eexists; reflexivity|].
    apply String.eqb_neq in Et.
    destruct (mkdirs (fs w) (ancestors (locate target) ++ [locate target])
                EEXIST) as [f'|e] eqn:Em; [|eexists; reflexivity].
    unfold ret at 1.
    assert (Hent : entries f' (locate source) = entries (fs w) (locate source)).
    { apply (mkdirs_entries _ _ _ _ _ (fun l Hl =>
               not_under_no_child _ _ l Hsep Hl) Em). }
    assert (Hkeep : forall L n, fs_lookup (fs w) L = Some n ->
                                fs_lookup f' L = Some n).
    { intros L n. apply (mkdirs_keeps _ _ _ _ L n Em). }
    eapply clean_end_impl;
      [|apply (copy_loop_flat source target
                 {| fs := f'; console := console w |} Hsne Et Hdiff)].
    + cbn beta. cbn [fs]. intros _ w' [Hkept Hcopied] name c Hin Hc.
      rewrite <- Hent in Hin.
      split; [apply Hcopied|apply Hkept]; auto.
    + cbn [fs]. intros name Hin. rewrite Hent in Hin.
      destruct (Hflat name Hin) as (Hname & c & Hc).
      split; [exact Hname|]. exists c. apply Hkeep. exact Hc.
Qed.

Lemma copyRecursive_onto_file (fuel : nat) (source target : string)
    (c : Uint8Array) (w : world) :
  lookup_path (fs w) source = inl Directory ->
  lookup_path (fs w) target = inl (File c) ->
  is_ok (copyRecursive fuel source target w) = false.
Proof.
  intros Hls Hlt.
  unfold copyRecursive. unfold bind at 1. unfold stat at 1. unfold with_fs.
  rewrite Hls. cbn [isDirectory negb].
  unfold bind at 1. unfold catch. unfold bind at 1.
  unfold stat at 1. unfold with_fs. rewrite Hlt. reflexivity.
Qed.

(** The last static mapping of a build that ends well: a file of its
    directory is in the output, unless a page is written over it. *)
Lemma static_file_in_output (fuel : nat) (g : SiteGenerator) (outDir : string)
    (clearOutDir : bool) (w w1 w' : world)
    (before : list (string * string)) (route staticDir name : string)
    (c : Uint8Array) :
  staticMappings g = (before ++ [(route, staticDir)])%list ->
  (prepare_out_dir outDir clearOutDir ;;;
   for_of before (copy_static fuel outDir)) w = Ok tt w1 ->
  build fuel g outDir clearOutDir w = Ok tt w' ->
  stat staticDir w1 = Ok Directory w1 ->
  (forall name',
     In name' (entries (fs w1) (locate staticDir)) ->
     entry_name name'
     /\ exists c', fs_lookup (fs w1) (locate (joinPaths staticDir name'))
                   = Some (File c')) ->
  is_under (locate staticDir) (locate (joinPaths outDir route)) = false ->
  In name (entries (fs w1) (locate staticDir)) ->
  fs_lookup (fs w1) (locate (joinPaths staticDir name)) = Some (File c) ->
  (forall route' renderer,
     In (route', renderer) (routes g) ->
     locate (out_file g outDir route')
     <> locate (joinPaths (joinPaths outDir route) name)) ->
  fs_lookup (fs w') (locate (joinPaths (joinPaths outDir route) name))
  = Some (File c).
Proof.
  intros Hmap Hprep Hbuild Hdir Hflat Hsep Hin Hc Hpages.
  unfold build in Hbuild.
  apply bind_ok in Hbuild as ([] & wa & Hp & Hbuild).
  apply bind_ok in Hbuild as ([] & wb & Hstatics & Hbuild).
  apply bind_ok in Hbuild as ([] & wc & Hroutes & Hdone).
  apply console_log_fs in Hdone.
  apply bind_ok in Hprep as ([] & wa' & Hp' & Hbefore).
  rewrite Hp in Hp'. injection Hp' as <-.
  rewrite Hmap, for_of_app in Hstatics.
  apply bind_ok in Hstatics as ([] & w1' & Hbefore' & Hlast).
  rewrite Hbefore in Hbefore'. injection Hbefore' as <-.
  cbn [for_of] in Hlast.
  apply bind_ok in Hlast as ([] & wb' & Hcopy & Hret).
  unfold ret in Hret. injection Hret as <-.
  unfold copy_static in Hcopy.
  apply bind_ok in Hcopy as ([] & wl & Hlog & Hcopy).
  apply console_log_fs in Hlog.
  destruct (stat_lookup _ _ _ _ Hdir) as [Hld _].
  rewrite <- Hlog in Hld, Hflat, Hin, Hc.
  apply (copyRecursive_mono _ _ fuel (S fuel) _ _ (Nat.le_succ_diag_r fuel))
    in Hcopy.
  assert (Hnf : forall c0, lookup_path (fs wl) (joinPaths outDir route)
                           <> inl (File c0)).
  { intros c0 Hf.
    pose proof (copyRecursive_onto_file (S fuel) _ _ c0 wl Hld Hf) as Hno.
    rewrite Hcopy in Hno. discriminate. }
  pose proof (copyRecursive_flat fuel staticDir (joinPaths outDir route) wl
                Hld Hflat Hsep Hnf) as Hend.
  rewrite Hcopy in Hend. cbn [clean_end] in Hend.
  destruct (Hend name c Hin Hc) as [Hthere _].
  rewrite Hdone.
  apply (render_routes_keep g outDir (routes g) _ wc _ c Hroutes Hpages Hthere).
Qed.

(** C4. In every build run the static mappings are copied, in registration
    order, before any route is rendered or written: the routes are processed
    in the world the copies leave, and only when all of them ended well, so
    every [Rendering] line of the console comes after all the [Mapping]
    lines.  When the run ends well, the file of a route holds the data of
    its render, whatever a copy put there (the last route wins among routes
    with the same file), and a file of the directory of the last mapping
    (a directory of files, copied to a place that is not inside it) is in
    the output with its content, unless a route has that file; more fuel for
    the copy loop gives the same end.  With the static mapping of the root
    to a directory that holds index.html = STATIC and the route of the root
    rendering PAGE, the output index.html holds PAGE: the copy puts STATIC
    there, and the page is written over it, while a style sheet beside it
    stays as copied. *)
Theorem C4_static_copies_before_pages (fuel : nat) (g : SiteGenerator)
    (outDir : string) (clearOutDir : bool) (w : world) :
  (let copies := prepare_out_dir outDir clearOutDir ;;;
                 for_of (staticMappings g) (copy_static fuel outDir) in
   let pages := for_of (routes g) (render_route g outDir) ;;;
                console_log (done_line outDir) in
   match copies w with
   | Ok _ w1 => build fuel g outDir clearOutDir w = pages w1
   | Throw e w1 => build fuel g outDir clearOutDir w = Throw e w1
   | OutOfFuel w1 => build fuel g outDir clearOutDir w = OutOfFuel w1
   end)
  /\ (exists n m,
        console (world_of (build fuel g outDir clearOutDir w))
        = (console w
           ++ firstn n (map mapping_line (staticMappings g))
           ++ firstn m (map (rendering_line g outDir) (routes g))
           ++ (if is_ok (build fuel g outDir clearOutDir w)
               then [done_line outDir] else []))%list
        /\ (m <> 0 -> n = List.length (staticMappings g))
        /\ (is_ok (build fuel g outDir clearOutDir w) = true ->
            n = List.length (staticMappings g) /\ m = List.length (routes g)))
  /\ (forall w' before route renderer after,
        build fuel g outDir clearOutDir w = Ok tt w' ->
        routes g = (before ++ (route, renderer) :: after)%list ->
        (forall route' renderer', In (route', renderer') after ->
           locate (out_file g outDir route') <> locate (out_file g outDir route)) ->
        exists render res,
          renderer tt = inl render
          /\ render_data render w = Ok res w
          /\ fs_lookup (fs w') (locate (out_file g outDir route))
             = Some (File (data_bytes res)))
  /\ (forall w1 w' before route staticDir name c,
        staticMappings g = (before ++ [(route, staticDir)])%list ->
        (prepare_out_dir outDir clearOutDir ;;;
         for_of before (copy_static fuel outDir)) w = Ok tt w1 ->
        build fuel g outDir clearOutDir w = Ok tt w' ->
        stat staticDir w1 = Ok Directory w1 ->
        (forall name',
           In name' (entries (fs w1) (locate staticDir)) ->
           entry_name name'
           /\ exists c', fs_lookup (fs w1) (locate (joinPaths staticDir name'))
                         = Some (File c')) ->
        is_under (locate staticDir) (locate (joinPaths outDir route)) = false ->
        In name (entries (fs w1) (locate staticDir)) ->
        fs_lookup (fs w1) (locate (joinPaths staticDir name)) = Some (File c) ->
        (forall route' renderer,
           In (route', renderer) (routes g) ->
           locate (out_file g outDir route')
           <> locate (joinPaths (joinPaths outDir route) name)) ->
        fs_lookup (fs w') (locate (joinPaths (joinPaths outDir route) name))
        = Some (File c))
  /\ (forall fuel' w',
        fuel <= fuel' ->
        build fuel g outDir clearOutDir w = Ok tt w' ->
        build fuel' g outDir clearOutDir w = Ok tt w')
  /\ (forall fuel',
        build (S fuel') overlay_site "out" true overlay_world
        = Ok tt {| fs := [((false, ["static"]), Directory);
                          ((false, ["static"; "index.html"]), File "STATIC");
                          ((false, ["out"]), Directory);
                          ((false, ["out"; "index.html"]), File "PAGE")];
                   console := ["Mapping static to /...";
                               "Rendering out/index.html...";
                               "Done. Rendered site is available in 'out'."] |})
  /\ (forall fuel',
        (prepare_out_dir "out" true ;;;
         for_of (staticMappings overlay_site) (copy_static (S fuel') "out"))
          styled_world
        = Ok tt {| fs := [((false, ["static"]), Directory);
                          ((false, ["static"; "index.html"]), File "STATIC");
                          ((false, ["static"; "style.css"]), File "CSS");
                          ((false, ["out"]), Directory);
                          ((false, ["out"; "index.html"]), File "STATIC");
                          ((false, ["out"; "style.css"]), File "CSS")];
                   console := ["Mapping static to /..."] |}
        /\ build (S fuel') overlay_site "out" true styled_world
           = Ok tt {| fs := [((false, ["static"]), Directory);
                             ((false, ["static"; "index.html"]), File "STATIC");
                             ((false, ["static"; "style.css"]), File "CSS");
                             ((false, ["out"]), Directory);
                             ((false, ["out"; "index.html"]), File "PAGE");
                             ((false, ["out"; "style.css"]), File "CSS")];
                      console := ["Mapping static to /...";
                                  "Rendering out/index.html...";
                                  "Done. Rendered site is available in 'out'."] |}).
Proof.
  split; [apply build_phases|].
  split; [apply build_console|].
  split.
  { intros w' before route renderer after Hok Hroutes Hlast.
    eapply build_page_wins; eassumption. }
  split.
  { intros w1 w' before route staticDir name c.
    apply static_file_in_output. }
  split; [intros fuel' w'; apply build_fuel_mono|].
  split; [intros [|fuel']; reflexivity|].
  intros [|fuel']; split; reflexivity.
Qed.

(** C4, at the sample site with a style sheet: the page of the root is
    written over the index file that the copy of the static directory put
    there, and the style sheet is in the output as it was copied. *)
Lemma C4_static_copies_witness :
  exists w',
    build 1 overlay_site "out" true styled_world = Ok tt w'
    /\ out_file overlay_site "out" "/" = "out/index.html"
    /\ fs_lookup (fs w') (locate "out/index.html") = Some (File "PAGE")
    /\ joinPaths (joinPaths "out" "/") "style.css" = "out/style.css"
    /\ fs_lookup (fs w') (locate "out/style.css") = Some (File "CSS").
Proof.
  eexists. split; [reflexivity|]. split; [reflexivity|].
  destruct (C4_static_copies_before_pages 1 overlay_site "out" true styled_world)
    as (_ & _ & Hwins & Hstatic & _).
  split; [|split; [reflexivity|]].
  - destruct (Hwins _ [] "/" (page "PAGE") [] eq_refl eq_refl)
      as (render & res & Hr & Hd & Hfile).
    + intros ? ? [].
    + injection Hr as <-. injection Hd as <-. exact Hfile.
  - apply (Hstatic {| fs := [((false, ["static"]), Directory);
                             ((false, ["static"; "index.html"]), File "STATIC");
                             ((false, ["static"; "style.css"]), File "CSS");
                             ((false, ["out"]), Directory)];
                      console := [] |}
                   _ [] "/" "static" "style.css" "CSS");
      try reflexivity.
    + intros name' [<-|[<-|[]]]; (split; [repeat split; discriminate|]);
        eexists; reflexivity.
    + vm_compute. right. left. reflexivity.
    + intros route' renderer [[= <- <-]|[]]. vm_compute. discriminate.
Defined.
